(** * FluentAI front end: answer checking, timers, lesson and conversation
      sessions, progression display and the API client.

    The JavaScript modules [api.js], [app.js], [lessons.js], [speaking.js]
    and [dashboard.js] are embedded shallowly: module-level variables become
    fields of explicit state records, callbacks queued with [setTimeout] and
    [setInterval] become labelled events of a step function, exceptions
    become the [Throw] case of a completion type, and [localStorage] becomes
    a finite map. *)

From stdpp Require Import gmap strings list.
From Stdlib Require Import ZArith String Ascii Lia DecimalString DecimalPos DecimalZ.

Local Open Scope string_scope.
#[local] Set Warnings "-clear-no-such-hyp".

(** ** Completions: normal return or thrown exception *)

Inductive JSError : Type :=
  | SyntaxError
  | TypeError
  | ErrorMsg (message : string).

Inductive completion (A : Type) : Type :=
  | Normal (a : A)
  | Throw (e : JSError).

Arguments Normal {A} a.
Arguments Throw {A} e.

Definition bindc {A B} (c : completion A) (k : A -> completion B) : completion B :=
  match c with
  | Normal a => k a
  | Throw e => Throw e
  end.

(** [try { c } catch (e) { handler e }] *)
Definition try_catch {A} (c : completion A) (handler : JSError -> completion A)
  : completion A :=
  match c with
  | Normal a => Normal a
  | Throw e => handler e
  end.

(** ** JavaScript values

    The values [JSON.parse] returns and the modules pass on.  [JNum n] is
    the number [n], an integer of magnitude below 2^53; a number with a
    fraction, an infinity and NaN have no representation, and neither has
    text with a code unit above U+00FF: a string is a sequence of code
    units in U+0000..U+00FF.  A [JObj] is an object decoded from JSON: its
    own properties are data properties, none of them callable, and its
    prototype is [Object.prototype]. *)

#[warnings="-register-all"]
Inductive JSValue : Type :=
  | JUndefined
  | JNull
  | JBool (b : bool)
  | JNum (n : Z)
  | JStr (s : string)
  | JArr (items : list JSValue)
  | JObj (props : list (string * JSValue)).

(** [typeof v === 'string'] *)
Definition typeof_string (v : JSValue) : bool :=
  match v with JStr _ => true | _ => false end.

(** [v === 'text'] *)
Definition strictly_equals (v : JSValue) (text : string) : bool :=
  match v with JStr s => s =? text | _ => false end.

(** ToBoolean, as used by [if (v)], [!v] and [a || b]. *)
Definition truthy (v : JSValue) : bool :=
  match v with
  | JUndefined | JNull => false
  | JBool b => b
  | JNum n => negb (n =? 0)%Z
  | JStr s => negb (s =? EmptyString)
  | JArr _ | JObj _ => true
  end.

(** [a || b] *)
Definition js_or (a b : JSValue) : JSValue := if truthy a then a else b.

Fixpoint assoc_last (k : string) (props : list (string * JSValue)) : option JSValue :=
  match props with
  | [] => None
  | (k', v) :: rest =>
      match assoc_last k rest with
      | Some w => Some w
      | None => if k' =? k then Some v else None
      end
  end.

(** Property read [v.k] for the data properties the modules read.  Reading
    a property of [null] or [undefined] throws a TypeError; a missing
    property reads as [undefined]. *)
Definition get_prop (v : JSValue) (k : string) : completion JSValue :=
  match v with
  | JUndefined | JNull => Throw TypeError
  | JObj props => Normal (default JUndefined (assoc_last k props))
  | _ => Normal JUndefined
  end.

Fixpoint join_with (sep : string) (parts : list string) : string :=
  match parts with
  | [] => EmptyString
  | [p] => p
  | p :: rest => p ++ sep ++ join_with sep rest
  end.

Fixpoint skip (n : nat) (s : string) : string :=
  match n, s with
  | S m, String _ r => skip m r
  | _, _ => s
  end.

(** [s.replace(pattern, replacement)] for a pattern that is a non-empty
    string and a replacement without [$]: the first occurrence of the
    pattern is replaced. *)
Fixpoint replace_first (pattern replacement s : string) : string :=
  match s with
  | EmptyString => EmptyString
  | String c r =>
      if String.prefix pattern s
      then replacement ++ skip (String.length pattern) s
      else String c (replace_first pattern replacement r)
  end.

Definition string_of_Z (n : Z) : string := NilZero.string_of_int (Z.to_int n).

(** ToPrimitive throws a TypeError on its argument.  An own property
    [toString] of a decoded object hides [Object.prototype.toString] and
    is not callable, and [Object.prototype.valueOf] returns the object
    itself, so neither method yields a primitive, whatever the hint.  The
    [toString] of an array joins the texts of its elements, [undefined]
    and [null] apart. *)
Fixpoint ToPrimitive_raises (v : JSValue) : bool :=
  match v with
  | JArr items => existsb ToPrimitive_raises items
  | JObj props =>
      match assoc_last "toString" props with
      | Some _ => true
      | None => false
      end
  | _ => false
  end.

(** The text [String(v)] returns, for a [v] on which it returns. *)
Fixpoint ToString (v : JSValue) : string :=
  match v with
  | JUndefined => "undefined"
  | JNull => "null"
  | JBool true => "true"
  | JBool false => "false"
  | JNum n => string_of_Z n
  | JStr s => s
  | JArr items =>
      join_with ","
        (List.map (fun x => match x with
                            | JUndefined | JNull => EmptyString
                            | _ => ToString x
                            end) items)
  | JObj _ => "[object Object]"
  end.

(** [String(v)], and every other conversion of a value to text: a
    template literal, the argument of [Error] and of
    [localStorage.setItem], the text assigned to [innerHTML]. *)
Definition String_ (v : JSValue) : completion string :=
  if ToPrimitive_raises v then Throw TypeError else Normal (ToString v).

(** ** String.prototype.toLowerCase and String.prototype.trim *)

Definition is_upper (c : ascii) : bool :=
  let n := N_of_ascii c in
  ((65 <=? n) && (n <=? 90) || (192 <=? n) && (n <=? 222) && negb (n =? 215))%N.

Definition lower_char (c : ascii) : ascii :=
  if is_upper c then ascii_of_N (N_of_ascii c + 32) else c.

Fixpoint toLowerCase (s : string) : string :=
  match s with
  | EmptyString => EmptyString
  | String c r => String (lower_char c) (toLowerCase r)
  end.

(** WhiteSpace and LineTerminator code units: TAB, LF, VT, FF, CR, SP, NBSP. *)
Definition is_space (c : ascii) : bool :=
  let n := N_of_ascii c in
  ((9 <=? n) && (n <=? 13) || (n =? 32) || (n =? 160))%N.

Fixpoint trimStart (s : string) : string :=
  match s with
  | EmptyString => EmptyString
  | String c r => if is_space c then trimStart r else s
  end.

Fixpoint trimEnd (s : string) : string :=
  match s with
  | EmptyString => EmptyString
  | String c r =>
      match trimEnd r with
      | EmptyString => if is_space c then EmptyString else String c EmptyString
      | r' => String c r'
      end
  end.

Definition trim (s : string) : string := trimEnd (trimStart s).

(** ** JSON.parse

    A recursive-descent reader of the JSON grammar.  [POut] marks text that
    leaves the modelled value space: a number with a fraction, an exponent
    or more than fifteen digits, or a [\u] escape above U+00FF. *)

Inductive presult (A : Type) : Type :=
  | POk (a : A) (rest : string)
  | PErr
  | POut.

Arguments POk {A} a rest.
Arguments PErr {A}.
Arguments POut {A}.

Definition pmap {A B} (f : A -> B) (r : presult A) : presult B :=
  match r with
  | POk a rest => POk (f a) rest
  | PErr => PErr
  | POut => POut
  end.

Definition json_ws (c : ascii) : bool :=
  let n := N_of_ascii c in ((n =? 32) || (n =? 9) || (n =? 10) || (n =? 13))%N.

Fixpoint skip_ws (s : string) : string :=
  match s with
  | EmptyString => EmptyString
  | String c r => if json_ws c then skip_ws r else s
  end.

Fixpoint strip_prefix (p s : string) : option string :=
  match p, s with
  | EmptyString, _ => Some s
  | String a p', String b s' => if Ascii.eqb a b then strip_prefix p' s' else None
  | String _ _, EmptyString => None
  end.

Definition hex_digit (c : ascii) : option N :=
  let n := N_of_ascii c in
  if ((48 <=? n) && (n <=? 57))%N then Some (n - 48)%N
  else if ((65 <=? n) && (n <=? 70))%N then Some (n - 55)%N
  else if ((97 <=? n) && (n <=? 102))%N then Some (n - 87)%N
  else None.

Definition simple_escape (c : ascii) : option ascii :=
  match N_of_ascii c with
  | 34%N => Some c
  | 92%N => Some c
  | 47%N => Some c
  | 98%N => Some (ascii_of_N 8)
  | 102%N => Some (ascii_of_N 12)
  | 110%N => Some (ascii_of_N 10)
  | 114%N => Some (ascii_of_N 13)
  | 116%N => Some (ascii_of_N 9)
  | _ => None
  end.

(** The characters of a string literal, after its opening quote. *)
Fixpoint parse_chars (s : string) : presult string :=
  match s with
  | EmptyString => PErr
  | String c r =>
      if (N_of_ascii c =? 34)%N then POk EmptyString r
      else if (N_of_ascii c =? 92)%N then
        match r with
        | EmptyString => PErr
        | String e r1 =>
            match simple_escape e with
            | Some ch => pmap (String ch) (parse_chars r1)
            | None =>
                if (N_of_ascii e =? 117)%N then
                  match r1 with
                  | String h1 (String h2 (String h3 (String h4 r2))) =>
                      match hex_digit h1, hex_digit h2, hex_digit h3, hex_digit h4 with
                      | Some a, Some b, Some c', Some d =>
                          if ((a =? 0) && (b =? 0))%N
                          then pmap (String (ascii_of_N (16 * c' + d))) (parse_chars r2)
                          else POut
                      | _, _, _, _ => PErr
                      end
                  | _ => PErr
                  end
                else PErr
            end
        end
      else if (N_of_ascii c <? 32)%N then PErr
      else pmap (String c) (parse_chars r)
  end.

Definition is_digit (c : ascii) : bool :=
  let n := N_of_ascii c in ((48 <=? n) && (n <=? 57))%N.

(** Reads a run of digits; returns its value, its length and the rest. *)
Fixpoint read_digits (s : string) (acc : Z) (len : nat) : Z * nat * string :=
  match s with
  | EmptyString => (acc, len, s)
  | String c r =>
      if is_digit c
      then read_digits r (10 * acc + Z.of_N (N_of_ascii c - 48))%Z (S len)
      else (acc, len, s)
  end.

Definition starts_fraction_or_exponent (s : string) : bool :=
  match s with
  | String c _ =>
      let n := N_of_ascii c in ((n =? 46) || (n =? 101) || (n =? 69))%N
  | EmptyString => false
  end.

(** An unsigned number: [0] or a run of digits without a leading zero. *)
Definition parse_unsigned (s : string) : presult Z :=
  match s with
  | String c r =>
      if (N_of_ascii c =? 48)%N then
        if starts_fraction_or_exponent r then POut else POk 0%Z r
      else if is_digit c then
        let '(v, len, rest) := read_digits s 0%Z 0%nat in
        if starts_fraction_or_exponent rest then POut
        else if (15 <? len)%nat then POut
        else POk v rest
      else PErr
  | EmptyString => PErr
  end.

Definition parse_number (s : string) : presult JSValue :=
  match s with
  | String c r =>
      if (N_of_ascii c =? 45)%N
      then pmap (fun v => JNum (- v)%Z) (parse_unsigned r)
      else pmap JNum (parse_unsigned s)
  | EmptyString => PErr
  end.

Definition literal (word : string) (v : JSValue) (s : string) : presult JSValue :=
  match strip_prefix word s with
  | Some rest => POk v rest
  | None => PErr
  end.

Fixpoint parse_value (fuel : nat) (s : string) : presult JSValue :=
  match fuel with
  | O => POut
  | S f =>
      match skip_ws s with
      | EmptyString => PErr
      | String c r as s' =>
          match N_of_ascii c with
          | 110%N => literal "null" JNull s'
          | 116%N => literal "true" (JBool true) s'
          | 102%N => literal "false" (JBool false) s'
          | 34%N => pmap JStr (parse_chars r)
          | 91%N =>
              match skip_ws r with
              | String c1 r1 =>
                  if (N_of_ascii c1 =? 93)%N then POk (JArr []) r1
                  else pmap JArr (parse_elems f r)
              | EmptyString => PErr
              end
          | 123%N =>
              match skip_ws r with
              | String c1 r1 =>
                  if (N_of_ascii c1 =? 125)%N then POk (JObj []) r1
                  else pmap JObj (parse_members f r)
              | EmptyString => PErr
              end
          | _ => parse_number s'
          end
      end
  end
with parse_elems (fuel : nat) (s : string) : presult (list JSValue) :=
  match fuel with
  | O => POut
  | S f =>
      match parse_value f s with
      | POk v r =>
          match skip_ws r with
          | String c r1 =>
              if (N_of_ascii c =? 44)%N then pmap (cons v) (parse_elems f r1)
              else if (N_of_ascii c =? 93)%N then POk [v] r1
              else PErr
          | EmptyString => PErr
          end
      | PErr => PErr
      | POut => POut
      end
  end
with parse_members (fuel : nat) (s : string) : presult (list (string * JSValue)) :=
  match fuel with
  | O => POut
  | S f =>
      match skip_ws s with
      | String q r =>
          if (N_of_ascii q =? 34)%N then
            match parse_chars r with
            | POk k r1 =>
                match skip_ws r1 with
                | String c r2 =>
                    if (N_of_ascii c =? 58)%N then
                      match parse_value f r2 with
                      | POk v r3 =>
                          match skip_ws r3 with
                          | String d r4 =>
                              if (N_of_ascii d =? 44)%N
                              then pmap (cons (k, v)) (parse_members f r4)
                              else if (N_of_ascii d =? 125)%N then POk [(k, v)] r4
                              else PErr
                          | EmptyString => PErr
                          end
                      | PErr => PErr
                      | POut => POut
                      end
                    else PErr
                | EmptyString => PErr
                end
            | PErr => PErr
            | POut => POut
            end
          else PErr
      | EmptyString => PErr
      end
  end.

(** [Some c]: the completion of [JSON.parse(text)]; [None]: the text is
    outside the modelled value space. *)
Definition JSON_parse_text (text : string) : option (completion JSValue) :=
  match parse_value (2 * String.length text + 2) text with
  | POk v rest =>
      match skip_ws rest with
      | EmptyString => Some (Normal v)
      | String _ _ => Some (Throw SyntaxError)
      end
  | PErr => Some (Throw SyntaxError)
  | POut => None
  end.

(** [JSON.parse] as the modules call it.  The development is parametric
    in it; the instance below is the reader above, with the texts outside
    the modelled value space rejected. *)
Class JSON : Type := { JSON_parse : string -> completion JSValue }.

#[export] Instance JSON_reader : JSON :=
  {| JSON_parse := fun text =>
       match JSON_parse_text text with
       | Some c => c
       | None => Throw SyntaxError
       end |}.

(** Texts that hold double quotes are written with ['] in their place. *)
Fixpoint dq (s : string) : string :=
  match s with
  | EmptyString => EmptyString
  | String c r => String (if (N_of_ascii c =? 39)%N then ascii_of_N 34 else c) (dq r)
  end.

(** ** A state and exception monad for the module code *)

Definition JS (S A : Type) : Type := S -> S * completion A.

Definition ret {S A} (a : A) : JS S A := fun s => (s, Normal a).

Definition throw {S A} (e : JSError) : JS S A := fun s => (s, Throw e).

Definition bind {S A B} (m : JS S A) (k : A -> JS S B) : JS S B :=
  fun s =>
    match m s with
    | (s', Normal a) => k a s'
    | (s', Throw e) => (s', Throw e)
    end.

(** [try { m } catch (e) { h e }] *)
Definition catch {S A} (m : JS S A) (h : JSError -> JS S A) : JS S A :=
  fun s =>
    match m s with
    | (s', Normal a) => (s', Normal a)
    | (s', Throw e) => h e s'
    end.

(** [try { m } finally { f }] *)
Definition finally {S A} (m : JS S A) (f : JS S unit) : JS S A :=
  fun s =>
    match m s with
    | (s', c) =>
        match f s' with
        | (s'', Normal _) => (s'', c)
        | (s'', Throw e) => (s'', Throw e)
        end
    end.

Definition gets {S A} (f : S -> A) : JS S A := fun s => (s, Normal (f s)).

Definition modify {S} (f : S -> S) : JS S unit := fun s => (f s, Normal tt).

Definition lift {S A} (c : completion A) : JS S A := fun s => (s, c).

Notation "'let*' x ':=' m 'in' k" := (bind m (fun x => k))
  (at level 10, x name, m at level 100, k at level 200).
Notation "m ';;' k" := (bind m (fun _ => k))
  (at level 100, k at level 200, right associativity).

(** ** app.js: the Timer component

    [setInterval] hands out fresh handles; [intervals] is the set of
    handles whose callback the browser still fires. *)

Record Scheduler : Type := {
  next_handle : positive;
  intervals : gset positive
}.

Definition setInterval (sch : Scheduler) : positive * Scheduler :=
  (next_handle sch,
   {| next_handle := next_handle sch + 1;
      intervals := {[ next_handle sch ]} ∪ intervals sch |}).

Definition clearInterval (h : positive) (sch : Scheduler) : Scheduler :=
  {| next_handle := next_handle sch; intervals := intervals sch ∖ {[ h ]} |}.

Inductive TimerClass : Type := ClsNone | ClsWarning | ClsDanger.

(** What a Timer method makes visible outside the object: the text and
    class written to its element, and the calls of its two callbacks. *)
Inductive Signal : Type :=
  | Display (seconds : Z) (cls : TimerClass)
  | OnTick (remaining : Z)
  | OnComplete.

Record Timer : Type := {
  element : bool;            (* the DOM element is present *)
  duration : Z;
  remaining : Z;
  onTick : bool;             (* a tick callback was supplied *)
  onComplete : bool;         (* a completion callback was supplied *)
  interval : option positive (* null, or the handle of setInterval *)
}.

(** [new Timer(element, duration, onTick, onComplete)] *)
Definition Timer_new (el : bool) (d : Z) (tick complete : bool) : Timer :=
  {| element := el; duration := d; remaining := d;
     onTick := tick; onComplete := complete; interval := None |}.

Definition set_interval (i : option positive) (t : Timer) : Timer :=
  {| element := element t; duration := duration t; remaining := remaining t;
     onTick := onTick t; onComplete := onComplete t; interval := i |}.

Definition set_remaining (r : Z) (t : Timer) : Timer :=
  {| element := element t; duration := duration t; remaining := r;
     onTick := onTick t; onComplete := onComplete t; interval := interval t |}.

Definition Timer_start (t : Timer) (sch : Scheduler) : Timer * Scheduler :=
  let '(h, sch') := setInterval sch in (set_interval (Some h) t, sch').

Definition Timer_stop (t : Timer) (sch : Scheduler) : Timer * Scheduler :=
  match interval t with
  | Some h => (set_interval None t, clearInterval h sch)
  | None => (t, sch)
  end.

Definition Timer_update (t : Timer) : list Signal :=
  if element t then
    [Display (remaining t)
       (if (remaining t <=? 5)%Z then ClsDanger
        else if (remaining t <=? 10)%Z then ClsWarning else ClsNone)]
  else [].

Definition Timer_reset (t : Timer) (sch : Scheduler) : Timer * Scheduler * list Signal :=
  let '(t1, sch1) := Timer_stop t sch in
  let t2 := set_remaining (duration t1) t1 in
  (t2, sch1, Timer_update t2).

(** The callback that [start] hands to [setInterval]. *)
Definition Timer_tick (t : Timer) (sch : Scheduler) : Timer * Scheduler * list Signal :=
  let t1 := set_remaining (remaining t - 1)%Z t in
  let shown := Timer_update t1 in
  let ticked := if onTick t1 then [OnTick (remaining t1)] else [] in
  if (remaining t1 <=? 0)%Z then
    let '(t2, sch2) := Timer_stop t1 sch in
    (t2, sch2, shown ++ ticked ++ (if onComplete t2 then [OnComplete] else []))%list
  else (t1, sch, shown ++ ticked)%list.

(** A Timer driven on its own: its methods called from outside and its
    interval callbacks fired by the browser. *)
Record TimerSys : Type := {
  tm : Timer;
  tsch : Scheduler;
  out : list Signal
}.

Inductive TimerOp : Type :=
  | OpStart
  | OpStop
  | OpReset
  | OpFire (h : positive).

Definition timer_step (op : TimerOp) (s : TimerSys) : option TimerSys :=
  match op with
  | OpStart =>
      let '(t, sch) := Timer_start (tm s) (tsch s) in
      Some {| tm := t; tsch := sch; out := out s |}
  | OpStop =>
      let '(t, sch) := Timer_stop (tm s) (tsch s) in
      Some {| tm := t; tsch := sch; out := out s |}
  | OpReset =>
      let '(t, sch, sig) := Timer_reset (tm s) (tsch s) in
      Some {| tm := t; tsch := sch; out := (out s ++ sig)%list |}
  | OpFire h =>
      if decide (h ∈ intervals (tsch s)) then
        let '(t, sch, sig) := Timer_tick (tm s) (tsch s) in
        Some {| tm := t; tsch := sch; out := (out s ++ sig)%list |}
      else None
  end.

Fixpoint timer_run (ops : list TimerOp) (s : TimerSys) : option TimerSys :=
  match ops with
  | [] => Some s
  | op :: rest =>
      match timer_step op s with
      | Some s' => timer_run rest s'
      | None => None
      end
  end.

Definition scheduler0 : Scheduler := {| next_handle := 1; intervals := ∅ |}.

Definition timer_fresh (d : Z) : TimerSys :=
  {| tm := Timer_new true d true true; tsch := scheduler0; out := [] |}.

Definition is_complete_signal (x : Signal) : bool :=
  match x with OnComplete => true | _ => false end.

Definition completions (s : TimerSys) : nat :=
  List.length (List.filter is_complete_signal (out s)).

Definition is_start (op : TimerOp) : bool :=
  match op with OpStart => true | _ => false end.

Definition starts (ops : list TimerOp) : nat :=
  List.length (List.filter is_start ops).

(** Every [start] of the run is called on a timer that is not counting. *)
Fixpoint starts_when_idle (ops : list TimerOp) (s : TimerSys) : Prop :=
  match ops with
  | [] => True
  | op :: rest =>
      (op = OpStart -> interval (tm s) = None) /\
      match timer_step op s with
      | Some s' => starts_when_idle rest s'
      | None => True
      end
  end.

(** ** lessons.js: the lesson page *)

(** A question object of the lesson payload; [q_options] is
    [question.options || []], an array of strings. *)
Record Question : Type := {
  q_id : JSValue;
  q_type : JSValue;
  q_question : JSValue;
  q_sentence : JSValue;
  q_correct_answer : JSValue;
  q_options : list string
}.

Record AnswerRecord : Type := {
  question_id : JSValue;
  user_answer : JSValue;
  time_taken_ms : Z;
  question_text : JSValue;
  correct_answer : JSValue;
  options : list string
}.

(** The object the lesson endpoints answer with; [questions] and
    [time_per_question] may be absent. *)
Record LessonPayload : Type := {
  lesson_id : JSValue;
  questions : option (list Question);
  time_per_question : option Z
}.

Inductive Effect : Type :=
  | LoadingShow
  | LoadingHide
  | ToastError (msg : string)
  | ConsoleError (e : JSError)
  | ShowEmptyState
  | ShowTimerElement
  | RenderQuestion (index total : nat)
  | SelectAnswer (answer : JSValue)
  | ShowResult (isCorrect : bool) (correctAnswer : JSValue)
  | FeedbackSound (correct : bool)
  | TimerSignal (s : Signal)
  | SubmitLesson (lessonId : JSValue) (records : list AnswerRecord) (totalTime : Z).

Record Page : Type := {
  (* the module variables *)
  currentLesson : option LessonPayload;
  currentQuestions : list Question;
  currentIndex : nat;
  answers : list AnswerRecord;
  startTime : Z;
  lessonTimer : option Timer;
  questionRenderer : bool;          (* null, or a QuestionRenderer *)
  currentLessonType : string;
  (* the document and the browser's queues *)
  has_container : bool;             (* #lesson-container exists *)
  has_timer_element : bool;         (* #timer exists *)
  shown_question : option nat;      (* the question whose option buttons are enabled *)
  timer_perQuestion : bool;         (* the flag the timer's onComplete closed over *)
  sched : Scheduler;
  pending_advances : nat;           (* setTimeout callbacks of handleAnswer not yet run *)
  log : list Effect
}.

Definition page0 (container timer_el : bool) : Page :=
  {| currentLesson := None; currentQuestions := []; currentIndex := 0;
     answers := []; startTime := 0; lessonTimer := None;
     questionRenderer := false; currentLessonType := EmptyString;
     has_container := container; has_timer_element := timer_el;
     shown_question := None; timer_perQuestion := false;
     sched := scheduler0; pending_advances := 0; log := [] |}.

Definition load_lesson (l : LessonPayload) (now : Z) (type : string) (p : Page) : Page :=
  {| currentLesson := Some l;
     currentQuestions := default [] (questions l);
     currentIndex := 0; answers := []; startTime := now;
     lessonTimer := lessonTimer p; questionRenderer := questionRenderer p;
     currentLessonType := type;
     has_container := has_container p; has_timer_element := has_timer_element p;
     shown_question := shown_question p; timer_perQuestion := timer_perQuestion p;
     sched := sched p; pending_advances := pending_advances p; log := log p |}.

Definition set_currentIndex (i : nat) (p : Page) : Page :=
  {| currentLesson := currentLesson p; currentQuestions := currentQuestions p;
     currentIndex := i; answers := answers p; startTime := startTime p;
     lessonTimer := lessonTimer p; questionRenderer := questionRenderer p;
     currentLessonType := currentLessonType p;
     has_container := has_container p; has_timer_element := has_timer_element p;
     shown_question := shown_question p; timer_perQuestion := timer_perQuestion p;
     sched := sched p; pending_advances := pending_advances p; log := log p |}.

Definition set_answers (a : list AnswerRecord) (p : Page) : Page :=
  {| currentLesson := currentLesson p; currentQuestions := currentQuestions p;
     currentIndex := currentIndex p; answers := a; startTime := startTime p;
     lessonTimer := lessonTimer p; questionRenderer := questionRenderer p;
     currentLessonType := currentLessonType p;
     has_container := has_container p; has_timer_element := has_timer_element p;
     shown_question := shown_question p; timer_perQuestion := timer_perQuestion p;
     sched := sched p; pending_advances := pending_advances p; log := log p |}.

(** The Timer object and the scheduler it registers with change together. *)
Definition set_timer (t : option Timer) (sch : Scheduler) (p : Page) : Page :=
  {| currentLesson := currentLesson p; currentQuestions := currentQuestions p;
     currentIndex := currentIndex p; answers := answers p; startTime := startTime p;
     lessonTimer := t; questionRenderer := questionRenderer p;
     currentLessonType := currentLessonType p;
     has_container := has_container p; has_timer_element := has_timer_element p;
     shown_question := shown_question p; timer_perQuestion := timer_perQuestion p;
     sched := sch; pending_advances := pending_advances p; log := log p |}.

Definition set_questionRenderer (r : bool) (p : Page) : Page :=
  {| currentLesson := currentLesson p; currentQuestions := currentQuestions p;
     currentIndex := currentIndex p; answers := answers p; startTime := startTime p;
     lessonTimer := lessonTimer p; questionRenderer := r;
     currentLessonType := currentLessonType p;
     has_container := has_container p; has_timer_element := has_timer_element p;
     shown_question := shown_question p; timer_perQuestion := timer_perQuestion p;
     sched := sched p; pending_advances := pending_advances p; log := log p |}.

Definition set_shown_question (q : option nat) (p : Page) : Page :=
  {| currentLesson := currentLesson p; currentQuestions := currentQuestions p;
     currentIndex := currentIndex p; answers := answers p; startTime := startTime p;
     lessonTimer := lessonTimer p; questionRenderer := questionRenderer p;
     currentLessonType := currentLessonType p;
     has_container := has_container p; has_timer_element := has_timer_element p;
     shown_question := q; timer_perQuestion := timer_perQuestion p;
     sched := sched p; pending_advances := pending_advances p; log := log p |}.

Definition set_timer_perQuestion (b : bool) (p : Page) : Page :=
  {| currentLesson := currentLesson p; currentQuestions := currentQuestions p;
     currentIndex := currentIndex p; answers := answers p; startTime := startTime p;
     lessonTimer := lessonTimer p; questionRenderer := questionRenderer p;
     currentLessonType := currentLessonType p;
     has_container := has_container p; has_timer_element := has_timer_element p;
     shown_question := shown_question p; timer_perQuestion := b;
     sched := sched p; pending_advances := pending_advances p; log := log p |}.

Definition set_pending_advances (n : nat) (p : Page) : Page :=
  {| currentLesson := currentLesson p; currentQuestions := currentQuestions p;
     currentIndex := currentIndex p; answers := answers p; startTime := startTime p;
     lessonTimer := lessonTimer p; questionRenderer := questionRenderer p;
     currentLessonType := currentLessonType p;
     has_container := has_container p; has_timer_element := has_timer_element p;
     shown_question := shown_question p; timer_perQuestion := timer_perQuestion p;
     sched := sched p; pending_advances := n; log := log p |}.

Definition set_log (l : list Effect) (p : Page) : Page :=
  {| currentLesson := currentLesson p; currentQuestions := currentQuestions p;
     currentIndex := currentIndex p; answers := answers p; startTime := startTime p;
     lessonTimer := lessonTimer p; questionRenderer := questionRenderer p;
     currentLessonType := currentLessonType p;
     has_container := has_container p; has_timer_element := has_timer_element p;
     shown_question := shown_question p; timer_perQuestion := timer_perQuestion p;
     sched := sched p; pending_advances := pending_advances p; log := l |}.

Definition emit (e : Effect) : JS Page unit :=
  modify (fun p => set_log (log p ++ [e])%list p).

Definition emit_signals (sig : list Signal) : JS Page unit :=
  modify (fun p => set_log (log p ++ List.map TimerSignal sig)%list p).

Definition is_sprint (type : string) : bool :=
  (type =? "grammar-sprint") || (type =? "word-sprint").

Section Lessons.
Context `{JSON}.

(** [handleAnswer], the decoding of the stored answer:
    [if (typeof correctAnswer === 'string') { try { correctAnswer =
    JSON.parse(correctAnswer); } catch { } }] *)
Definition parsed_correct_answer (correct_answer : JSValue) : completion JSValue :=
  match correct_answer with
  | JStr text => try_catch (JSON_parse text) (fun _ => Normal correct_answer)
  | _ => Normal correct_answer
  end.

(** [a.toLowerCase().trim() === c.toLowerCase().trim()] *)
Definition same_text (a c : string) : bool :=
  trim (toLowerCase a) =? trim (toLowerCase c).

(** [String(answer).toLowerCase().trim() === String(correctAnswer).toLowerCase().trim()];
    the two conversions are outside the [try] of the decoding. *)
Definition isCorrect (answer correctAnswer : JSValue) : completion bool :=
  bindc (String_ answer) (fun a =>
  bindc (String_ correctAnswer) (fun c =>
  Normal (same_text a c))).

(** The "Check if correct" step of [handleAnswer]: the verdict and the
    decoded answer handed to [showResult]. *)
Definition check_answer (answer : JSValue) (question : Question)
  : completion (bool * JSValue) :=
  bindc (parsed_correct_answer (q_correct_answer question)) (fun correctAnswer =>
  bindc (isCorrect answer correctAnswer) (fun verdict =>
  Normal (verdict, correctAnswer))).

(** [String(correctAnswer)] returns for the stored answer of the question,
    decoded as [handleAnswer] decodes it. *)
Definition checkable (question : Question) : bool :=
  match parsed_correct_answer (q_correct_answer question) with
  | Normal correctAnswer => negb (ToPrimitive_raises correctAnswer)
  | Throw _ => false
  end.

Definition stop_lessonTimer : JS Page unit :=
  modify (fun p =>
    match lessonTimer p with
    | Some t => let '(t', sch') := Timer_stop t (sched p) in set_timer (Some t') sch' p
    | None => p
    end).

(** [submitLesson], up to the request it sends: [SubmitLesson] is the
    call of [api.submitLesson], and what follows its [await] (the result
    screen, or the toast of the [catch], and [loading.hide]) is not part of
    this function.  Reading [lesson_id] off a null [currentLesson] lands in
    the [catch] at once. *)
Definition submitLesson (now : Z) : JS Page unit :=
  stop_lessonTimer ;;
  let* p := gets id in
  let totalTime := ((now - startTime p) / 1000)%Z in
  emit LoadingShow ;;
  match currentLesson p with
  | None =>
      emit (ToastError "Failed to submit lesson") ;;
      emit (ConsoleError TypeError) ;;
      emit LoadingHide
  | Some l =>
      emit (SubmitLesson (js_or (lesson_id l) (JNum 0)) (answers p) totalTime)
  end.

(** [QuestionRenderer.formatQuestion(question)], as the text the
    template literal of [render] makes of it. *)
Definition formatQuestion (question : Question) : completion string :=
  if strictly_equals (q_type question) "gap_fill" then
    match q_sentence question with
    | JStr sentence =>
        Normal (replace_first "___" (dq "<span class='blank'></span>") sentence)
    | _ => Throw TypeError
    end
  else String_ (q_question question).

(** [renderCurrentQuestion]; [render] builds the markup before it
    assigns it to the container, so a question whose text cannot be made
    leaves the page as it is. *)
Definition renderCurrentQuestion (now : Z) : JS Page unit :=
  let* p := gets id in
  if (List.length (currentQuestions p) <=? currentIndex p)%nat then submitLesson now
  else if questionRenderer p then
    match nth_error (currentQuestions p) (currentIndex p) with
    | Some question =>
        lift (formatQuestion question) ;;
        emit (RenderQuestion (currentIndex p) (List.length (currentQuestions p))) ;;
        modify (set_shown_question (Some (currentIndex p)))
    | None => throw TypeError
    end
  else throw TypeError.

(** [window.handleAnswer]; [playFeedbackSound] is taken to return (the
    browser provides the Web Audio interface). *)
Definition handleAnswer (now : Z) (answer : JSValue) : JS Page unit :=
  let* p := gets id in
  match nth_error (currentQuestions p) (currentIndex p) with
  | None => ret tt
  | Some question =>
      (if questionRenderer p then emit (SelectAnswer answer) else throw TypeError) ;;
      modify (fun p =>
        set_answers
          (answers p ++
           [{| question_id := q_id question;
               user_answer := answer;
               time_taken_ms := now - startTime p;
               question_text :=
                 js_or (js_or (q_question question) (q_sentence question))
                       (JStr EmptyString);
               correct_answer := q_correct_answer question;
               options := q_options question |}])%list p) ;;
      let* verdict := lift (check_answer answer question) in
      emit (ShowResult (fst verdict) (snd verdict)) ;;
      modify (set_shown_question None) ;;
      emit (FeedbackSound (fst verdict)) ;;
      modify (fun p => set_pending_advances (S (pending_advances p)) p)
  end.

(** The callback [handleAnswer] queues with [setTimeout(..., 1000)]. *)
Definition advance (now : Z) : JS Page unit :=
  modify (fun p => set_currentIndex (S (currentIndex p)) p) ;;
  let* p := gets id in
  match lessonTimer p with
  | Some t =>
      if is_sprint (currentLessonType p) then
        let '(t1, sch1, sig) := Timer_reset t (sched p) in
        let '(t2, sch2) := Timer_start t1 sch1 in
        modify (set_timer (Some t2) sch2) ;;
        emit_signals sig
      else ret tt
  | None => ret tt
  end ;;
  renderCurrentQuestion now.

Definition setupTimer (d : Z) (perQuestion : bool) : JS Page unit :=
  let* p := gets id in
  if has_timer_element p then
    emit ShowTimerElement ;;
    let '(t, sch) := Timer_start (Timer_new true d false true) (sched p) in
    modify (set_timer_perQuestion perQuestion) ;;
    modify (set_timer (Some t) sch)
  else ret tt.

(** The [onComplete] closure of [setupTimer]. *)
Definition onComplete_lesson (now : Z) : JS Page unit :=
  let* p := gets id in
  if timer_perQuestion p then handleAnswer now JNull else submitLesson now.

(** The interval callback of the lesson timer. *)
Definition timer_fire (now : Z) : JS Page unit :=
  let* p := gets id in
  match lessonTimer p with
  | None => ret tt
  | Some t =>
      let '(t', sch', sig) := Timer_tick t (sched p) in
      modify (set_timer (Some t') sch') ;;
      emit_signals (List.filter (fun x => negb (is_complete_signal x)) sig) ;;
      if existsb is_complete_signal sig then onComplete_lesson now else ret tt
  end.

(** [initLesson(type)]; [response] is what the awaited call of the API
    client settles to, a lesson object or a rejection.  What the client
    does on the way (its own [console.error], and on a 401 the removal of
    the credentials and the redirection) is in [request] and not in the
    [log] of the page. *)
Definition initLesson (type : string) (now : Z) (response : completion LessonPayload)
  : JS Page unit :=
  let* p := gets id in
  if has_container p then
    emit LoadingShow ;;
    finally
      (catch
         (let* l := lift response in
          modify (load_lesson l now type) ;;
          let* p := gets id in
          match currentQuestions p with
          | [] => emit ShowEmptyState
          | _ :: _ =>
              modify (set_questionRenderer true) ;;
              (if is_sprint type
               then setupTimer (match time_per_question l with
                                | Some d => if (d =? 0)%Z then 20%Z else d
                                | None => 20%Z
                                end) true
               else ret tt) ;;
              renderCurrentQuestion now
          end)
         (fun e => emit (ToastError "Failed to load lesson") ;; emit (ConsoleError e)))
      (emit LoadingHide)
  else ret tt.

(** [renderOptions] writes each option three times into the markup of
    its button: as the label, as the [data-answer] attribute, and as the
    string literal [window.handleAnswer('...')] inside the double-quoted
    [onclick] attribute, with a backslash put before each single quote and
    nothing else escaped.  A character arrives at [handleAnswer] as it is
    unless the HTML parser or the string literal reads it otherwise: NUL,
    LF, CR, the double quote, the ampersand, the less-than sign and the
    backslash. *)
Definition plain_char (c : ascii) : bool :=
  let n := N_of_ascii c in
  negb ((n =? 0) || (n =? 10) || (n =? 13) || (n =? 34) || (n =? 38)
        || (n =? 60) || (n =? 92))%N.

Definition plain_text (s : string) : bool :=
  forallb plain_char (list_ascii_of_string s).

(** Text that the HTML parser reads as text: it opens no tag. *)
Definition inert_text (s : string) : bool :=
  forallb (fun c => negb (N_of_ascii c =? 60)%N) (list_ascii_of_string s).

(** The markup [render] writes for the question holds one button for each
    option, which hands this option to [handleAnswer], and nothing else
    that can be clicked. *)
Definition plain_markup (q : Question) : bool :=
  forallb plain_text (q_options q)
  && inert_text (if strictly_equals (q_type q) "gap_fill"
                 then ToString (q_sentence q) else ToString (q_question q)).

(** A question that [render] can show, in plain markup, and whose stored
    answer [handleAnswer] can check. *)
Definition well_formed (q : Question) : bool :=
  match formatQuestion q with
  | Normal _ => plain_markup q && checkable q
  | Throw _ => false
  end.

(** The tasks the browser runs on the page after [initLesson]. *)
Inductive Event : Type :=
  | Click (now : Z) (answer : string)   (* an enabled option button is clicked *)
  | Fire (now : Z) (h : positive)       (* the interval with handle [h] fires *)
  | Advance (now : Z).                  (* a timeout queued by handleAnswer fires *)

(** A click needs an enabled button of the question on display, a firing
    an interval that was not cleared, an advance a queued timeout.  Where
    the markup of the question is not plain, a click may hand any string
    to [handleAnswer]; markup that runs script of its own is not covered. *)
Definition enabled (ev : Event) (p : Page) : bool :=
  match ev with
  | Click _ a =>
      match shown_question p with
      | Some i =>
          match nth_error (currentQuestions p) i with
          | Some q => if plain_markup q then bool_decide (a ∈ q_options q) else true
          | None => false
          end
      | None => false
      end
  | Fire _ h => bool_decide (h ∈ intervals (sched p))
  | Advance _ => (0 <? pending_advances p)%nat
  end.

Definition handler (ev : Event) : JS Page unit :=
  match ev with
  | Click now a => handleAnswer now (JStr a)
  | Fire now _ => timer_fire now
  | Advance now =>
      modify (fun p => set_pending_advances (pred (pending_advances p)) p) ;;
      advance now
  end.

(** One task.  An exception that escapes the task ends it, and the page
    keeps the state the task had reached.  The order and the times of the
    tasks are not constrained further, so every run the browser can produce
    is among the runs of [step]. *)
Definition step (ev : Event) (p : Page) : option Page :=
  if enabled ev p then Some (fst (handler ev p)) else None.

Fixpoint run (evs : list Event) (p : Page) : option Page :=
  match evs with
  | [] => Some p
  | ev :: rest =>
      match step ev p with
      | Some p' => run rest p'
      | None => None
      end
  end.

(** The pages a lesson can reach: [initLesson] once on a fresh document,
    then any sequence of enabled tasks. *)
Definition opened (container timer_el : bool) (type : string) (now : Z)
    (response : completion LessonPayload) : Page :=
  fst (initLesson type now response (page0 container timer_el)).

(** The questions of the lesson that arrives, none when the request fails. *)
Definition questions_of (response : completion LessonPayload) : list Question :=
  match response with
  | Normal lesson => default [] (questions lesson)
  | Throw _ => []
  end.


End Lessons.

(** ** api.js: the API client *)

Record Response : Type := {
  status : Z;
  body : string
}.

(** What [fetch] settles to: a rejection (the network failed) or a
    response of any status. *)
Inductive FetchResult : Type :=
  | NetworkError
  | Responded (r : Response).

(** [response.ok] *)
Definition ok (r : Response) : bool := ((200 <=? status r) && (status r <=? 299))%Z.

Record Browser : Type := {
  localStorage : gmap string string;
  location_href : string;
  console_errors : list JSError
}.

Definition login_page : string := "/lingualearn/frontend/pages/login.html".

Definition set_localStorage (m : gmap string string) (b : Browser) : Browser :=
  {| localStorage := m; location_href := location_href b;
     console_errors := console_errors b |}.

Definition set_location_href (u : string) (b : Browser) : Browser :=
  {| localStorage := localStorage b; location_href := u;
     console_errors := console_errors b |}.

Definition console_error (e : JSError) : JS Browser unit :=
  modify (fun b => {| localStorage := localStorage b; location_href := location_href b;
                       console_errors := (console_errors b ++ [e])%list |}).

Definition getToken (b : Browser) : option string := localStorage b !! "token".

Definition setToken (token : string) : JS Browser unit :=
  modify (fun b => set_localStorage (<["token" := token]> (localStorage b)) b).

Definition clearToken : JS Browser unit :=
  modify (fun b => set_localStorage (delete "user" (delete "token" (localStorage b))) b).

(** [!!this.getToken()] *)
Definition isAuthenticated (b : Browser) : bool :=
  match getToken b with
  | Some t => negb (t =? EmptyString)
  | None => false
  end.

Section ApiClient.
Context `{JSON}.

(** [request(endpoint, options)]; [fetched] is what the awaited [fetch]
    settles to. *)
Definition request (fetched : FetchResult) : JS Browser JSValue :=
  catch
    (match fetched with
     | NetworkError => throw TypeError
     | Responded response =>
         if (status response =? 401)%Z then
           clearToken ;;
           modify (set_location_href login_page) ;;
           throw (ErrorMsg "Unauthorized")
         else
           let* data := lift (JSON_parse (body response)) in
           if negb (ok response) then
             let* detail := lift (get_prop data "detail") in
             let* message := lift (String_ (js_or detail (JStr "Request failed"))) in
             throw (ErrorMsg message)
           else ret data
     end)
    (fun error => console_error error ;; throw error).

(** [fetch(...).then(r => r.json())], the form the speaking endpoints use. *)
Definition fetch_json (fetched : FetchResult) : completion JSValue :=
  match fetched with
  | NetworkError => Throw TypeError
  | Responded response => JSON_parse (body response)
  end.

End ApiClient.

(** ** speaking.js: roleplay and free talk *)

(** *** The comparison [v > 0]

    The value is converted to a number; a text is read as a
    StringNumericLiteral, and an array or an object through its text. *)

Definition all_digits (allowed : ascii -> bool) (s : string) : bool :=
  negb (s =? EmptyString) && forallb allowed (list_ascii_of_string s).

Definition some_nonzero_digit (s : string) : bool :=
  existsb (fun c => negb (N_of_ascii c =? 48)%N) (list_ascii_of_string s).

Definition is_hex_digit (c : ascii) : bool :=
  match hex_digit c with Some _ => true | None => false end.

Definition is_octal_digit (c : ascii) : bool :=
  let n := N_of_ascii c in ((48 <=? n) && (n <=? 55))%N.

Definition is_binary_digit (c : ascii) : bool :=
  let n := N_of_ascii c in ((n =? 48) || (n =? 49))%N.

(** The ExponentPart that ends a decimal literal: nothing, or [e] or [E],
    a sign or none, and digits. *)
Definition read_exponent (s : string) : option Z :=
  match s with
  | EmptyString => Some 0%Z
  | String c r =>
      if ((N_of_ascii c =? 101) || (N_of_ascii c =? 69))%N then
        let '(negative, r1) :=
          match r with
          | String d r' =>
              if (N_of_ascii d =? 45)%N then (true, r')
              else if (N_of_ascii d =? 43)%N then (false, r')
              else (false, r)
          | EmptyString => (false, r)
          end in
        let '(v, len, rest) := read_digits r1 0%Z 0%nat in
        if (len =? 0)%nat || negb (rest =? EmptyString) then None
        else Some (if negative then - v else v)%Z
      else None
  end.

(** The StrUnsignedDecimalLiteral [u], digits with an optional fraction and
    exponent, denotes a number that rounds to a double above zero: its
    mantissa [m] times ten to the [k] exceeds 2^-1075, half the least
    positive double. *)
Definition decimal_positive (u : string) : bool :=
  let '(whole, whole_len, r1) := read_digits u 0%Z 0%nat in
  let '(m, fraction_len, r2) :=
    match r1 with
    | String c r => if (N_of_ascii c =? 46)%N then read_digits r whole 0%nat
                    else (whole, 0%nat, r1)
    | EmptyString => (whole, 0%nat, r1)
    end in
  if (whole_len =? 0)%nat && (fraction_len =? 0)%nat then false
  else
    match read_exponent r2 with
    | Some e =>
        let k := (e - Z.of_nat fraction_len)%Z in
        ((0 <? m) && ((0 <=? k) || (10 ^ (- k) <? m * 2 ^ 1075)))%Z
    | None => false
    end.

Definition unsigned_positive (u : string) : bool :=
  (u =? "Infinity") || decimal_positive u.

(** [StringToNumber(s) > 0] *)
Definition StringToNumber_positive (s : string) : bool :=
  let t := trim s in
  let signed :=
    match t with
    | String c r =>
        if (N_of_ascii c =? 45)%N then false
        else if (N_of_ascii c =? 43)%N then unsigned_positive r
        else unsigned_positive t
    | EmptyString => false
    end in
  match t with
  | String c0 (String c1 r) =>
      if (N_of_ascii c0 =? 48)%N then
        let n := N_of_ascii c1 in
        if ((n =? 120) || (n =? 88))%N then all_digits is_hex_digit r && some_nonzero_digit r
        else if ((n =? 111) || (n =? 79))%N then all_digits is_octal_digit r && some_nonzero_digit r
        else if ((n =? 98) || (n =? 66))%N then all_digits is_binary_digit r && some_nonzero_digit r
        else signed
      else signed
  | _ => signed
  end.

(** [v > 0] *)
Definition greater_than_zero (v : JSValue) : completion bool :=
  match v with
  | JUndefined | JNull => Normal false
  | JBool b => Normal b
  | JNum n => Normal (0 <? n)%Z
  | JStr s => Normal (StringToNumber_positive s)
  | JArr _ | JObj _ => bindc (String_ v) (fun s => Normal (StringToNumber_positive s))
  end.

(** *** The conversation page *)

Record Message : Type := {
  text : JSValue;
  isAi : bool
}.

(** What the page shows.  A number on display is recorded by the values
    it is computed from: [FeedbackScores f g v] is the three circles
    [Math.round(f)], [Math.round(g)] and [Math.round(v)], [SessionAvg f g v]
    the text [Avg: ] and [Math.round((f + g + v) / 3)], and
    [SessionComplete f g v xp] the result screen with the same average, the
    same three circles and the XP.  The arithmetic, which is that of
    double-precision numbers (and of texts, where [+] meets one), is not
    evaluated here. *)
Inductive TalkEffect : Type :=
  | TLoadingShow
  | TLoadingHide
  | ToastWarning (msg : string)
  | TToastError (msg : string)
  | Bubble (m : Message)
  | FeedbackScores (fluency grammar vocabulary : JSValue)
  | FeedbackText (feedback : JSValue) (corrections : list JSValue)
  | HintText (hint : JSValue)
  | MessageCount (n : JSValue)
  | SessionAvg (fluency grammar vocabulary : JSValue)
  | SessionComplete (fluency grammar vocabulary : JSValue) (xp : JSValue).

(** A callback queued with [setTimeout(..., 500)], with the result it
    closed over. *)
Inductive Queued : Type :=
  | RoleplayReply (result : JSValue)
  | FreeTalkReply (result : JSValue).

Record Talk : Type := {
  currentSession : JSValue;
  freeTalkSession : JSValue;
  conversationHistory : list Message;
  (* the document and the timeout queue *)
  input_value : string;               (* #text-input *)
  has_chat_container : bool;
  current_turn : option JSValue;      (* value last assigned to the text of
                                         #current-turn, when it exists *)
  has_hint_text : bool;
  has_feedback_panel : bool;
  has_score_display : bool;
  has_feedback_text : bool;
  has_message_count : bool;
  has_session_avg : bool;
  has_result_container : bool;        (* #roleplay-container or #scenarios-container *)
  queued : list Queued;               (* timeouts whose AI bubble is still to come *)
  screen : list TalkEffect
}.

Definition set_conversationHistory (h : list Message) (t : Talk) : Talk :=
  {| currentSession := currentSession t; freeTalkSession := freeTalkSession t;
     conversationHistory := h; input_value := input_value t;
     has_chat_container := has_chat_container t; current_turn := current_turn t;
     has_hint_text := has_hint_text t;
     has_feedback_panel := has_feedback_panel t;
     has_score_display := has_score_display t;
     has_feedback_text := has_feedback_text t;
     has_message_count := has_message_count t;
     has_session_avg := has_session_avg t;
     has_result_container := has_result_container t;
     queued := queued t; screen := screen t |}.

Definition set_input_value (v : string) (t : Talk) : Talk :=
  {| currentSession := currentSession t; freeTalkSession := freeTalkSession t;
     conversationHistory := conversationHistory t; input_value := v;
     has_chat_container := has_chat_container t; current_turn := current_turn t;
     has_hint_text := has_hint_text t;
     has_feedback_panel := has_feedback_panel t;
     has_score_display := has_score_display t;
     has_feedback_text := has_feedback_text t;
     has_message_count := has_message_count t;
     has_session_avg := has_session_avg t;
     has_result_container := has_result_container t;
     queued := queued t; screen := screen t |}.

Definition set_current_turn (v : option JSValue) (t : Talk) : Talk :=
  {| currentSession := currentSession t; freeTalkSession := freeTalkSession t;
     conversationHistory := conversationHistory t; input_value := input_value t;
     has_chat_container := has_chat_container t; current_turn := v;
     has_hint_text := has_hint_text t;
     has_feedback_panel := has_feedback_panel t;
     has_score_display := has_score_display t;
     has_feedback_text := has_feedback_text t;
     has_message_count := has_message_count t;
     has_session_avg := has_session_avg t;
     has_result_container := has_result_container t;
     queued := queued t; screen := screen t |}.

Definition set_queued (q : list Queued) (t : Talk) : Talk :=
  {| currentSession := currentSession t; freeTalkSession := freeTalkSession t;
     conversationHistory := conversationHistory t; input_value := input_value t;
     has_chat_container := has_chat_container t; current_turn := current_turn t;
     has_hint_text := has_hint_text t;
     has_feedback_panel := has_feedback_panel t;
     has_score_display := has_score_display t;
     has_feedback_text := has_feedback_text t;
     has_message_count := has_message_count t;
     has_session_avg := has_session_avg t;
     has_result_container := has_result_container t;
     queued := q; screen := screen t |}.

Definition set_screen (s : list TalkEffect) (t : Talk) : Talk :=
  {| currentSession := currentSession t; freeTalkSession := freeTalkSession t;
     conversationHistory := conversationHistory t; input_value := input_value t;
     has_chat_container := has_chat_container t; current_turn := current_turn t;
     has_hint_text := has_hint_text t;
     has_feedback_panel := has_feedback_panel t;
     has_score_display := has_score_display t;
     has_feedback_text := has_feedback_text t;
     has_message_count := has_message_count t;
     has_session_avg := has_session_avg t;
     has_result_container := has_result_container t;
     queued := queued t; screen := s |}.

(** The result screen replaces the conversation interface, which
    [showConversationUI] wrote into the same container. *)
Definition replace_interface (t : Talk) : Talk :=
  {| currentSession := currentSession t; freeTalkSession := freeTalkSession t;
     conversationHistory := conversationHistory t; input_value := input_value t;
     has_chat_container := false; current_turn := None;
     has_hint_text := false;
     has_feedback_panel := false;
     has_score_display := false;
     has_feedback_text := false;
     has_message_count := has_message_count t;
     has_session_avg := has_session_avg t;
     has_result_container := has_result_container t;
     queued := queued t; screen := screen t |}.

Definition show (e : TalkEffect) : JS Talk unit :=
  modify (fun t => set_screen (screen t ++ [e])%list t).

(** The conversion of a value to a text or to a number, for the exception
    it may throw: in a template literal, in an assignment to [textContent]
    or [innerHTML], as an operand of [+] and as the argument of
    [Math.round]. *)
Definition ToPrimitive (v : JSValue) : JS Talk unit :=
  if ToPrimitive_raises v then throw TypeError else ret tt.

(** An access to a property of the element, which is [null] when the page
    has no element of that id. *)
Definition on_element (present : bool) : JS Talk unit :=
  if present then ret tt else throw TypeError.

Definition addMessage (txt : JSValue) (ai : bool) : JS Talk unit :=
  let m := {| text := txt; isAi := ai |} in
  modify (fun t => set_conversationHistory (conversationHistory t ++ [m])%list t) ;;
  let* t := gets id in
  if has_chat_container t then ToPrimitive txt ;; show (Bubble m) else ret tt.

(** [analysis.corrections && analysis.corrections.length > 0], and the
    [join] that follows: the corrections to list, none for a value that
    has no positive length, and a TypeError where [join] is no function or
    an element has no text. *)
Definition listed_corrections (corrections : JSValue) : completion (list JSValue) :=
  match corrections with
  | JArr items => if ToPrimitive_raises corrections then Throw TypeError else Normal items
  | JStr (String _ _) => Throw TypeError
  | JObj props =>
      bindc (greater_than_zero (default JUndefined (assoc_last "length" props)))
            (fun positive => if positive then Throw TypeError else Normal [])
  | _ => Normal []
  end.

Definition showFeedback (analysis : JSValue) : JS Talk unit :=
  let* t := gets id in
  if has_feedback_panel t then
    let* f := lift (get_prop analysis "fluency_score") in
    let* g := lift (get_prop analysis "grammar_score") in
    let* v := lift (get_prop analysis "vocabulary_score") in
    ToPrimitive f ;; ToPrimitive g ;; ToPrimitive v ;;
    on_element (has_score_display t) ;;
    show (FeedbackScores f g v) ;;
    let* feedback := lift (get_prop analysis "feedback") in
    ToPrimitive (js_or feedback (JStr EmptyString)) ;;
    on_element (has_feedback_text t) ;;
    let* corrections := lift (get_prop analysis "corrections") in
    catch
      (let* listed := lift (listed_corrections corrections) in
       show (FeedbackText (js_or feedback (JStr EmptyString)) listed))
      (fun e =>
         show (FeedbackText (js_or feedback (JStr EmptyString)) []) ;; throw e)
  else ret tt.

Definition showSessionComplete (result : JSValue) : JS Talk unit :=
  let* t := gets id in
  let* analysis := lift (get_prop result "analysis") in
  let* f := lift (get_prop analysis "fluency_score") in
  let* g := lift (get_prop analysis "grammar_score") in
  let* v := lift (get_prop analysis "vocabulary_score") in
  ToPrimitive f ;; ToPrimitive g ;; ToPrimitive v ;;
  let* xp := lift (get_prop result "xp_earned") in
  ToPrimitive (js_or xp (JNum 40)) ;;
  on_element (has_result_container t) ;;
  show (SessionComplete f g v (js_or xp (JNum 40))) ;;
  modify replace_interface.

Definition handleRoleplayResponse (result : JSValue) : JS Talk unit :=
  let* user_message := lift (get_prop result "user_message") in
  addMessage user_message false ;;
  let* t := gets id in
  (match current_turn t with
   | Some _ =>
       let* turn := lift (get_prop result "turn") in
       ToPrimitive turn ;;
       modify (set_current_turn (Some turn))
   | None => ret tt
   end) ;;
  let* analysis := lift (get_prop result "analysis") in
  showFeedback analysis ;;
  let* is_complete := lift (get_prop result "is_complete") in
  let* ai_message := lift (get_prop result "ai_message") in
  (if negb (truthy is_complete) && truthy ai_message
   then modify (fun t => set_queued (queued t ++ [RoleplayReply result])%list t)
   else ret tt) ;;
  if truthy is_complete then showSessionComplete result else ret tt.

Definition handleFreeTalkResponse (result : JSValue) : JS Talk unit :=
  let* user_message := lift (get_prop result "user_message") in
  addMessage user_message false ;;
  modify (fun t => set_queued (queued t ++ [FreeTalkReply result])%list t) ;;
  let* t := gets id in
  let* message_count := lift (get_prop result "message_count") in
  ToPrimitive message_count ;;
  on_element (has_message_count t) ;;
  show (MessageCount message_count) ;;
  let* averages := lift (get_prop result "session_averages") in
  let* f := lift (get_prop averages "fluency") in
  let* g := lift (get_prop averages "grammar") in
  let* v := lift (get_prop averages "vocabulary") in
  ToPrimitive f ;; ToPrimitive g ;; ToPrimitive v ;;
  on_element (has_session_avg t) ;;
  show (SessionAvg f g v) ;;
  let* current_analysis := lift (get_prop result "current_analysis") in
  showFeedback current_analysis.

(** The oldest queued timeout fires. *)
Definition ai_bubble : JS Talk unit :=
  let* t := gets id in
  match queued t with
  | [] => ret tt
  | RoleplayReply result :: rest =>
      modify (set_queued rest) ;;
      let* ai_message := lift (get_prop result "ai_message") in
      addMessage ai_message true ;;
      let* hint := lift (get_prop result "hint") in
      if truthy hint then
        ToPrimitive hint ;;
        on_element (has_hint_text t) ;;
        show (HintText hint)
      else ret tt
  | FreeTalkReply result :: rest =>
      modify (set_queued rest) ;;
      let* ai_message := lift (get_prop result "ai_message") in
      addMessage ai_message true
  end.

Section Speaking.
Context `{JSON}.

(** [sendTextResponse] and [sendFreeTalkText]; [fetched] is what the
    awaited request of [roleplayRespond] or [freeTalkRespond] settles to. *)
Definition sendTextResponse (fetched : FetchResult) : JS Talk unit :=
  let* t := gets id in
  let txt := trim (input_value t) in
  if txt =? EmptyString then show (ToastWarning "Please enter a message")
  else
    modify (set_input_value EmptyString) ;;
    show TLoadingShow ;;
    finally
      (catch
         (let* result := lift (fetch_json fetched) in handleRoleplayResponse result)
         (fun _ => show (TToastError "Failed to send message")))
      (show TLoadingHide).

Definition sendFreeTalkText (fetched : FetchResult) : JS Talk unit :=
  let* t := gets id in
  let txt := trim (input_value t) in
  if txt =? EmptyString then ret tt
  else
    modify (set_input_value EmptyString) ;;
    show TLoadingShow ;;
    finally
      (catch
         (let* result := lift (fetch_json fetched) in handleFreeTalkResponse result)
         (fun _ => show (TToastError "Failed to send message")))
      (show TLoadingHide).


Definition sendFreeTalkAudio (fetched : FetchResult) : JS Talk unit :=
  show TLoadingShow ;;
  finally
    (catch
       (let* result := lift (fetch_json fetched) in handleFreeTalkResponse result)
       (fun _ => show (TToastError "Failed to process audio")))
    (show TLoadingHide).

End Speaking.

(** ** dashboard.js: the CEFR threshold table; lessons.js: showResults *)

Module Dashboard.

Record LevelInfo : Type := {
  min : Z;
  max : Z;
  next : string
}.

Definition levelThresholds : list (string * LevelInfo) :=
  [ ("A1", {| min := 0; max := 500; next := "A2" |});
    ("A2", {| min := 500; max := 1500; next := "B1" |});
    ("B1", {| min := 1500; max := 3500; next := "B2" |});
    ("B2", {| min := 3500; max := 7000; next := "C1" |});
    ("C1", {| min := 7000; max := 12000; next := "C2" |});
    ("C2", {| min := 12000; max := 20000; next := "Max" |}) ].

Fixpoint lookup_level (level : string) (table : list (string * LevelInfo))
  : option LevelInfo :=
  match table with
  | [] => None
  | (k, info) :: rest => if k =? level then Some info else lookup_level level rest
  end.

(** [levelThresholds[currentLevel] || levelThresholds['A1']], with
    [currentLevel = data.cefr_level || 'A1'] *)
Definition levelInfo (cefr_level : option string) : LevelInfo :=
  let currentLevel :=
    match cefr_level with
    | Some (String c r) => String c r
    | _ => "A1"
    end in
  match lookup_level currentLevel levelThresholds with
  | Some info => info
  | None => {| min := 0; max := 500; next := "A2" |}
  end.

(** [Math.max(levelInfo.max - xpTotal, 0)] *)
Definition xpRemaining (cefr_level : option string) (xpTotal : Z) : Z :=
  Z.max (max (levelInfo cefr_level) - xpTotal) 0.

End Dashboard.

(** The cached user object and the lesson result [showResults] receives. *)
Record User : Type := {
  xp_total : Z;
  current_streak : Z;
  cefr_level : option string
}.

Record LessonResult : Type := {
  score : Z;
  xp_earned : Z;
  correct_count : Z;
  total_questions : Z;
  new_streak : Z;
  level_up : bool;
  new_level : option string
}.

(** [showResults], the update of the cached user. *)
Definition showResults (user : User) (result : LessonResult) : User :=
  {| xp_total := xp_total user + xp_earned result;
     current_streak := new_streak result;
     cefr_level := if level_up result then new_level result else cefr_level user |}.

(** Position of a level in the table, from 1; 0 for an unset level. *)
Fixpoint rank_in (level : string) (table : list (string * Dashboard.LevelInfo)) : nat :=
  match table with
  | [] => 0
  | (k, _) :: rest =>
      if k =? level then 1
      else match rank_in level rest with
           | O => 0
           | S n => S (S n)
           end
  end.

Definition rank (level : option string) : nat :=
  match level with
  | Some l => rank_in l Dashboard.levelThresholds
  | None => 0
  end.

(** Modelled from the spec: the level lookup of the Scoring and Progression
    Engine, which runs in the backend scoring service and is not part of
    the front-end sources.  "Look up the CEFR level whose threshold range
    contains the new total using the fixed ascending table." *)
Fixpoint level_of_xp_in (total : Z) (table : list (string * Dashboard.LevelInfo))
  : option string :=
  match table with
  | [] => None
  | (k, info) :: rest =>
      if ((Dashboard.min info <=? total) && (total <? Dashboard.max info))%Z
      then Some k
      else level_of_xp_in total rest
  end.

Definition level_of_xp (total : Z) : option string :=
  level_of_xp_in total Dashboard.levelThresholds.

(** Modelled from the spec: step 5 of the engine's scoring, which runs in
    the backend scoring service and is not part of the front-end sources.
    "If this level is strictly higher than the prior level, set level_up =
    true and new_level to it; level never regresses even if XP were
    hypothetically lower." *)
Definition level_step (prior_level : option string) (new_total : Z)
  : bool * option string :=
  let found := level_of_xp new_total in
  if (rank prior_level <? rank found)%nat then (true, found) else (false, None).

(** Modelled from the spec: [result] is a Lesson Result the engine returns
    for the snapshot [prior]: "New XP total = prior total + xp_earned", and
    the level fields are those of [level_step] at that total. *)
Definition engine_result (prior : User) (result : LessonResult) : Prop :=
  (level_up result, new_level result)
  = level_step (cefr_level prior) (xp_total prior + xp_earned result).

(** Successive scoring events of one learner: each result comes from the
    engine and is applied by [showResults]. *)
Inductive scoring_events : User -> User -> Prop :=
  | events_none (u : User) : scoring_events u u
  | events_next (u u' : User) (result : LessonResult) :
      engine_result u result ->
      scoring_events (showResults u result) u' ->
      scoring_events u u'.

(** ** The answer comparison as the specification words it

    "Decode the structured wrapper if present (fall back to the raw value
    if decoding fails), convert to text, trim surrounding whitespace, and
    perform case-insensitive comparison", for text whose code units are
    in U+0000..U+00FF. *)

(** The white space of ECMAScript below U+0100: TAB, LF, VT, FF, CR, the
    space and the no-break space. *)
Definition whitespace : list ascii :=
  List.map ascii_of_N [9; 10; 11; 12; 13; 32; 160]%N.

Definition blank (s : string) : Prop :=
  Forall (fun c => c ∈ whitespace) (list_ascii_of_string s).


(** The code units of the capital letters below U+0100: A to Z, and the
    accented capitals U+00C0 to U+00DE without the multiplication sign
    U+00D7.  The small letter of each lies 32 code units above it. *)
Definition capitals : list N :=
  (List.map N.of_nat (seq 65 26) ++ List.map N.of_nat (seq 192 23)
   ++ List.map N.of_nat (seq 216 7))%list.

(** Two code units that are the same letter, in whichever case. *)
Inductive same_letter : ascii -> ascii -> Prop :=
  | same_unit (c : ascii) : same_letter c c
  | capital_small (n : N) :
      n ∈ capitals -> same_letter (ascii_of_N n) (ascii_of_N (n + 32))
  | small_capital (n : N) :
      n ∈ capitals -> same_letter (ascii_of_N (n + 32)) (ascii_of_N n).

(** Two texts that are equal but for the case of their letters. *)
Inductive equal_ignoring_case : string -> string -> Prop :=
  | eic_empty : equal_ignoring_case EmptyString EmptyString
  | eic_letter (c d : ascii) (s t : string) :
      same_letter c d ->
      equal_ignoring_case s t ->
      equal_ignoring_case (String c s) (String d t).

(** The text of a value: the words for [undefined], [null] and the
    booleans, the decimal digits of a number, a string itself, the texts
    of the elements of an array with commas between them ([undefined] and
    [null] giving no text there), and [[object Object]] for an object
    that has no property named [toString].  Other objects, and arrays
    that hold one, have no text. *)
Inductive text_of : JSValue -> string -> Prop :=
  | text_undefined : text_of JUndefined "undefined"
  | text_null : text_of JNull "null"
  | text_true : text_of (JBool true) "true"
  | text_false : text_of (JBool false) "false"
  | text_number (n : Z) : text_of (JNum n) (string_of_Z n)
  | text_string (s : string) : text_of (JStr s) s
  | text_array (items : list JSValue) (texts : list string) :
      Forall2 element_text items texts ->
      text_of (JArr items) (join_with "," texts)
  | text_object (props : list (string * JSValue)) :
      Forall (fun kv => fst kv <> "toString") props ->
      text_of (JObj props) "[object Object]"
with element_text : JSValue -> string -> Prop :=
  | element_undefined : element_text JUndefined EmptyString
  | element_null : element_text JNull EmptyString
  | element_other (v : JSValue) (s : string) :
      v <> JUndefined -> v <> JNull -> text_of v s -> element_text v s.

Section NormalizerSpec.
Context `{JSON}.

(** "Decode the structured wrapper if present (fall back to the raw value
    if decoding fails)." *)
Definition spec_decoded (correct_answer : JSValue) : JSValue :=
  match correct_answer with
  | JStr wrapped =>
      match JSON_parse wrapped with
      | Normal decoded => decoded
      | Throw _ => correct_answer
      end
  | raw => raw
  end.


End NormalizerSpec.

(** ** Invariants of a Timer driven on its own *)

Definition running (s : TimerSys) : nat :=
  match interval (tm s) with
  | Some _ => 1
  | None => 0
  end.

(** The browser fires exactly the interval the Timer remembers. *)
Definition timer_inv (s : TimerSys) : Prop :=
  intervals (tsch s) =
  match interval (tm s) with
  | Some h => {[ h ]}
  | None => ∅
  end.

(** ** Invariants of the lesson page *)

(** Every answer record is matched by a cursor advance, done or queued. *)
Definition records_match_advances (p : Page) : Prop :=
  List.length (answers p) = (currentIndex p + pending_advances p)%nat.

(** The page of a lesson that runs without a timer. *)
Definition untimed_inv (p : Page) : Prop :=
  lessonTimer p = None /\
  intervals (sched p) = ∅ /\
  records_match_advances p /\
  (pending_advances p <= 1)%nat /\
  (currentIndex p + pending_advances p <= List.length (currentQuestions p))%nat /\
  (shown_question p <> None -> pending_advances p = 0%nat).

(** ** Sample lessons *)

Definition q_greeting : Question :=
  {| q_id := JNum 2;
     q_type := JStr "multiple_choice";
     q_question := JStr "Choose the correct greeting:";
     q_sentence := JUndefined;
     q_correct_answer := JStr (dq "'Good morning'");
     q_options := ["Good morning"; "Good night"; "Goodbye"; "Sorry"] |}.

Definition q_null : Question :=
  {| q_id := JNum 31;
     q_type := JStr "multiple_choice";
     q_question := JStr "Which word means: having no value?";
     q_sentence := JUndefined;
     q_correct_answer := JStr (dq "'null'");
     q_options := ["full"; "null"; "dull"; "hull"] |}.

(** A stored answer that is plain text, not JSON. *)
Definition q_raw : Question :=
  {| q_id := JNum 5;
     q_type := JStr "multiple_choice";
     q_question := JStr "How do you say merhaba in English?";
     q_sentence := JUndefined;
     q_correct_answer := JStr "Hello";
     q_options := ["Hello"; "Goodbye"; "Thanks"; "Sorry"] |}.

(** A stored answer that decodes to an object with a property named
    [toString]. *)
Definition q_object : Question :=
  {| q_id := JNum 8;
     q_type := JStr "multiple_choice";
     q_question := JStr "Which method gives the text of a value?";
     q_sentence := JUndefined;
     q_correct_answer := JStr (dq "{'toString': 1}");
     q_options := ["toString"; "valueOf"] |}.

Definition daily_object : LessonPayload :=
  {| lesson_id := JNum 4; questions := Some [q_object; q_greeting];
     time_per_question := None |}.

Definition daily_two : LessonPayload :=
  {| lesson_id := JNum 1; questions := Some [q_greeting; q_null];
     time_per_question := None |}.

Definition sprint_one : LessonPayload :=
  {| lesson_id := JNum 10; questions := Some [q_null]; time_per_question := None |}.


Definition no_questions : LessonPayload :=
  {| lesson_id := JNum 12; questions := Some []; time_per_question := None |}.

(** [count] firings of the interval with handle 1, one second apart. *)
Definition seconds (first count : nat) : list Event :=
  List.map (fun k => Fire (1000 * Z.of_nat k) 1) (seq first count).

(** ** Sample conversation

    [roleplay_open] is the page after [showConversationUI], [freetalk_open]
    the page after [showFreeTalkUI], whose feedback panel holds the score
    display and no element for the feedback text. *)

Definition roleplay_open : Talk :=
  {| currentSession := JStr "s-1"; freeTalkSession := JNull;
     conversationHistory :=
       [{| text := JStr "Welcome! What would you like to order?"; isAi := true |}];
     input_value := " A coffee, please ";
     has_chat_container := true; current_turn := Some (JStr "1");
     has_hint_text := true; has_feedback_panel := true;
     has_score_display := true; has_feedback_text := true;
     has_message_count := false; has_session_avg := false;
     has_result_container := true;
     queued := []; screen := [] |}.

Definition freetalk_open : Talk :=
  {| currentSession := JNull; freeTalkSession := JStr "f-1";
     conversationHistory := [];
     input_value := "Hello there";
     has_chat_container := true; current_turn := None;
     has_hint_text := false; has_feedback_panel := true;
     has_score_display := true; has_feedback_text := false;
     has_message_count := true; has_session_avg := true;
     has_result_container := false;
     queued := []; screen := [] |}.

(** The speaking endpoint answers 503 with a JSON error body. *)
Definition provider_failure : FetchResult :=
  Responded {| status := 503; body := dq "{'detail': 'AI provider unavailable'}" |}.

Definition last_turn : FetchResult :=
  Responded {| status := 200;
               body := dq "{'user_message': 'A coffee, please', 'turn': 5, 'is_complete': true, 'analysis': {'fluency_score': 80, 'grammar_score': 71, 'vocabulary_score': 90}, 'xp_earned': 40}" |}.

(** ** The threshold table, read as ranges *)

Fixpoint ascending_contiguous (table : list (string * Dashboard.LevelInfo)) : Prop :=
  match table with
  | [] => True
  | (_, info) :: rest =>
      (Dashboard.min info < Dashboard.max info)%Z /\
      match rest with
      | [] => True
      | (k, info') :: _ =>
          Dashboard.max info = Dashboard.min info' /\ Dashboard.next info = k
      end /\
      ascending_contiguous rest
  end.

Definition learner_490 : User :=
  {| xp_total := 490; current_streak := 3; cefr_level := Some "A1" |}.

Definition result_20 : LessonResult :=
  {| score := 100; xp_earned := 20; correct_count := 2; total_questions := 2;
     new_streak := 4; level_up := true; new_level := Some "A2" |}.

(** ** Sample browser *)

Definition signed_in : Browser :=
  {| localStorage := <["token" := "eyJhbGciOi"]> (<["user" := "{}"]> ∅);
     location_href := "/lingualearn/frontend/pages/dashboard.html";
     console_errors := [] |}.

(** ** app.js: formatTime *)

(** [s.padStart(target, c)] for a one-character filler. *)
Definition padStart (target : nat) (c : ascii) (s : string) : string :=
  string_of_list_ascii (repeat c (target - String.length s)) ++ s.

(** [formatTime(seconds)], with [Math.floor(seconds / 60)] and the
    remainder [seconds % 60], whose sign follows [seconds]. *)
Definition formatTime (seconds : Z) : string :=
  let mins := (seconds / 60)%Z in
  let secs := Z.rem seconds 60 in
  string_of_Z mins ++ ":" ++ padStart 2 "0" (string_of_Z secs).

(** The character of a decimal digit. *)
Definition digit_char (n : Z) : ascii := ascii_of_N (48 + Z.to_N n).

(** ** The lesson page and its interval *)

(** The only interval the browser fires is the one the lesson Timer
    remembers. *)
Definition single_interval (p : Page) : Prop :=
  intervals (sched p) =
  match lessonTimer p with
  | Some t =>
      match interval t with
      | Some h => {[ h ]}
      | None => ∅
      end
  | None => ∅
  end.

(** ** A lesson without timer, question by question *)

Definition is_submission (e : Effect) : option (list AnswerRecord) :=
  match e with
  | SubmitLesson _ records _ => Some records
  | _ => None
  end.

(** The record lists handed to [api.submitLesson], in order. *)
Definition submissions (l : list Effect) : list (list AnswerRecord) :=
  omap is_submission l.

(** [r] records an answer to [q] given by clicking one of its options. *)
Definition answered (q : Question) (r : AnswerRecord) : Prop :=
  question_id r = q_id q /\
  question_text r = js_or (js_or (q_question q) (q_sentence q)) (JStr EmptyString) /\
  correct_answer r = q_correct_answer q /\
  options r = q_options q /\
  exists a, a ∈ q_options q /\ user_answer r = JStr a.

Definition quiz_inv (p : Page) : Prop :=
  untimed_inv p /\
  (currentQuestions p <> [] -> currentLesson p <> None /\ questionRenderer p = true) /\
  (forall i, shown_question p = Some i -> i = currentIndex p) /\
  ((currentIndex p < List.length (currentQuestions p))%nat ->
   pending_advances p = 0%nat -> shown_question p = Some (currentIndex p)) /\
  Forall2 answered (take (List.length (answers p)) (currentQuestions p)) (answers p) /\
  submissions (log p)
  = (if (negb (currentIndex p =? 0)%nat
         && (currentIndex p =? List.length (currentQuestions p))%nat)
     then [answers p] else []).

(** One click and the advance that follows it, per answer. *)
Definition play (choices : list (Z * string)) : list Event :=
  flat_map (fun c => [Click (fst c) (snd c); Advance (fst c + 1000)]) choices.

(** ** Padding *)

(** A text made of white space only. *)
Fixpoint all_space (s : string) : bool :=
  match s with
  | EmptyString => true
  | String c r => is_space c && all_space r
  end.

(** ** JSON.stringify

    [JSON.stringify(value)] without replacer and indentation, on the
    modelled values.  A [JObj] lists the properties of the object in the
    object's own order, each key once. *)

Definition hex_char (n : N) : ascii :=
  if (n <? 10)%N then ascii_of_N (48 + n) else ascii_of_N (87 + n).

(** QuoteJSONString, one code unit. *)
Definition quote_code_unit (c : ascii) : string :=
  let escape := String (ascii_of_N 92) in
  match N_of_ascii c with
  | 8%N => escape "b"
  | 9%N => escape "t"
  | 10%N => escape "n"
  | 12%N => escape "f"
  | 13%N => escape "r"
  | 34%N => escape (String c EmptyString)
  | 92%N => escape (String c EmptyString)
  | n =>
      if (n <? 32)%N
      then escape ("u00" ++ String (hex_char (n / 16))
                                   (String (hex_char (n mod 16)) EmptyString))
      else String c EmptyString
  end.

Fixpoint quote_code_units (s : string) : string :=
  match s with
  | EmptyString => EmptyString
  | String c r => quote_code_unit c ++ quote_code_units r
  end.

Definition QuoteJSONString (s : string) : string :=
  String (ascii_of_N 34) (quote_code_units s ++ String (ascii_of_N 34) EmptyString).

(** The partial list of SerializeJSONObject: a property whose value has
    no serialization is left out. *)
Fixpoint serialize_members (serialize : JSValue -> option string)
    (props : list (string * JSValue)) : list string :=
  match props with
  | [] => []
  | (k, x) :: rest =>
      match serialize x with
      | Some text => (QuoteJSONString k ++ ":" ++ text) :: serialize_members serialize rest
      | None => serialize_members serialize rest
      end
  end.

(** SerializeJSONProperty; [None] is the result [undefined].  An element
    of an array without a serialization is written [null]. *)
Fixpoint SerializeJSONProperty (v : JSValue) : option string :=
  match v with
  | JUndefined => None
  | JNull => Some "null"
  | JBool true => Some "true"
  | JBool false => Some "false"
  | JNum n => Some (string_of_Z n)
  | JStr s => Some (QuoteJSONString s)
  | JArr items =>
      Some ("[" ++ join_with ","
                     (List.map (fun x => default "null" (SerializeJSONProperty x)) items)
                ++ "]")
  | JObj props =>
      Some ("{" ++ join_with "," (serialize_members SerializeJSONProperty props) ++ "}")
  end.

Definition JSON_stringify (v : JSValue) : option string := SerializeJSONProperty v.

(** ** api.js: the stored session *)

Section Session.
Context `{JSON}.

(** [getUser()]: [user ? JSON.parse(user) : null] *)
Definition getUser (b : Browser) : completion JSValue :=
  match localStorage b !! "user" with
  | Some text => if text =? EmptyString then Normal JNull else JSON_parse text
  | None => Normal JNull
  end.

(** [setUser(user)]; [setItem] stores the text of its argument, which for
    the result [undefined] of [JSON.stringify] is the word undefined. *)
Definition setUser (user : JSValue) : JS Browser unit :=
  modify (fun b =>
    set_localStorage
      (<["user" := default "undefined" (JSON_stringify user)]> (localStorage b)) b).

(** [login(email, password)]; [fetched] is what the awaited [fetch] of the
    request settles to. *)
Definition login (fetched : FetchResult) : JS Browser JSValue :=
  let* data := request fetched in
  let* access_token := lift (get_prop data "access_token") in
  let* token := lift (String_ access_token) in
  setToken token ;;
  let* user := lift (get_prop data "user") in
  setUser user ;;
  ret data.

(** [register(email, password, name)] *)
Definition register (fetched : FetchResult) : JS Browser JSValue :=
  let* data := request fetched in
  let* access_token := lift (get_prop data "access_token") in
  let* token := lift (String_ access_token) in
  setToken token ;;
  let* user := lift (get_prop data "user") in
  setUser user ;;
  ret data.

(** [logout()] *)
Definition logout : JS Browser unit :=
  clearToken ;;
  modify (set_location_href login_page).

(** app.js [checkAuth()] *)
Definition checkAuth : JS Browser bool :=
  let* b := gets id in
  if negb (isAuthenticated b) then
    modify (set_location_href login_page) ;;
    ret false
  else ret true.

End Session.

(** A browser nobody is signed in on. *)
Definition signed_out : Browser :=
  {| localStorage := ∅; location_href := login_page; console_errors := [] |}.

(** ** Values that survive the storage

    The values [JSON.stringify] writes in full and the reader above reads
    back: no [undefined] inside, numbers of at most fifteen digits, and
    objects that name each key once. *)
Fixpoint plain_data (v : JSValue) : bool :=
  match v with
  | JUndefined => false
  | JNull | JBool _ | JStr _ => true
  | JNum n => (Z.abs n <? 10 ^ 15)%Z
  | JArr items => forallb plain_data items
  | JObj props =>
      bool_decide (NoDup (List.map fst props))
      && forallb (fun kv => plain_data (snd kv)) props
  end.

(** The number of values, elements and members in a value: the recursion
    depth the reader needs for its text. *)
Fixpoint JSValue_size (v : JSValue) : nat :=
  match v with
  | JArr items => S (list_sum (List.map (fun x => S (JSValue_size x)) items))
  | JObj props => S (list_sum (List.map (fun kv => S (JSValue_size (snd kv))) props))
  | _ => 1
  end.

(** The number a run of decimal digits denotes, read from the left. *)
Fixpoint digits_value (d : Decimal.uint) (acc : Z) : Z :=
  match d with
  | Decimal.Nil => acc
  | Decimal.D0 l => digits_value l (10 * acc + 0)
  | Decimal.D1 l => digits_value l (10 * acc + 1)
  | Decimal.D2 l => digits_value l (10 * acc + 2)
  | Decimal.D3 l => digits_value l (10 * acc + 3)
  | Decimal.D4 l => digits_value l (10 * acc + 4)
  | Decimal.D5 l => digits_value l (10 * acc + 5)
  | Decimal.D6 l => digits_value l (10 * acc + 6)
  | Decimal.D7 l => digits_value l (10 * acc + 7)
  | Decimal.D8 l => digits_value l (10 * acc + 8)
  | Decimal.D9 l => digits_value l (10 * acc + 9)
  end%Z.

(** Text after which a number ends: nothing, or a character that is
    neither a digit nor the start of a fraction or an exponent. *)
Definition number_stop (rest : string) : bool :=
  match rest with
  | EmptyString => true
  | String c _ => negb (is_digit c) && negb (starts_fraction_or_exponent rest)
  end.

(** The characters a serialized value can start with. *)
Definition value_start (c : ascii) : bool :=
  let n := N_of_ascii c in
  (is_digit c || (n =? 45) || (n =? 110) || (n =? 116) || (n =? 102)
   || (n =? 34) || (n =? 91) || (n =? 123))%N.

(** The reader finds a value at the head of every text that starts with
    the value's serialization, given recursion depth for its size. *)
Definition reads_back (v : JSValue) : Prop :=
  exists t,
    SerializeJSONProperty v = Some t /\
    (JSValue_size v <= 2 * String.length t)%nat /\
    forall fuel rest,
      (JSValue_size v <= fuel)%nat -> number_stop rest = true ->
      parse_value fuel (t ++ rest) = POk v rest.

(** A user object as the backend sends it. *)
Definition learner_object : JSValue :=
  JObj [("id", JNum 7); ("name", JStr (dq "Ada 'the first' Byron"));
        ("cefr_level", JNull); ("xp_total", JNum 490);
        ("badges", JArr [JStr "streak-3"; JStr "first-lesson"]);
        ("premium", JBool false)].

(** A reply to a login request, and the same without the user. *)
Definition login_reply : FetchResult :=
  Responded {| status := 200;
               body := dq "{'access_token': 'eyJhbGciOi', 'user': {'id': 7, 'name': 'Ada', 'cefr_level': null}}" |}.

Definition login_reply_without_user : FetchResult :=
  Responded {| status := 200; body := dq "{'access_token': 'eyJhbGciOi'}" |}.

(** ** What sending a message may change

    At most one learner turn is added to the transcript, and a reply is
    queued only together with a learner turn; what is on the screen stays
    there, and the session identifiers are not touched. *)
Definition grows_by_learner_turn (t t' : Talk) : Prop :=
  exists added more shown,
    conversationHistory t' = (conversationHistory t ++ added)%list /\
    queued t' = (queued t ++ more)%list /\
    screen t' = (screen t ++ shown)%list /\
    (List.length more <= List.length added <= 1)%nat /\
    Forall (fun m => isAi m = false) added /\
    currentSession t' = currentSession t /\
    freeTalkSession t' = freeTalkSession t.

(** The steps a handler is made of.  [only_shows]: the step adds to the
    screen and leaves the transcript, the timeout queue and the session
    identifiers alone.  [queues_one]: it may also queue one reply.
    [adds_turn m]: it appends the turn [m] to the transcript. *)
Definition only_shows (t t' : Talk) : Prop :=
  conversationHistory t' = conversationHistory t /\
  queued t' = queued t /\
  currentSession t' = currentSession t /\
  freeTalkSession t' = freeTalkSession t /\
  exists shown, screen t' = (screen t ++ shown)%list.

Definition queues_one (t t' : Talk) : Prop :=
  conversationHistory t' = conversationHistory t /\
  (exists more, queued t' = (queued t ++ more)%list /\ (List.length more <= 1)%nat) /\
  currentSession t' = currentSession t /\
  freeTalkSession t' = freeTalkSession t /\
  exists shown, screen t' = (screen t ++ shown)%list.

Definition adds_turn (m : Message) (t t' : Talk) : Prop :=
  conversationHistory t' = (conversationHistory t ++ [m])%list /\
  queued t' = queued t /\
  currentSession t' = currentSession t /\
  freeTalkSession t' = freeTalkSession t /\
  exists shown, screen t' = (screen t ++ shown)%list.

(** The step [m] relates the state it starts in to the state it leaves,
    whether it returns or throws. *)
Definition always {A} (R : Talk -> Talk -> Prop) (m : JS Talk A) : Prop :=
  forall t, R t (fst (m t)).

(** The feedback panel as [showFreeTalkUI] writes it: it holds the score
    display and no element for the feedback text. *)
Definition panel_without_text (t : Talk) : Prop :=
  has_feedback_panel t = true /\ has_feedback_text t = false.

(** The step throws a TypeError from every state in [P]. *)
Definition fails_in {A} (P : Talk -> Prop) (m : JS Talk A) : Prop :=
  forall t, P t -> snd (m t) = Throw TypeError.

(** From a state in [P] the step throws a TypeError, or returns in a
    state in [P]. *)
Definition stays_in {A} (P : Talk -> Prop) (m : JS Talk A) : Prop :=
  forall t, P t ->
    snd (m t) = Throw TypeError \/ ((exists a, snd (m t) = Normal a) /\ P (fst (m t))).

(** The page as [showConversationUI] writes it. *)
Definition roleplay_page (t : Talk) : Prop :=
  has_chat_container t = true /\ current_turn t <> None /\
  has_hint_text t = true /\ has_feedback_panel t = true /\
  has_score_display t = true /\ has_feedback_text t = true /\
  has_result_container t = true.

(** The fields [handleRoleplayResponse] reads off a reply and off its
    analysis. *)
Definition reply_reads (result um turn analysis ic ai hint xp : JSValue) : Prop :=
  get_prop result "user_message" = Normal um /\
  get_prop result "turn" = Normal turn /\
  get_prop result "analysis" = Normal analysis /\
  get_prop result "is_complete" = Normal ic /\
  get_prop result "ai_message" = Normal ai /\
  get_prop result "hint" = Normal hint /\
  get_prop result "xp_earned" = Normal xp.

Definition analysis_reads (analysis f g v feedback corrections : JSValue) : Prop :=
  get_prop analysis "fluency_score" = Normal f /\
  get_prop analysis "grammar_score" = Normal g /\
  get_prop analysis "vocabulary_score" = Normal v /\
  get_prop analysis "feedback" = Normal feedback /\
  get_prop analysis "corrections" = Normal corrections.

(** Values that convert to a text and to a number without a TypeError. *)
Definition convertible (values : list JSValue) : Prop :=
  Forall (fun v => ToPrimitive_raises v = false) values.

(** A reply of the free-talk endpoint. *)
Definition talk_reply : FetchResult :=
  Responded {| status := 200;
               body := dq "{'user_message': 'Hello there', 'ai_message': 'Hi! How was your day?', 'message_count': 1, 'session_averages': {'fluency': 80, 'grammar': 71, 'vocabulary': 90}, 'current_analysis': {'fluency_score': 80, 'grammar_score': 71, 'vocabulary_score': 90, 'feedback': 'Good', 'corrections': []}}" |}.

(** A reply that continues the roleplay. *)
Definition next_turn : FetchResult :=
  Responded {| status := 200;
               body := dq "{'user_message': 'A coffee, please', 'turn': 2, 'is_complete': false, 'ai_message': 'Sure. Anything else?', 'hint': 'Say what you want to eat', 'analysis': {'fluency_score': 80, 'grammar_score': 71, 'vocabulary_score': 90, 'feedback': 'Good', 'corrections': []}}" |}.

(** ** A sprint nobody answers *)





(** The text of an element in the [join] of an array. *)
Definition joined_text (x : JSValue) : string :=
  match x with
  | JUndefined | JNull => EmptyString
  | _ => ToString x
  end.

(** * Properties *)

(** ** The answer normalizer *)

Lemma lower_char_space (c : ascii) : is_space (lower_char c) = is_space c.
Proof. destruct c as [[] [] [] [] [] [] [] []]; reflexivity. Qed.

Lemma toLowerCase_empty (s : string) :
  toLowerCase s = EmptyString <-> s = EmptyString.
Proof. destruct s; simpl; split; congruence. Qed.




Section NormalizerFacts.
Context `{JSON}.

Lemma parsed_correct_answer_decoded (v : JSValue) :
  parsed_correct_answer v = Normal (spec_decoded v).
Proof.
  destruct v; simpl; try reflexivity.
  destruct (JSON_parse s); reflexivity.
Qed.

Lemma checkable_decoded (question : Question) :
  checkable question = negb (ToPrimitive_raises (spec_decoded (q_correct_answer question))).
Proof. unfold checkable. rewrite parsed_correct_answer_decoded. reflexivity. Qed.

(** The check returns exactly when both values have a text, and then with
    the comparison of the two texts. *)
Lemma check_answer_normal (answer : JSValue) (question : Question) :
  ToPrimitive_raises answer = false ->
  checkable question = true ->
  check_answer answer question
  = Normal (same_text (ToString answer)
                      (ToString (spec_decoded (q_correct_answer question))),
            spec_decoded (q_correct_answer question)).
Proof.
  intros Ha Hc. rewrite checkable_decoded in Hc. apply negb_true_iff in Hc.
  unfold check_answer, isCorrect, String_.
  rewrite parsed_correct_answer_decoded. simpl. rewrite Ha, Hc. reflexivity.
Qed.

Lemma check_answer_raises (answer : JSValue) (question : Question) :
  ToPrimitive_raises answer = true \/ checkable question = false ->
  check_answer answer question = Throw TypeError.
Proof.
  rewrite checkable_decoded, negb_false_iff.
  unfold check_answer, isCorrect, String_.
  rewrite parsed_correct_answer_decoded. simpl.
  intros [Ha | Hc].
  - rewrite Ha. reflexivity.
  - rewrite Hc. destruct (ToPrimitive_raises answer); reflexivity.
Qed.

Lemma check_answer_outcome (answer : JSValue) (question : Question) :
  (exists verdict, check_answer answer question = Normal verdict) \/
  check_answer answer question = Throw TypeError.
Proof.
  destruct (ToPrimitive_raises answer) eqn:Ha;
    [right; apply check_answer_raises; left; exact Ha|].
  destruct (checkable question) eqn:Hc;
    [|right; apply check_answer_raises; right; exact Hc].
  left. eexists. apply check_answer_normal; assumption.
Qed.

End NormalizerFacts.

(** ** The Timer *)

Lemma Timer_stop_idle (t : Timer) (sch : Scheduler) :
  interval t = None -> Timer_stop t sch = (t, sch).
Proof. intros Hi. unfold Timer_stop. rewrite Hi. reflexivity. Qed.

Lemma Timer_stop_interval (t : Timer) (sch : Scheduler) :
  interval (fst (Timer_stop t sch)) = None.
Proof. unfold Timer_stop. destruct (interval t) eqn:Hi; simpl; [reflexivity | exact Hi]. Qed.

Lemma Timer_stop_idempotent (t : Timer) (sch : Scheduler) :
  Timer_stop (fst (Timer_stop t sch)) (snd (Timer_stop t sch)) = Timer_stop t sch.
Proof.
  rewrite (Timer_stop_idle _ _ (Timer_stop_interval t sch)).
  destruct (Timer_stop t sch); reflexivity.
Qed.

Lemma Timer_update_no_complete (t : Timer) :
  List.filter is_complete_signal (Timer_update t) = [].
Proof. unfold Timer_update. destruct (element t); reflexivity. Qed.

Lemma Timer_tick_complete_stops (t : Timer) (sch : Scheduler) :
  In OnComplete (snd (Timer_tick t sch)) ->
  interval (fst (fst (Timer_tick t sch))) = None.
Proof.
  unfold Timer_tick.
  destruct (remaining (set_remaining (remaining t - 1) t) <=? 0)%Z eqn:Hz.
  - intros _.
    pose proof (Timer_stop_interval (set_remaining (remaining t - 1) t) sch) as Hs.
    destruct (Timer_stop (set_remaining (remaining t - 1) t) sch). exact Hs.
  - simpl. intros Hin. apply in_app_or in Hin as [Hin | Hin].
    + unfold Timer_update in Hin. destruct (element _); simpl in Hin;
        [destruct Hin as [Hin | []]; discriminate | destruct Hin].
    + destruct (onTick _); simpl in Hin; [destruct Hin as [Hin | []]; discriminate | destruct Hin].
Qed.

Lemma completions_app (t : Timer) (sch : Scheduler) (o sig : list Signal) :
  completions {| tm := t; tsch := sch; out := (o ++ sig)%list |}
  = (completions {| tm := t; tsch := sch; out := o |}
     + List.length (List.filter is_complete_signal sig))%nat.
Proof. unfold completions. simpl. rewrite List.filter_app, length_app. reflexivity. Qed.

Lemma timer_step_inv (op : TimerOp) (s s' : TimerSys) :
  timer_inv s ->
  (op = OpStart -> interval (tm s) = None) ->
  timer_step op s = Some s' ->
  timer_inv s' /\
  (completions s' + running s' <=
   completions s + running s + (if is_start op then 1 else 0))%nat.
Proof.
  destruct s as [t sch o]. unfold timer_inv, running. simpl.
  intros Hinv Hidle Hstep. destruct op; simpl in Hstep.
  - specialize (Hidle eq_refl). rewrite Hidle in Hinv.
    injection Hstep as <-. unfold completions. simpl. rewrite Hidle, Hinv.
    split; [set_solver | lia].
  - unfold Timer_stop in Hstep. destruct (interval t) as [h|] eqn:Hi;
      injection Hstep as <-; unfold completions; simpl.
    + rewrite Hinv. split; [set_solver | lia].
    + rewrite Hi. split; [exact Hinv | lia].
  - unfold Timer_reset, Timer_stop in Hstep.
    destruct (interval t) as [h|] eqn:Hi; injection Hstep as <-;
      rewrite completions_app, Timer_update_no_complete; unfold completions; simpl.
    + rewrite Hinv. split; [set_solver | lia].
    + rewrite Hi. split; [exact Hinv | lia].
  - destruct (decide (h ∈ intervals sch)) as [Hin|]; [|discriminate].
    unfold Timer_tick, Timer_stop in Hstep. simpl in Hstep.
    destruct (remaining t - 1 <=? 0)%Z.
    + destruct (interval t) as [h'|] eqn:Hi.
      * injection Hstep as <-. rewrite completions_app. unfold completions. simpl.
        rewrite !List.filter_app, !length_app, Timer_update_no_complete, Hinv.
        split; [set_solver|].
        destruct (onTick t), (onComplete t); simpl; lia.
      * rewrite Hinv in Hin. set_solver.
    + injection Hstep as <-. rewrite completions_app. unfold completions. simpl.
      rewrite !List.filter_app, !length_app, Timer_update_no_complete.
      split; [exact Hinv|]. destruct (onTick t); simpl; lia.
Qed.

Lemma timer_run_bound (ops : list TimerOp) (s s' : TimerSys) :
  timer_inv s ->
  starts_when_idle ops s ->
  timer_run ops s = Some s' ->
  (completions s' + running s' <= completions s + running s + starts ops)%nat.
Proof.
  revert s. induction ops as [|op ops IH]; intros s Hinv Hidle Hrun; simpl in *.
  - injection Hrun as <-. unfold starts. simpl. lia.
  - destruct Hidle as [Hop Hrest].
    destruct (timer_step op s) as [s1|] eqn:Hstep; [|discriminate].
    destruct (timer_step_inv op s s1 Hinv Hop Hstep) as [Hinv1 Hle].
    specialize (IH s1 Hinv1 Hrest Hrun).
    unfold starts in *. simpl. destruct (is_start op); simpl in *; lia.
Qed.

Lemma timer_fresh_inv (d : Z) : timer_inv (timer_fresh d).
Proof. reflexivity. Qed.

(** C5, as amended.  On a Timer built with a positive duration, whatever
    the order of [start], [stop], [reset] and interval firings, as long as
    each [start] is called while the Timer is not counting, the completion
    callback has been invoked at most once per [start].  [stop] called on a
    Timer that is not counting changes nothing: in particular after the
    countdown completed, and when called twice in a row. *)
Theorem completion_at_most_once_per_idle_start
    (d : Z) (ops : list TimerOp) (s : TimerSys) :
  (0 < d)%Z ->
  starts_when_idle ops (timer_fresh d) ->
  timer_run ops (timer_fresh d) = Some s ->
  (completions s <= starts ops)%nat /\
  (forall t sch, In OnComplete (snd (Timer_tick t sch)) ->
     let '(t', sch', _) := Timer_tick t sch in Timer_stop t' sch' = (t', sch')) /\
  (forall t sch,
     Timer_stop (fst (Timer_stop t sch)) (snd (Timer_stop t sch)) = Timer_stop t sch).
Proof.
  intros _ Hidle Hrun. split; [|split].
  - pose proof (timer_run_bound ops _ s (timer_fresh_inv d) Hidle Hrun) as Hb.
    unfold completions, running in Hb. simpl in Hb. unfold completions. lia.
  - intros t sch Hin. pose proof (Timer_tick_complete_stops t sch Hin) as Hi.
    destruct (Timer_tick t sch) as [[t' sch'] sig]. simpl in Hi.
    apply Timer_stop_idle, Hi.
  - apply Timer_stop_idempotent.
Qed.

Lemma completion_at_most_once_per_idle_start_witness :
  exists s,
    timer_run [OpStart; OpFire 1; OpFire 1; OpStop; OpReset; OpStart; OpFire 2; OpFire 2]
              (timer_fresh 2) = Some s /\
    (completions s <= 2)%nat.
Proof.
  eexists. split; [vm_compute; reflexivity|].
  refine (proj1 (completion_at_most_once_per_idle_start 2
            [OpStart; OpFire 1; OpFire 1; OpStop; OpReset; OpStart; OpFire 2; OpFire 2] _ _ _ _)).
  - reflexivity.
  - vm_compute. repeat split; intros; try discriminate; reflexivity.
  - vm_compute. reflexivity.
Defined.

(** C5, the claim as first stated fails: a second [start] while the first
    countdown runs leaves the first interval firing for ever, and every
    firing after zero invokes the completion callback again. *)
Lemma double_start_completes_repeatedly :
  exists s,
    timer_run [OpStart; OpStart; OpFire 1; OpFire 2; OpFire 1; OpFire 1]
              (timer_fresh 2) = Some s /\
    completions s = 3%nat /\
    starts [OpStart; OpStart; OpFire 1; OpFire 2; OpFire 1; OpFire 1] = 2%nat /\
    intervals (tsch s) = {[ 1%positive ]}.
Proof. eexists. split; [vm_compute; reflexivity|]. vm_compute. repeat split. Qed.

(** ** The lesson page *)

Ltac js_unfold :=
  unfold bind, gets, modify, emit, emit_signals, lift, ret, throw, catch, finally, id in *.

Section LessonFacts.
Context `{JSON}.

(** What [handleAnswer] changes: nothing when there is no current question
    or no renderer; otherwise one record is appended, and then either the
    option buttons are disabled and one advance is queued, or the check
    has thrown and neither is done. *)
Lemma handleAnswer_effect (now : Z) (answer : JSValue) (p : Page) :
  let p' := fst (handleAnswer now answer p) in
  currentQuestions p' = currentQuestions p /\
  currentIndex p' = currentIndex p /\
  lessonTimer p' = lessonTimer p /\
  sched p' = sched p /\
  ((answers p' = answers p /\ pending_advances p' = pending_advances p /\
    shown_question p' = shown_question p)
   \/
   (exists question r,
      nth_error (currentQuestions p) (currentIndex p) = Some question /\
      answers p' = (answers p ++ [r])%list /\
      user_answer r = answer /\
      question_id r = q_id question /\
      ((check_answer answer question <> Throw TypeError /\
        pending_advances p' = S (pending_advances p) /\
        shown_question p' = None)
       \/
       (check_answer answer question = Throw TypeError /\
        pending_advances p' = pending_advances p /\
        shown_question p' = shown_question p)))).
Proof.
  unfold handleAnswer. js_unfold. simpl.
  destruct (nth_error (currentQuestions p) (currentIndex p)) as [question|] eqn:Hq; simpl.
  - destruct (questionRenderer p); simpl.
    + destruct (check_answer_outcome answer question) as [[verdict Hv] | Hv];
        rewrite Hv; simpl; repeat split; right;
        eexists question, _; (split; [reflexivity|]); (split; [reflexivity|]);
        (split; [reflexivity|]); (split; [reflexivity|]).
      * left. split; [rewrite Hv; discriminate|]. split; reflexivity.
      * right. split; [exact Hv|]. split; reflexivity.
    + repeat split. left. repeat split.
  - repeat split. left. repeat split.
Qed.

Lemma submitLesson_effect (now : Z) (p : Page) :
  let p' := fst (submitLesson now p) in
  currentQuestions p' = currentQuestions p /\
  currentIndex p' = currentIndex p /\
  answers p' = answers p /\
  pending_advances p' = pending_advances p /\
  shown_question p' = shown_question p /\
  (lessonTimer p = None -> lessonTimer p' = None /\ sched p' = sched p).
Proof.
  unfold submitLesson, stop_lessonTimer. js_unfold. simpl.
  destruct (lessonTimer p) as [t|] eqn:Ht; simpl.
  - destruct (Timer_stop t (sched p)) as [t' sch'] eqn:Hs. simpl.
    destruct (currentLesson p); simpl; repeat split; discriminate.
  - destruct (currentLesson p); simpl; repeat split; assumption.
Qed.

Lemma renderCurrentQuestion_effect (now : Z) (p : Page) :
  let p' := fst (renderCurrentQuestion now p) in
  currentQuestions p' = currentQuestions p /\
  currentIndex p' = currentIndex p /\
  answers p' = answers p /\
  pending_advances p' = pending_advances p /\
  (lessonTimer p = None -> lessonTimer p' = None /\ sched p' = sched p) /\
  (shown_question p' = shown_question p \/
   (shown_question p' = Some (currentIndex p) /\
    (currentIndex p < List.length (currentQuestions p))%nat)).
Proof.
  unfold renderCurrentQuestion. js_unfold. simpl.
  destruct (List.length (currentQuestions p) <=? currentIndex p)%nat eqn:Hle.
  - destruct (submitLesson_effect now p) as (H1 & H2 & H3 & H4 & H5 & H6).
    repeat split; try assumption; try (apply H6; assumption). left. assumption.
  - apply Nat.leb_gt in Hle.
    destruct (questionRenderer p); simpl; [|repeat split; auto].
    destruct (nth_error (currentQuestions p) (currentIndex p)) as [question|]; simpl;
      [|repeat split; auto].
    destruct (formatQuestion question); simpl; repeat split; auto.
Qed.

End LessonFacts.

Section LessonInvariants.
Context `{JSON}.

Lemma advance_effect (now : Z) (p : Page) :
  let p' := fst (advance now p) in
  currentQuestions p' = currentQuestions p /\
  currentIndex p' = S (currentIndex p) /\
  answers p' = answers p /\
  pending_advances p' = pending_advances p /\
  (lessonTimer p = None -> lessonTimer p' = None /\ sched p' = sched p) /\
  (shown_question p' = shown_question p \/
   (shown_question p' = Some (S (currentIndex p)) /\
    (S (currentIndex p) < List.length (currentQuestions p))%nat)).
Proof.
  unfold advance. js_unfold. simpl.
  destruct (lessonTimer p) as [t|] eqn:Ht; simpl.
  - destruct (is_sprint (currentLessonType p)); simpl.
    + destruct (Timer_reset t (sched p)) as [[t1 sch1] sig].
      destruct (Timer_start t1 sch1) as [t2 sch2]. simpl.
      match goal with |- context [renderCurrentQuestion now ?q] =>
        destruct (renderCurrentQuestion_effect now q) as (H1 & H2 & H3 & H4 & _ & H6) end.
      simpl in *. repeat split; try assumption; discriminate.
    + match goal with |- context [renderCurrentQuestion now ?q] =>
        destruct (renderCurrentQuestion_effect now q) as (H1 & H2 & H3 & H4 & _ & H6) end.
      simpl in *. repeat split; try assumption; discriminate.
  - match goal with |- context [renderCurrentQuestion now ?q] =>
      destruct (renderCurrentQuestion_effect now q) as (H1 & H2 & H3 & H4 & H5 & H6) end.
    simpl in *. repeat split; try assumption; apply H5; assumption.
Qed.

(** A firing of the lesson timer either only counts down, or completes and
    submits [null] as the answer. *)
Lemma timer_fire_effect (now : Z) (p : Page) :
  let p' := fst (timer_fire now p) in
  currentQuestions p' = currentQuestions p /\
  currentIndex p' = currentIndex p /\
  ((answers p' = answers p /\ pending_advances p' = pending_advances p)
   \/
   (exists question r,
      nth_error (currentQuestions p) (currentIndex p) = Some question /\
      answers p' = (answers p ++ [r])%list /\ user_answer r = JNull /\
      ((check_answer JNull question <> Throw TypeError /\
        pending_advances p' = S (pending_advances p))
       \/
       (check_answer JNull question = Throw TypeError /\
        pending_advances p' = pending_advances p)))).
Proof.
  unfold timer_fire. js_unfold. simpl.
  destruct (lessonTimer p) as [t|]; simpl; [|repeat split; left; split; reflexivity].
  destruct (Timer_tick t (sched p)) as [[t' sch'] sig]. simpl.
  destruct (existsb is_complete_signal sig); simpl;
    [|repeat split; left; split; reflexivity].
  unfold onComplete_lesson. js_unfold. simpl.
  destruct (timer_perQuestion p).
  - match goal with |- context [handleAnswer now JNull ?q] =>
      destruct (handleAnswer_effect now JNull q) as (H1 & H2 & _ & _ & H5) end.
    simpl in *. repeat split; try assumption.
    destruct H5 as [(Ha & Hp & _) | (q & r & Hq & Ha & Hu & _ & Hp)].
    + left. split; assumption.
    + right. exists q, r. split; [exact Hq|]. split; [exact Ha|]. split; [exact Hu|].
      destruct Hp as [(Hc & Hp & _) | (Hc & Hp & _)]; [left | right]; split; assumption.
  - match goal with |- context [submitLesson now ?q] =>
      destruct (submitLesson_effect now q) as (H1 & H2 & H3 & H4 & _) end.
    simpl in *. repeat split; try assumption. left. split; assumption.
Qed.

(** On a page whose questions are all checkable, the check of a clicked
    option and of the [null] of the timer returns. *)
Lemma checkable_never_raises (answer : JSValue) (question : Question) (p : Page) :
  forallb checkable (currentQuestions p) = true ->
  nth_error (currentQuestions p) (currentIndex p) = Some question ->
  ToPrimitive_raises answer = false ->
  check_answer answer question <> Throw TypeError.
Proof.
  intros Hall Hq Ha.
  assert (checkable question = true) as Hc.
  { rewrite forallb_forall in Hall. apply Hall. eapply nth_error_In. exact Hq. }
  rewrite (check_answer_normal answer question Ha Hc). discriminate.
Qed.

Lemma step_currentQuestions (ev : Event) (p p' : Page) :
  step ev p = Some p' -> currentQuestions p' = currentQuestions p.
Proof.
  unfold step. destruct (enabled ev p); [|discriminate]. intros [= <-].
  destruct ev as [now a | now h | now]; simpl handler.
  - apply handleAnswer_effect.
  - apply timer_fire_effect.
  - js_unfold. simpl.
    match goal with |- context [advance now ?q] =>
      destruct (advance_effect now q) as (H1 & _) end.
    exact H1.
Qed.

Lemma run_currentQuestions (evs : list Event) (p p' : Page) :
  run evs p = Some p' -> currentQuestions p' = currentQuestions p.
Proof.
  revert p. induction evs as [|ev evs IH]; intros p Hrun; simpl in Hrun.
  - injection Hrun as <-. reflexivity.
  - destruct (step ev p) as [p1|] eqn:Hstep; [|discriminate].
    rewrite (IH p1 Hrun). eapply step_currentQuestions. exact Hstep.
Qed.

Lemma step_records_match_advances (ev : Event) (p p' : Page) :
  forallb checkable (currentQuestions p) = true ->
  records_match_advances p -> step ev p = Some p' -> records_match_advances p'.
Proof.
  unfold records_match_advances, step. intros Hall Hinv Hstep.
  destruct (enabled ev p) eqn:Hen; [|discriminate]. injection Hstep as <-.
  destruct ev as [now a | now h | now]; simpl handler.
  - destruct (handleAnswer_effect now (JStr a) p) as (_ & H2 & _ & _ & H5).
    destruct H5 as [(Ha & Hp & _) | (q & r & Hq & Ha & _ & _ & Hp)].
    + rewrite Ha, H2, Hp. exact Hinv.
    + destruct Hp as [(_ & Hp & _) | (Hc & _)].
      * rewrite Ha, H2, Hp, length_app. simpl. lia.
      * exfalso. exact (checkable_never_raises (JStr a) q p Hall Hq eq_refl Hc).
  - destruct (timer_fire_effect now p) as (_ & H2 & H5).
    destruct H5 as [(Ha & Hp) | (q & r & Hq & Ha & _ & Hp)].
    + rewrite Ha, H2, Hp. exact Hinv.
    + destruct Hp as [(_ & Hp) | (Hc & _)].
      * rewrite Ha, H2, Hp, length_app. simpl. lia.
      * exfalso. exact (checkable_never_raises JNull q p Hall Hq eq_refl Hc).
  - simpl in Hen. apply Nat.ltb_lt in Hen. js_unfold. simpl.
    match goal with |- context [advance now ?q] =>
      destruct (advance_effect now q) as (_ & H2 & H3 & H4 & _) end.
    simpl in *. rewrite H2, H3, H4. lia.
Qed.

Lemma step_untimed_inv (ev : Event) (p p' : Page) :
  forallb checkable (currentQuestions p) = true ->
  untimed_inv p -> step ev p = Some p' ->
  untimed_inv p' /\ currentQuestions p' = currentQuestions p.
Proof.
  intros Hall Hinv Hstep.
  pose proof (step_records_match_advances ev p p' Hall
                (proj1 (proj2 (proj2 Hinv))) Hstep) as Hrm.
  destruct Hinv as (Ht & Hi & _ & Hp1 & Hle & Hshown).
  unfold step in Hstep. destruct (enabled ev p) eqn:Hen; [|discriminate].
  injection Hstep as <-. unfold untimed_inv.
  destruct ev as [now a | now h | now]; simpl handler in *.
  - simpl in Hen. destruct (shown_question p) as [i|] eqn:Hs; [|discriminate].
    assert (pending_advances p = 0%nat) as Hp0 by (apply Hshown; discriminate).
    destruct (handleAnswer_effect now (JStr a) p) as (H1 & H2 & H3 & H4 & H5).
    rewrite H1, H2, H3, H4.
    destruct H5 as [(Ha & Hp & Hsq) | (q & r & Hq & Ha & _ & _ & Hp)].
    + rewrite Hp, Hsq. repeat split; try assumption. intros _. exact Hp0.
    + destruct Hp as [(_ & Hp & Hsq) | (Hc & _)];
        [|exfalso; exact (checkable_never_raises (JStr a) q p Hall Hq eq_refl Hc)].
      rewrite Hp, Hsq.
      assert (currentIndex p < List.length (currentQuestions p))%nat as Hlt
        by (apply nth_error_Some; rewrite Hq; discriminate).
      repeat split; try assumption; try lia. intros []. reflexivity.
  - simpl in Hen. rewrite Hi in Hen. apply bool_decide_eq_true in Hen. set_solver.
  - simpl in Hen. apply Nat.ltb_lt in Hen.
    assert (pending_advances p = 1%nat) as Hp by lia.
    revert Hrm. js_unfold. simpl. intros Hrm.
    match goal with |- context [advance now ?q] =>
      destruct (advance_effect now q) as (H1 & H2 & H3 & H4 & H5 & H6) end.
    simpl in *. destruct (H5 Ht) as [Ht' Hs'].
    rewrite Hp in *. simpl in *.
    rewrite H1, H2, H4, Ht', Hs'.
    repeat split; try assumption; try lia.
Qed.

End LessonInvariants.

Section LessonOpening.
Context `{JSON}.

Lemma opened_fresh (container timer_el : bool) (type : string) (now : Z)
    (response : completion LessonPayload) :
  let p := opened container timer_el type now response in
  answers p = [] /\ currentIndex p = 0%nat /\ pending_advances p = 0%nat /\
  (is_sprint type && timer_el = false ->
   lessonTimer p = None /\ intervals (sched p) = ∅).
Proof.
  unfold opened, initLesson. js_unfold. simpl.
  destruct container; simpl; [|repeat split].
  destruct response as [l|e]; simpl; [|repeat split].
  destruct (default [] (questions l)) as [|q qs] eqn:Hq; simpl; [repeat split|].
  destruct (is_sprint type) eqn:Hs; simpl.
  - unfold setupTimer. js_unfold. simpl. destruct timer_el; simpl.
    + match goal with |- context [renderCurrentQuestion now ?q] =>
        pose proof (renderCurrentQuestion_effect now q) as HR;
        destruct (renderCurrentQuestion now q) as [s' [[]|e']] end;
        simpl in *; destruct HR as (_ & H2 & H3 & H4 & _);
        repeat split; try assumption; discriminate.
    + match goal with |- context [renderCurrentQuestion now ?q] =>
        pose proof (renderCurrentQuestion_effect now q) as HR;
        destruct (renderCurrentQuestion now q) as [s' [[]|e']] end;
        simpl in *; destruct HR as (_ & H2 & H3 & H4 & H5 & _);
        (split; [|split; [|split]]; try assumption; intros _;
         destruct (H5 eq_refl) as [Ht Hsch]; rewrite Ht, Hsch; split; reflexivity).
  - match goal with |- context [renderCurrentQuestion now ?q] =>
      pose proof (renderCurrentQuestion_effect now q) as HR;
      destruct (renderCurrentQuestion now q) as [s' [[]|e']] end;
      simpl in *; destruct HR as (_ & H2 & H3 & H4 & H5 & _);
      (split; [|split; [|split]]; try assumption; intros _;
         destruct (H5 eq_refl) as [Ht Hsch]; rewrite Ht, Hsch; split; reflexivity).
Qed.

Lemma opened_records_match_advances (container timer_el : bool) (type : string)
    (now : Z) (response : completion LessonPayload) :
  records_match_advances (opened container timer_el type now response).
Proof.
  destruct (opened_fresh container timer_el type now response) as (Ha & Hi & Hp & _).
  unfold records_match_advances. rewrite Ha, Hi, Hp. reflexivity.
Qed.

Lemma opened_untimed_inv (container timer_el : bool) (type : string)
    (now : Z) (response : completion LessonPayload) :
  is_sprint type && timer_el = false ->
  untimed_inv (opened container timer_el type now response).
Proof.
  intros Hno.
  pose proof (opened_records_match_advances container timer_el type now response) as Hrm.
  destruct (opened_fresh container timer_el type now response) as (Ha & Hi & Hp & Ht).
  destruct (Ht Hno) as [Ht1 Ht2]. unfold untimed_inv.
  rewrite Hi, Hp. repeat split; try assumption; lia.
Qed.

Lemma opened_currentQuestions (container timer_el : bool) (type : string) (now : Z)
    (response : completion LessonPayload) :
  currentQuestions (opened container timer_el type now response) = []
  \/ currentQuestions (opened container timer_el type now response) = questions_of response.
Proof.
  unfold opened, initLesson. js_unfold. simpl.
  destruct container; simpl; [|left; reflexivity].
  destruct response as [l|e]; simpl; [|left; reflexivity].
  destruct (default [] (questions l)) as [|q qs] eqn:Hq; simpl; [left; exact Hq|].
  right.
  destruct (is_sprint type); simpl.
  - unfold setupTimer. js_unfold. simpl. destruct timer_el; simpl;
      match goal with |- context [renderCurrentQuestion now ?q] =>
        pose proof (renderCurrentQuestion_effect now q) as HR;
        destruct (renderCurrentQuestion now q) as [s' [[]|e']] end;
      simpl in *; destruct HR as (H1 & _); rewrite H1; exact Hq.
  - match goal with |- context [renderCurrentQuestion now ?q] =>
      pose proof (renderCurrentQuestion_effect now q) as HR;
      destruct (renderCurrentQuestion now q) as [s' [[]|e']] end;
      simpl in *; destruct HR as (H1 & _); rewrite H1; exact Hq.
Qed.





(** C3, as amended.  When the lesson that arrives has no questions, no
    session is started: the page shows the "No Questions Available" notice
    and nothing else, no renderer and no timer are created, no task is
    pending and [handleAnswer] records nothing.  [initLesson] itself
    returns normally; no error is raised. *)
Theorem empty_lesson_shows_notice
    (timer_el : bool) (type : string) (now : Z) (lesson : LessonPayload) :
  default [] (questions lesson) = [] ->
  snd (initLesson type now (Normal lesson) (page0 true timer_el)) = Normal tt /\
  let p := opened true timer_el type now (Normal lesson) in
  log p = [LoadingShow; ShowEmptyState; LoadingHide] /\
  questionRenderer p = false /\
  lessonTimer p = None /\
  answers p = [] /\
  (forall ev, step ev p = None) /\
  (forall now' answer, fst (handleAnswer now' answer p) = p).
Proof.
  intros Hq. unfold opened, initLesson, bind, gets, modify, emit, lift, catch, finally.
  simpl. rewrite Hq. simpl.
  repeat split.
  - intros [now' a | now' h | now']; unfold step; simpl; [reflexivity| |reflexivity].
    rewrite bool_decide_eq_false_2; [reflexivity | set_solver].
  - intros now' answer. unfold handleAnswer, bind, gets. simpl. rewrite Hq. reflexivity.
Qed.

End LessonOpening.

Section TimerExpiry.
Context `{JSON}.

(** The last tick of the per-question timer submits [null] for the current
    question and shows the verdict of the ordinary comparison. *)
Lemma expiry_submits_null (now : Z) (p : Page) (t : Timer) (question : Question) :
  lessonTimer p = Some t ->
  (remaining t <= 1)%Z ->
  onComplete t = true ->
  timer_perQuestion p = true ->
  nth_error (currentQuestions p) (currentIndex p) = Some question ->
  questionRenderer p = true ->
  checkable question = true ->
  let p' := fst (timer_fire now p) in
  let correctAnswer := spec_decoded (q_correct_answer question) in
  exists r,
    answers p' = (answers p ++ [r])%list /\
    user_answer r = JNull /\
    question_id r = q_id question /\
    pending_advances p' = S (pending_advances p) /\
    currentIndex p' = currentIndex p /\
    In (ShowResult (same_text "null" (ToString correctAnswer)) correctAnswer) (log p').
Proof.
  intros Ht Hrem Hc Hpq Hq Hr Hck. unfold timer_fire. js_unfold. simpl. rewrite Ht.
  unfold Timer_tick. simpl.
  assert ((remaining t - 1 <=? 0)%Z = true) as -> by (apply Z.leb_le; lia).
  destruct (Timer_stop (set_remaining (remaining t - 1) t) (sched p)) as [t' sch'] eqn:Hs.
  assert (onComplete t' = true) as Hc'.
  { unfold Timer_stop in Hs. simpl in Hs.
    destruct (interval t); injection Hs as <- <-; exact Hc. }
  rewrite Hc'. simpl.
  rewrite !existsb_app. simpl. rewrite !orb_true_r. simpl.
  unfold onComplete_lesson. js_unfold. simpl. rewrite Hpq.
  unfold handleAnswer. js_unfold. simpl. rewrite Hq, Hr. simpl.
  rewrite (check_answer_normal JNull question eq_refl Hck). simpl.
  eexists. repeat split.
  rewrite !in_app_iff. left. right. left. reflexivity.
Qed.

Lemma null_answer_verdict (correctAnswer : JSValue) :
  isCorrect JNull correctAnswer = Normal true <->
  ToPrimitive_raises correctAnswer = false /\
  trim (toLowerCase (ToString correctAnswer)) = "null".
Proof.
  unfold isCorrect, String_. cbn [ToPrimitive_raises ToString bindc].
  destruct (ToPrimitive_raises correctAnswer); cbn [bindc].
  - split; [discriminate | intros [Hf _]; discriminate].
  - unfold same_text. change (trim (toLowerCase "null")) with "null".
    destruct (String.eqb_spec "null" (trim (toLowerCase (ToString correctAnswer))))
      as [Heq | Hne].
    + split; [intros _; split; [reflexivity | symmetry; exact Heq] | reflexivity].
    + split; [discriminate | intros [_ Heq]; congruence].
Qed.

End TimerExpiry.

(** ** The sample lessons *)

Lemma empty_lesson_shows_notice_witness :
  snd (initLesson "daily" 0 (Normal no_questions) (page0 true true)) = Normal tt /\
  log (opened true true "daily" 0 (Normal no_questions))
  = [LoadingShow; ShowEmptyState; LoadingHide].
Proof.
  destruct (empty_lesson_shows_notice true "daily" 0 no_questions eq_refl)
    as (Hc & Hl & _).
  split; [exact Hc | exact Hl].
Defined.

(** C3, the claim as first stated fails: opening a lesson whose payload
    holds no question returns normally. *)
Lemma empty_lesson_raises_nothing :
  snd (initLesson "daily" 0 (Normal no_questions) (page0 true true)) = Normal tt /\
  ~ (exists e, snd (initLesson "daily" 0 (Normal no_questions) (page0 true true))
               = Throw e).
Proof. split; [reflexivity | intros [e He]; discriminate He]. Qed.



(** The page of [daily_object] while its first question is on display:
    every click stores a record and throws, and nothing else can run. *)
Lemma object_question_holds_the_page (evs : list Event) (p p' : Page) :
  currentQuestions p = [q_object; q_greeting] ->
  currentIndex p = 0%nat ->
  pending_advances p = 0%nat ->
  questionRenderer p = true ->
  intervals (sched p) = ∅ ->
  submissions (log p) = [] ->
  run evs p = Some p' ->
  currentIndex p' = 0%nat /\ pending_advances p' = 0%nat /\
  submissions (log p') = [] /\
  List.length (answers p') = (List.length (answers p) + List.length evs)%nat.
Proof.
  revert p. induction evs as [|ev evs IH]; intros p Hqs Hi Hp Hr Hs Hl Hrun;
    simpl in Hrun.
  - injection Hrun as <-. simpl. repeat split; try assumption. lia.
  - unfold step in Hrun. destruct (enabled ev p) eqn:Hen; [|discriminate].
    destruct ev as [now a | now h | now]; simpl in Hen.
    + simpl handler in Hrun.
      assert (handleAnswer now (JStr a) p
              = (set_log (log p ++ [SelectAnswer (JStr a)])%list
                   (set_answers
                      (answers p ++
                       [{| question_id := q_id q_object;
                           user_answer := JStr a;
                           time_taken_ms := now - startTime p;
                           question_text :=
                             js_or (js_or (q_question q_object) (q_sentence q_object))
                                   (JStr EmptyString);
                           correct_answer := q_correct_answer q_object;
                           options := q_options q_object |}])%list p),
                 Throw TypeError)) as Hh.
      { unfold handleAnswer. js_unfold. simpl. rewrite Hqs, Hi, Hr. simpl.
        reflexivity. }
      rewrite Hh in Hrun. simpl in Hrun.
      apply IH in Hrun; simpl; try assumption.
      * destruct Hrun as (H1 & H2 & H3 & H4). repeat split; try assumption.
        simpl in H4. rewrite length_app in H4. simpl in H4. lia.
      * unfold submissions in *. rewrite omap_app, Hl. reflexivity.
    + rewrite Hs in Hen. apply bool_decide_eq_true in Hen. set_solver.
    + rewrite Hp in Hen. discriminate.
Qed.

(** C6, on a stored answer that decodes to an object with a property named
    [toString].  The decoding succeeds, and [String(correctAnswer)], which
    stands outside the [try], throws a TypeError.  [handleAnswer] has
    stored the record by then and stops there: no result is shown, the
    option buttons stay enabled and no advance is queued, so that whatever
    happens on the page afterwards the lesson stays on this question and
    is never submitted, while every further click stores one more record. *)
Theorem decoded_object_answer_raises :
  check_answer (JStr "valueOf") q_object = Throw TypeError /\
  let p := opened true false "daily" 0 (Normal daily_object) in
  let p1 := fst (handleAnswer 4000 (JStr "valueOf") p) in
  snd (handleAnswer 4000 (JStr "valueOf") p) = Throw TypeError /\
  run [Click 4000 "valueOf"] p = Some p1 /\
  List.map user_answer (answers p1) = [JStr "valueOf"] /\
  log p1 = [LoadingShow; RenderQuestion 0 2; LoadingHide; SelectAnswer (JStr "valueOf")] /\
  shown_question p1 = Some 0%nat /\
  pending_advances p1 = 0%nat /\
  (forall evs p',
      run evs p1 = Some p' ->
      currentIndex p' = 0%nat /\
      submissions (log p') = [] /\
      List.length (answers p') = S (List.length evs)).
Proof.
  split; [reflexivity|]. cbv zeta.
  split; [reflexivity|]. split; [reflexivity|]. split; [reflexivity|].
  split; [reflexivity|]. split; [reflexivity|]. split; [reflexivity|].
  intros evs p' Hrun.
  apply object_question_holds_the_page in Hrun; try reflexivity.
  destruct Hrun as (H1 & _ & H3 & H4). split; [exact H1|]. split; [exact H3|].
  rewrite H4. reflexivity.
Qed.

Lemma decoded_object_answer_raises_witness :
  exists p',
    run [Click 5000 "toString"; Click 6000 "valueOf"]
        (fst (handleAnswer 4000 (JStr "valueOf")
                (opened true false "daily" 0 (Normal daily_object)))) = Some p' /\
    currentIndex p' = 0%nat /\
    List.length (answers p') = 3%nat.
Proof.
  destruct decoded_object_answer_raises as (_ & _ & _ & _ & _ & _ & _ & Hstay).
  destruct (run [Click 5000 "toString"; Click 6000 "valueOf"]
                (fst (handleAnswer 4000 (JStr "valueOf")
                        (opened true false "daily" 0 (Normal daily_object)))))
    as [p'|] eqn:Hrun; [|vm_compute in Hrun; discriminate Hrun].
  exists p'. split; [reflexivity|].
  destruct (Hstay _ p' Hrun) as (Hi & _ & Hn). split; [exact Hi | exact Hn].
Defined.

(** C2, on a sprint question whose correct answer is the word "null": the
    twentieth tick submits [null], the record is stored and the cursor
    advances a second later without any click, but the comparison of
    [String(null)] with the stored answer scores the time-out as correct. *)
Theorem timed_out_answer_scored_correct :
  exists p p',
    run (seconds 1 20) (opened true true "grammar-sprint" 0 (Normal sprint_one)) = Some p /\
    List.map user_answer (answers p) = [JNull] /\
    In (ShowResult true (JStr "null")) (log p) /\
    currentIndex p = 0%nat /\
    run [Advance 21000] p = Some p' /\
    currentIndex p' = 1%nat.
Proof.
  eexists _, _. split; [vm_compute; reflexivity|].
  split; [vm_compute; reflexivity|].
  split; [vm_compute; tauto|].
  split; [vm_compute; reflexivity|].
  split; vm_compute; reflexivity.
Qed.

(** ** The conversation page *)

Section SpeakingFacts.
Context `{JSON}.

(** A request that is rejected, or whose body is not JSON, leaves the
    transcript, the turn display and the timeout queue as they were and
    shows the error toast. *)
Lemma rejected_reply_leaves_transcript (fetched : FetchResult) (e : JSError) (t : Talk) :
  fetch_json fetched = Throw e ->
  trim (input_value t) <> EmptyString ->
  let t' := fst (sendTextResponse fetched t) in
  conversationHistory t' = conversationHistory t /\
  current_turn t' = current_turn t /\
  queued t' = queued t /\
  screen t' = (screen t ++ [TLoadingShow; TToastError "Failed to send message";
                            TLoadingHide])%list.
Proof.
  intros Hf Hin. unfold sendTextResponse. js_unfold. simpl.
  destruct (trim (input_value t) =? EmptyString) eqn:He.
  - apply String.eqb_eq in He. contradiction.
  - simpl. rewrite Hf. simpl. rewrite <- !app_assoc. repeat split.
Qed.

End SpeakingFacts.

(** C7, on a reply that reports the provider's failure with an error status
    and a JSON body: [roleplayRespond] does not look at the status, so
    [handleRoleplayResponse] runs on the error body and appends a user turn
    whose text is [undefined] before the missing analysis makes it throw;
    the turn display is overwritten as well.  Only then is the error toast
    shown. *)
Theorem failed_reply_records_a_turn :
  let t' := fst (sendTextResponse provider_failure roleplay_open) in
  conversationHistory t'
  = (conversationHistory roleplay_open ++ [{| text := JUndefined; isAi := false |}])%list /\
  current_turn t' = Some JUndefined /\
  screen t' = [TLoadingShow; Bubble {| text := JUndefined; isAi := false |};
               TToastError "Failed to send message"; TLoadingHide].
Proof. vm_compute. repeat split. Qed.

(** The free-talk path has the same gap, and its queued timeout adds an AI
    turn without text half a second later. *)
Lemma failed_free_talk_reply_records_turns :
  let t' := fst (sendFreeTalkText provider_failure freetalk_open) in
  conversationHistory t' = [{| text := JUndefined; isAi := false |}] /\
  conversationHistory (fst (ai_bubble t'))
  = [{| text := JUndefined; isAi := false |}; {| text := JUndefined; isAi := true |}].
Proof. vm_compute. repeat split. Qed.

Lemma get_prop_total (obj : JSValue) (k k' : string) (a : JSValue) :
  get_prop obj k = Normal a -> exists a', get_prop obj k' = Normal a'.
Proof. destruct obj; simpl; intros Hk; try discriminate; eexists; reflexivity. Qed.

(** ** Levels *)

Ltac decide_bounds :=
  repeat match goal with
         | |- context [(?a <=? ?b)%Z] => destruct (Z.leb_spec a b); try lia; simpl
         | |- context [(?a <? ?b)%Z] => destruct (Z.ltb_spec a b); try lia; simpl
         end.

Ltac in_level k lo hi nx :=
  exists k, {| Dashboard.min := lo; Dashboard.max := hi; Dashboard.next := nx |};
  split; [unfold level_of_xp; simpl; decide_bounds; reflexivity
         | split; [reflexivity | simpl; lia]].

Lemma level_of_xp_in_range (total : Z) :
  (0 <= total < 20000)%Z ->
  exists level info,
    level_of_xp total = Some level /\
    Dashboard.lookup_level level Dashboard.levelThresholds = Some info /\
    (Dashboard.min info <= total < Dashboard.max info)%Z.
Proof.
  intros Hr.
  destruct (Z.lt_ge_cases total 500); [in_level "A1" 0%Z 500%Z "A2"|].
  destruct (Z.lt_ge_cases total 1500); [in_level "A2" 500%Z 1500%Z "B1"|].
  destruct (Z.lt_ge_cases total 3500); [in_level "B1" 1500%Z 3500%Z "B2"|].
  destruct (Z.lt_ge_cases total 7000); [in_level "B2" 3500%Z 7000%Z "C1"|].
  destruct (Z.lt_ge_cases total 12000); [in_level "C1" 7000%Z 12000%Z "C2"|].
  in_level "C2" 12000%Z 20000%Z "Max".
Qed.

Lemma showResults_rank (u : User) (result : LessonResult) :
  engine_result u result ->
  (rank (cefr_level u) <= rank (cefr_level (showResults u result)))%nat.
Proof.
  unfold engine_result, level_step, showResults. simpl. intros He.
  destruct (rank (cefr_level u) <? rank (level_of_xp (xp_total u + xp_earned result)))%nat
    eqn:Hlt; injection He as Hup Hnew; rewrite Hup.
  - rewrite Hnew. apply Nat.ltb_lt in Hlt. lia.
  - lia.
Qed.

(** C9.  The threshold table lists A1, A2, B1, B2, C1, C2 in ascending
    order with contiguous ranges, A1 covering [0,500) and A2 [500,1500);
    the level lookup takes the post-award total to the range that contains
    it; and over any succession of scoring events the learner's level never
    decreases. *)
Theorem cefr_level_never_decreases :
  List.map fst Dashboard.levelThresholds = ["A1"; "A2"; "B1"; "B2"; "C1"; "C2"] /\
  ascending_contiguous Dashboard.levelThresholds /\
  Dashboard.lookup_level "A1" Dashboard.levelThresholds
  = Some {| Dashboard.min := 0; Dashboard.max := 500; Dashboard.next := "A2" |} /\
  Dashboard.lookup_level "A2" Dashboard.levelThresholds
  = Some {| Dashboard.min := 500; Dashboard.max := 1500; Dashboard.next := "B1" |} /\
  (forall u result,
      engine_result u result ->
      level_up result = true ->
      new_level result = level_of_xp (xp_total (showResults u result)) /\
      (rank (cefr_level u) < rank (new_level result))%nat) /\
  (forall total, (0 <= total < 20000)%Z ->
      exists level info,
        level_of_xp total = Some level /\
        Dashboard.lookup_level level Dashboard.levelThresholds = Some info /\
        (Dashboard.min info <= total < Dashboard.max info)%Z) /\
  (forall u u', scoring_events u u' ->
      (rank (cefr_level u) <= rank (cefr_level u'))%nat).
Proof.
  split; [reflexivity|]. split; [simpl; repeat split; lia|].
  split; [reflexivity|]. split; [reflexivity|]. split; [|split].
  - intros u result He Hup. unfold engine_result, level_step in He. simpl.
    destruct (rank (cefr_level u) <? rank (level_of_xp (xp_total u + xp_earned result)))%nat
      eqn:Hlt; injection He as Hup' Hnew; [|congruence].
    rewrite Hnew. split; [reflexivity | apply Nat.ltb_lt, Hlt].
  - apply level_of_xp_in_range.
  - intros u u' Hev. induction Hev as [u | u u' result He _ IH]; [lia|].
    pose proof (showResults_rank u result He). lia.
Qed.

Lemma cefr_level_never_decreases_witness :
  cefr_level (showResults learner_490 result_20) = Some "A2" /\
  (rank (cefr_level learner_490)
   <= rank (cefr_level (showResults learner_490 result_20)))%nat.
Proof.
  split; [reflexivity|].
  destruct cefr_level_never_decreases as (_ & _ & _ & _ & _ & _ & Hmono).
  apply Hmono. apply (events_next _ _ result_20); [reflexivity | apply events_none].
Defined.

(** ** The API client *)

Section ApiFacts.
Context `{JSON}.

(** C10.  A response with status 401 removes the stored token and the
    cached user before [request] throws, so that [isAuthenticated] is false
    afterwards; whatever else [fetch] settles to, the stored token and user
    stay as they were. *)
Theorem unauthorized_clears_credentials (fetched : FetchResult) (b : Browser) :
  (forall r, fetched = Responded r -> status r = 401%Z ->
     snd (request fetched b) = Throw (ErrorMsg "Unauthorized") /\
     localStorage (fst (request fetched b)) !! "token" = None /\
     localStorage (fst (request fetched b)) !! "user" = None /\
     isAuthenticated (fst (request fetched b)) = false) /\
  ((forall r, fetched = Responded r -> status r <> 401%Z) ->
     localStorage (fst (request fetched b)) = localStorage b).
Proof.
  split.
  - intros r -> Hs. unfold request, isAuthenticated, getToken, clearToken, console_error.
    js_unfold. simpl. rewrite Hs. simpl.
    assert (delete "user" (delete "token" (localStorage b)) !! "token" = None) as Ht.
    { rewrite lookup_delete_ne by discriminate. apply lookup_delete_eq. }
    rewrite Ht. repeat split. apply lookup_delete_eq.
  - intros Hne. unfold request, console_error. js_unfold.
    destruct fetched as [|r]; simpl; [reflexivity|].
    specialize (Hne r eq_refl). apply Z.eqb_neq in Hne. rewrite Hne. simpl.
    destruct (JSON_parse (body r)) as [data|e]; simpl; [|reflexivity].
    destruct (ok r); simpl; [reflexivity|].
    destruct (get_prop data "detail") as [detail|e]; simpl; [|reflexivity].
    destruct (String_ (js_or detail (JStr "Request failed"))); reflexivity.
Qed.

End ApiFacts.

Lemma unauthorized_clears_credentials_witness :
  isAuthenticated signed_in = true /\
  isAuthenticated
    (fst (request (Responded {| status := 401; body := dq "{'detail': 'expired'}" |})
                  signed_in)) = false /\
  localStorage
    (fst (request (Responded {| status := 500; body := dq "{'detail': 'down'}" |})
                  signed_in)) = localStorage signed_in.
Proof.
  split; [reflexivity|]. split.
  - destruct (unauthorized_clears_credentials
                (Responded {| status := 401; body := dq "{'detail': 'expired'}" |})
                signed_in) as [H401 _].
    apply (H401 _ eq_refl eq_refl).
  - destruct (unauthorized_clears_credentials
                (Responded {| status := 500; body := dq "{'detail': 'down'}" |})
                signed_in) as [_ Hother].
    apply Hother. intros r Hr. injection Hr as <-. simpl. lia.
Defined.

(** ** Worked examples *)

Example JSON_parse_quoted :
  JSON_parse_text (dq "'Hello'") = Some (Normal (JStr "Hello")).
Proof. reflexivity. Qed.

Example JSON_parse_bare_word : JSON_parse_text "Hello" = Some (Throw SyntaxError).
Proof. reflexivity. Qed.

Example JSON_parse_object :
  JSON_parse_text (dq "{ 'a': [1, -20, null], 'b': {'c': true} }")
  = Some (Normal (JObj [("a", JArr [JNum 1; JNum (-20); JNull]);
                        ("b", JObj [("c", JBool true)])])).
Proof. reflexivity. Qed.

Example JSON_parse_trailing_comma : JSON_parse_text "[1,]" = Some (Throw SyntaxError).
Proof. reflexivity. Qed.

Example JSON_parse_fraction_unmodelled : JSON_parse_text "1.50" = None.
Proof. reflexivity. Qed.

Example ToString_array :
  ToString (JArr [JNum 1; JNull; JArr [JStr "a"; JBool true]; JObj []])
  = "1,,a,true,[object Object]".
Proof. reflexivity. Qed.

Example trim_both_ends : trim "  Good  Morning " = "Good  Morning".
Proof. reflexivity. Qed.

Example check_answer_decodes_wrapper :
  check_answer (JStr " good MORNING") q_greeting = Normal (true, JStr "Good morning").
Proof. reflexivity. Qed.

Example check_answer_wrong :
  check_answer (JStr "Good night") q_greeting = Normal (false, JStr "Good morning").
Proof. reflexivity. Qed.

Example check_answer_raw_text :
  check_answer (JStr "hello") q_raw = Normal (true, JStr "Hello").
Proof. reflexivity. Qed.

Example check_answer_number :
  check_answer (JStr "42")
    {| q_id := JNum 9; q_type := JStr "multiple_choice";
       q_question := JStr "6 x 7"; q_sentence := JUndefined;
       q_correct_answer := JStr "42"; q_options := ["42"; "36"] |}
  = Normal (true, JNum 42).
Proof. reflexivity. Qed.

Lemma timer_step_counting (h : positive) (s : TimerSys) :
  h ∈ intervals (tsch s) ->
  (1 < remaining (tm s))%Z ->
  timer_step (OpFire h) s
  = Some {| tm := set_remaining (remaining (tm s) - 1) (tm s);
            tsch := tsch s;
            out := (out s ++ Timer_update (set_remaining (remaining (tm s) - 1) (tm s))
                          ++ (if onTick (tm s) then [OnTick (remaining (tm s) - 1)]
                              else []))%list |}.
Proof.
  intros Hin Hr. unfold timer_step. rewrite decide_True by exact Hin.
  unfold Timer_tick. cbn [remaining set_remaining onTick].
  assert ((remaining (tm s) - 1 <=? 0)%Z = false) as -> by (apply Z.leb_gt; lia).
  reflexivity.
Qed.

Lemma timer_step_last (h : positive) (s : TimerSys) :
  interval (tm s) = Some h ->
  h ∈ intervals (tsch s) ->
  (remaining (tm s) <= 1)%Z ->
  onComplete (tm s) = true ->
  exists s',
    timer_step (OpFire h) s = Some s' /\
    completions s' = S (completions s) /\
    interval (tm s') = None /\
    intervals (tsch s') = intervals (tsch s) ∖ {[ h ]}.
Proof.
  destruct s as [t sch o]. cbn [tm tsch out]. intros Hi Hin Hr Hc.
  unfold timer_step. cbn [tm tsch out]. rewrite decide_True by exact Hin.
  unfold Timer_tick. cbn [remaining set_remaining onTick].
  assert ((remaining t - 1 <=? 0)%Z = true) as -> by (apply Z.leb_le; lia).
  unfold Timer_stop. cbn [interval set_remaining]. rewrite Hi.
  change (onComplete (set_interval None (set_remaining (remaining t - 1) t)))
    with (onComplete t).
  rewrite Hc. eexists. split; [reflexivity|].
  rewrite completions_app, !List.filter_app, !length_app, Timer_update_no_complete.
  repeat split. unfold completions. simpl. destruct (onTick t); simpl; lia.
Qed.

(** A countdown that is left alone completes exactly once, on the tick that
    brings the remaining time to zero, and stops itself. *)
Lemma countdown_completes_once (n : nat) (s : TimerSys) (h : positive) :
  interval (tm s) = Some h ->
  intervals (tsch s) = {[ h ]} ->
  remaining (tm s) = Z.of_nat (S n) ->
  onComplete (tm s) = true ->
  exists s',
    timer_run (repeat (OpFire h) (S n)) s = Some s' /\
    completions s' = S (completions s) /\
    interval (tm s') = None /\
    intervals (tsch s') = ∅.
Proof.
  revert s. induction n as [|n IH]; intros s Hi Hs Hr Hc.
  - destruct (timer_step_last h s Hi) as (s' & Hstep & Hcount & Hi' & Hs');
      [rewrite Hs; set_solver | lia | exact Hc |].
    exists s'. cbn [repeat timer_run]. rewrite Hstep.
    repeat split; try assumption. rewrite Hs', Hs. set_solver.
  - change (repeat (OpFire h) (S (S n))) with (OpFire h :: repeat (OpFire h) (S n)).
    cbn [timer_run]. rewrite timer_step_counting by (rewrite ?Hs; try set_solver; lia).
    match goal with |- context [timer_run _ ?s1] =>
      destruct (IH s1) as (s' & Hrun & Hcount & Hi' & Hs') end;
      cbn [tm tsch interval remaining set_remaining onComplete]; try assumption; [lia|].
    exists s'. split; [exact Hrun|]. split; [|split; assumption].
    rewrite Hcount. destruct s as [t sch o]. cbn [tm tsch out].
    rewrite completions_app, !List.filter_app, !length_app, Timer_update_no_complete.
    unfold completions. simpl. destruct (onTick t); simpl; lia.
Qed.

(** ** The Timer, continued *)












(** ** formatTime *)

Lemma string_of_Z_inj (a b : Z) : string_of_Z a = string_of_Z b -> a = b.
Proof.
  unfold string_of_Z. intros Heq.
  assert (forall z, NilZero.int_of_string (NilZero.string_of_int (Z.to_int z))
                    = Some (Z.to_int z)) as Hisi.
  { intros z. apply NilZero.isi; destruct z; simpl; intros [= Hz];
      try discriminate; exact (DecimalPos.Unsigned.to_uint_nonnil _ Hz). }
  pose proof (Hisi a) as Ha. rewrite Heq, Hisi in Ha. injection Ha as Ha.
  rewrite <- (DecimalZ.of_to a), <- (DecimalZ.of_to b), Ha. reflexivity.
Qed.

Lemma two_digit_seconds (n : nat) :
  (n < 60)%nat ->
  padStart 2 "0" (string_of_Z (Z.of_nat n))
  = String (digit_char (Z.of_nat n / 10)) (String (digit_char (Z.of_nat n mod 10)) EmptyString).
Proof.
  intros Hn. do 60 (destruct n as [|n]; [reflexivity|]). lia.
Qed.

Lemma length_append (a b : string) :
  String.length (a ++ b) = (String.length a + String.length b)%nat.
Proof. induction a as [|c a IH]; simpl; [reflexivity | rewrite IH; reflexivity]. Qed.

Lemma append_eq_length_inj (a b x y : string) :
  String.length x = String.length y ->
  (a ++ ":" ++ x = b ++ ":" ++ y) -> a = b /\ x = y.
Proof.
  intros Hlen Heq.
  assert (String.length a = String.length b) as Hab.
  { apply (f_equal String.length) in Heq. rewrite !length_append in Heq.
    simpl in Heq. lia. }
  clear Hlen. revert b Hab Heq. induction a as [|c a IH]; intros [|d b] Hab Heq;
    simpl in *; try discriminate.
  - injection Heq as Heq. split; [reflexivity | exact Heq].
  - injection Heq as Hc Heq. injection Hab as Hab.
    destruct (IH b Hab Heq) as [-> ->]. subst. split; reflexivity.
Qed.

(** X3.  For a whole number of seconds from 0 to 2^53 - 1, the range in
    which the division and the remainder of the doubles are those of the
    integers, [formatTime] shows the minutes, a colon and exactly two
    digits of seconds, and different times give different texts. *)
Theorem formatTime_minutes_and_two_digits (seconds : Z) :
  (0 <= seconds < 2 ^ 53)%Z ->
  formatTime seconds
  = string_of_Z (seconds / 60) ++ ":" ++
    String (digit_char (seconds mod 60 / 10))
           (String (digit_char (seconds mod 60 mod 10)) EmptyString) /\
  (forall other, (0 <= other < 2 ^ 53)%Z -> formatTime other = formatTime seconds ->
                 other = seconds).
Proof.
  intros [Hs0 _].
  cut ((0 <= seconds)%Z ->
       formatTime seconds
       = string_of_Z (seconds / 60) ++ ":" ++
         String (digit_char (seconds mod 60 / 10))
                (String (digit_char (seconds mod 60 mod 10)) EmptyString) /\
       (forall other, (0 <= other)%Z -> formatTime other = formatTime seconds ->
                      other = seconds)).
  { intros Hcut. destruct (Hcut Hs0) as [Hf Hinj]. split; [exact Hf|].
    intros other [Ho _]. apply Hinj. exact Ho. }
  clear Hs0.
  assert (forall s, (0 <= s)%Z ->
            formatTime s
            = string_of_Z (s / 60) ++ ":" ++
              String (digit_char (s mod 60 / 10))
                     (String (digit_char (s mod 60 mod 10)) EmptyString)) as Hfmt.
  { intros s Hs. unfold formatTime. cbv zeta.
    rewrite Z.rem_mod_nonneg by lia.
    pose proof (Z.mod_pos_bound s 60 ltac:(lia)) as Hb.
    rewrite <- (Z2Nat.id (s mod 60)) by lia.
    rewrite two_digit_seconds by lia. reflexivity. }
  intros Hs. split; [apply Hfmt, Hs|].
  intros other Ho Heq. rewrite (Hfmt other Ho), (Hfmt seconds Hs) in Heq.
  apply append_eq_length_inj in Heq as [Hm Hd]; [|reflexivity].
  apply string_of_Z_inj in Hm. injection Hd as H1 H2.
  pose proof (Z.mod_pos_bound other 60 ltac:(lia)) as Hbo.
  pose proof (Z.mod_pos_bound seconds 60 ltac:(lia)) as Hbs.
  assert (forall x y, (0 <= x < 10)%Z -> (0 <= y < 10)%Z ->
                      digit_char x = digit_char y -> x = y) as Hdig.
  { intros x y Hx Hy Hxy. unfold digit_char in Hxy.
    apply (f_equal N_of_ascii) in Hxy. rewrite !N_ascii_embedding in Hxy by lia. lia. }
  assert (forall r, (0 <= r < 60)%Z -> (0 <= r / 10 < 10)%Z) as Hq.
  { intros r Hr. split; [apply Z.div_pos; lia | apply Z.div_lt_upper_bound; lia]. }
  apply Hdig in H1; [|apply Hq; assumption ..].
  apply Hdig in H2; [|apply Z.mod_pos_bound; lia ..].
  pose proof (Z.div_mod other 60 ltac:(lia)).
  pose proof (Z.div_mod seconds 60 ltac:(lia)).
  pose proof (Z.div_mod (other mod 60) 10 ltac:(lia)).
  pose proof (Z.div_mod (seconds mod 60) 10 ltac:(lia)).
  lia.
Qed.

Lemma formatTime_minutes_and_two_digits_witness :
  formatTime 65 = "1:05" /\
  (formatTime 125 = formatTime 65 -> 125 = 65)%Z.
Proof.
  destruct (formatTime_minutes_and_two_digits 65 ltac:(lia)) as [Hf Hinj].
  split; [exact Hf|]. apply Hinj. lia.
Defined.

(** ** The lesson page and its interval *)

Section LessonInterval.
Context `{JSON}.

Lemma submitLesson_single_interval (now : Z) (p : Page) :
  single_interval p ->
  single_interval (fst (submitLesson now p)) /\
  intervals (sched (fst (submitLesson now p))) = ∅.
Proof.
  unfold single_interval, submitLesson, stop_lessonTimer. js_unfold. simpl.
  intros Hinv. destruct (lessonTimer p) as [t|] eqn:Ht; simpl.
  - unfold Timer_stop. destruct (interval t) as [h|] eqn:Hi; simpl;
      destruct (currentLesson p); simpl; rewrite ?Hi, ?Hinv; split; set_solver.
  - destruct (currentLesson p); simpl; rewrite ?Ht, ?Hinv; split; reflexivity.
Qed.

Lemma renderCurrentQuestion_single_interval (now : Z) (p : Page) :
  single_interval p -> single_interval (fst (renderCurrentQuestion now p)).
Proof.
  intros Hinv. unfold renderCurrentQuestion. js_unfold. simpl.
  destruct (List.length (currentQuestions p) <=? currentIndex p)%nat.
  - apply submitLesson_single_interval, Hinv.
  - destruct (questionRenderer p); simpl; [|exact Hinv].
    destruct (nth_error (currentQuestions p) (currentIndex p)) as [question|]; simpl;
      [|exact Hinv].
    destruct (formatQuestion question); simpl; exact Hinv.
Qed.

Lemma handleAnswer_single_interval (now : Z) (answer : JSValue) (p : Page) :
  single_interval p -> single_interval (fst (handleAnswer now answer p)).
Proof.
  unfold single_interval. intros Hinv.
  destruct (handleAnswer_effect now answer p) as (_ & _ & Ht & Hs & _).
  rewrite Ht, Hs. exact Hinv.
Qed.

Lemma advance_single_interval (now : Z) (p : Page) :
  single_interval p -> single_interval (fst (advance now p)).
Proof.
  intros Hinv. unfold advance. js_unfold. simpl.
  destruct (lessonTimer p) as [t|] eqn:Ht; simpl.
  - destruct (is_sprint (currentLessonType p)); simpl.
    + unfold Timer_reset, Timer_stop, Timer_start, setInterval.
      unfold single_interval in Hinv. rewrite Ht in Hinv.
      destruct (interval t) as [h|] eqn:Hi; simpl;
        apply renderCurrentQuestion_single_interval;
        unfold single_interval; simpl; rewrite Hinv; set_solver.
    + apply renderCurrentQuestion_single_interval.
      unfold single_interval in *. simpl. rewrite Ht in *. exact Hinv.
  - apply renderCurrentQuestion_single_interval.
    unfold single_interval in *. simpl. rewrite Ht in *. exact Hinv.
Qed.

Lemma Timer_tick_single_interval (t : Timer) (sch : Scheduler) :
  intervals sch = match interval t with Some h => {[ h ]} | None => ∅ end ->
  intervals (snd (fst (Timer_tick t sch)))
  = match interval (fst (fst (Timer_tick t sch))) with Some h => {[ h ]} | None => ∅ end.
Proof.
  intros Hinv. unfold Timer_tick, Timer_stop. simpl.
  destruct (remaining t - 1 <=? 0)%Z; [|exact Hinv].
  destruct (interval t) as [h|] eqn:Hi; simpl; rewrite ?Hi, ?Hinv; set_solver.
Qed.

Lemma timer_fire_single_interval (now : Z) (p : Page) :
  single_interval p -> single_interval (fst (timer_fire now p)).
Proof.
  intros Hinv. unfold timer_fire. js_unfold. simpl.
  destruct (lessonTimer p) as [t|] eqn:Ht; simpl; [|exact Hinv].
  unfold single_interval in Hinv. rewrite Ht in Hinv.
  pose proof (Timer_tick_single_interval t (sched p) Hinv) as Htick.
  destruct (Timer_tick t (sched p)) as [[t' sch'] sig]. simpl in *.
  destruct (existsb is_complete_signal sig); simpl.
  - unfold onComplete_lesson. js_unfold. simpl.
    destruct (timer_perQuestion p);
      [apply handleAnswer_single_interval | apply submitLesson_single_interval];
      unfold single_interval; simpl; exact Htick.
  - unfold single_interval. simpl. exact Htick.
Qed.

Lemma step_single_interval (ev : Event) (p p' : Page) :
  single_interval p -> step ev p = Some p' -> single_interval p'.
Proof.
  unfold step. intros Hinv Hstep. destruct (enabled ev p); [|discriminate].
  injection Hstep as <-. destruct ev as [now a | now h | now]; simpl handler.
  - apply handleAnswer_single_interval, Hinv.
  - apply timer_fire_single_interval, Hinv.
  - js_unfold. simpl. apply advance_single_interval. exact Hinv.
Qed.

Lemma opened_single_interval (container timer_el : bool) (type : string) (now : Z)
    (response : completion LessonPayload) :
  single_interval (opened container timer_el type now response).
Proof.
  unfold opened, initLesson. js_unfold. simpl.
  destruct container; simpl; [|reflexivity].
  destruct response as [l|e]; simpl; [|reflexivity].
  destruct (default [] (questions l)) as [|q qs] eqn:Hq; simpl; [reflexivity|].
  destruct (is_sprint type); simpl.
  - unfold setupTimer. js_unfold. simpl. destruct timer_el; simpl;
      lazymatch goal with |- context [renderCurrentQuestion now ?q] =>
        pose proof (renderCurrentQuestion_single_interval now q) as HR;
        destruct (renderCurrentQuestion now q) as [s' [[]|e']] end;
      simpl in *; unfold single_interval in *; simpl in *; apply HR; set_solver.
  - lazymatch goal with |- context [renderCurrentQuestion now ?q] =>
      pose proof (renderCurrentQuestion_single_interval now q) as HR;
      destruct (renderCurrentQuestion now q) as [s' [[]|e']] end;
      simpl in *; unfold single_interval in *; simpl in *; apply HR; set_solver.
Qed.

(** X4.  At every point a lesson page can reach, the browser holds at most
    one live interval for it: the one the lesson Timer remembers, and none
    when there is no Timer or the Timer is stopped.  So two different
    handles are never both due, although [Timer.start] itself does not
    clear an interval that is still running. *)
Theorem lesson_page_keeps_one_interval
    (container timer_el : bool) (type : string) (now : Z)
    (response : completion LessonPayload) (evs : list Event) (p : Page) :
  run evs (opened container timer_el type now response) = Some p ->
  single_interval p /\
  (forall t1 t2 h1 h2,
      enabled (Fire t1 h1) p = true -> enabled (Fire t2 h2) p = true -> h1 = h2).
Proof.
  intros Hrun.
  assert (single_interval p) as Hinv.
  { pose proof (opened_single_interval container timer_el type now response) as H0.
    revert Hrun H0. generalize (opened container timer_el type now response).
    induction evs as [|ev evs IH]; intros p0 Hrun H0; simpl in Hrun.
    - injection Hrun as <-. exact H0.
    - destruct (step ev p0) as [p1|] eqn:Hstep; [|discriminate].
      apply (IH p1 Hrun). eapply step_single_interval; eassumption. }
  split; [exact Hinv|].
  intros t1 t2 h1 h2 H1 H2. simpl in H1, H2.
  apply bool_decide_eq_true in H1, H2. unfold single_interval in Hinv.
  rewrite Hinv in H1, H2.
  destruct (lessonTimer p) as [t|]; [destruct (interval t)|]; set_solver.
Qed.

End LessonInterval.

Lemma lesson_page_keeps_one_interval_witness :
  exists p,
    run (seconds 1 19 ++ [Click 19500 "full"; Fire 20000 1; Advance 20500])%list
        (opened true true "grammar-sprint" 0 (Normal sprint_one)) = Some p /\
    single_interval p.
Proof.
  destruct (run (seconds 1 19 ++ [Click 19500 "full"; Fire 20000 1; Advance 20500])%list
                (opened true true "grammar-sprint" 0 (Normal sprint_one)))
    as [p|] eqn:Hrun; [|vm_compute in Hrun; discriminate Hrun].
  exists p. split; [reflexivity|].
  exact (proj1 (lesson_page_keeps_one_interval true true "grammar-sprint" 0
                  (Normal sprint_one) _ p Hrun)).
Defined.

(** ** A lesson without timer, question by question *)

Lemma nth_error_lookup_eq {A} (l : list A) (i : nat) : nth_error l i = l !! i.
Proof. revert i. induction l as [|x l IH]; intros [|i]; simpl; auto. Qed.

Section Quiz.
Context `{JSON}.

Lemma well_formed_facts (q : Question) :
  well_formed q = true ->
  (exists text, formatQuestion q = Normal text) /\
  plain_markup q = true /\ checkable q = true.
Proof.
  unfold well_formed. destruct (formatQuestion q) as [text|e]; [|discriminate].
  intros Hw. apply andb_true_iff in Hw as [Hp Hc].
  split; [exists text; reflexivity|]. split; assumption.
Qed.

Lemma well_formed_checkable (qs : list Question) :
  forallb well_formed qs = true -> forallb checkable qs = true.
Proof.
  rewrite !forallb_forall. intros Hall q Hq.
  apply (well_formed_facts q (Hall q Hq)).
Qed.

Lemma well_formed_nth (qs : list Question) (i : nat) (q : Question) :
  forallb well_formed qs = true -> nth_error qs i = Some q -> well_formed q = true.
Proof.
  rewrite forallb_forall. intros Hall Hq. apply Hall. eapply nth_error_In. exact Hq.
Qed.

(** [handleAnswer] on a page that shows a question. *)
Lemma handleAnswer_records (now : Z) (answer : JSValue) (question : Question) (p : Page) :
  nth_error (currentQuestions p) (currentIndex p) = Some question ->
  questionRenderer p = true ->
  ToPrimitive_raises answer = false ->
  checkable question = true ->
  let p' := fst (handleAnswer now answer p) in
  exists r,
    answers p' = (answers p ++ [r])%list /\
    user_answer r = answer /\
    question_id r = q_id question /\
    question_text r
    = js_or (js_or (q_question question) (q_sentence question)) (JStr EmptyString) /\
    correct_answer r = q_correct_answer question /\
    options r = q_options question /\
    pending_advances p' = S (pending_advances p) /\
    shown_question p' = None /\
    currentLesson p' = currentLesson p /\
    questionRenderer p' = true /\
    submissions (log p') = submissions (log p).
Proof.
  intros Hq Hr Ha Hc. unfold handleAnswer. js_unfold. simpl. rewrite Hq, Hr. simpl.
  rewrite (check_answer_normal answer question Ha Hc). simpl.
  eexists. repeat split; try reflexivity; try assumption.
  unfold submissions. rewrite !omap_app. simpl. rewrite !app_nil_r. reflexivity.
Qed.

Lemma renderCurrentQuestion_shows (now : Z) (p : Page) (q : Question) :
  questionRenderer p = true ->
  nth_error (currentQuestions p) (currentIndex p) = Some q ->
  well_formed q = true ->
  renderCurrentQuestion now p
  = (set_shown_question (Some (currentIndex p))
       (set_log (log p ++ [RenderQuestion (currentIndex p)
                             (List.length (currentQuestions p))])%list p),
     Normal tt).
Proof.
  intros Hr Hq Hw. destruct (well_formed_facts q Hw) as ([text Htext] & _).
  unfold renderCurrentQuestion. js_unfold.
  assert (currentIndex p < List.length (currentQuestions p))%nat as Hlt
    by (apply nth_error_Some; rewrite Hq; discriminate).
  replace (List.length (currentQuestions p) <=? currentIndex p)%nat with false
    by (symmetry; apply Nat.leb_gt; exact Hlt).
  rewrite Hr, Hq, Htext. reflexivity.
Qed.

(** The queued advance on a page without timer: the next question is
    rendered, or, after the last one, the lesson is submitted. *)
Lemma advance_untimed (now : Z) (l : LessonPayload) (p : Page) :
  lessonTimer p = None ->
  currentLesson p = Some l ->
  questionRenderer p = true ->
  forallb well_formed (currentQuestions p) = true ->
  let p' := fst (advance now p) in
  let next := S (currentIndex p) in
  currentQuestions p' = currentQuestions p /\
  currentIndex p' = next /\
  answers p' = answers p /\
  pending_advances p' = pending_advances p /\
  lessonTimer p' = None /\
  sched p' = sched p /\
  currentLesson p' = Some l /\
  questionRenderer p' = true /\
  (if (List.length (currentQuestions p) <=? next)%nat
   then shown_question p' = shown_question p /\
        submissions (log p') = (submissions (log p) ++ [answers p])%list
   else shown_question p' = Some next /\
        submissions (log p') = submissions (log p)).
Proof.
  intros Ht Hl Hr Hwf. unfold advance. js_unfold. simpl. rewrite Ht. simpl.
  destruct (List.length (currentQuestions p) <=? S (currentIndex p))%nat eqn:Hlast.
  - unfold renderCurrentQuestion. js_unfold. simpl. rewrite Hlast.
    unfold submitLesson, stop_lessonTimer. js_unfold. simpl. rewrite Ht. simpl.
    rewrite Hl. simpl.
    repeat split; try assumption.
    unfold submissions. rewrite !omap_app. simpl. rewrite app_nil_r. reflexivity.
  - apply Nat.leb_gt in Hlast.
    destruct (nth_error (currentQuestions p) (S (currentIndex p))) as [q|] eqn:Hq;
      [|apply nth_error_None in Hq; lia].
    rewrite (renderCurrentQuestion_shows now (set_currentIndex (S (currentIndex p)) p) q
               Hr Hq (well_formed_nth _ _ q Hwf Hq)).
    simpl. repeat split; try assumption.
    unfold submissions. rewrite omap_app. simpl. rewrite app_nil_r. reflexivity.
Qed.

Lemma step_quiz_inv (ev : Event) (p p' : Page) :
  forallb well_formed (currentQuestions p) = true ->
  quiz_inv p -> step ev p = Some p' ->
  quiz_inv p' /\ currentQuestions p' = currentQuestions p.
Proof.
  intros Hwf Hinv Hstep.
  destruct (step_untimed_inv ev p p' (well_formed_checkable _ Hwf) (proj1 Hinv) Hstep)
    as [Hu' Hqs].
  split; [|exact Hqs].
  destruct Hinv as (Hu & Hne & Hshown & Hnext & Hord & Hsub).
  destruct Hu as (Ht & Hi & Hrm & Hp1 & Hle & Hsp).
  unfold records_match_advances in Hrm.
  unfold step in Hstep. destruct (enabled ev p) eqn:Hen; [|discriminate].
  injection Hstep as <-. unfold quiz_inv. split; [exact Hu'|].
  destruct ev as [now a | now h | now]; simpl handler in *.
  - simpl in Hen. destruct (shown_question p) as [i|] eqn:Hs; [|discriminate].
    pose proof (Hshown i eq_refl) as ->.
    destruct (nth_error (currentQuestions p) (currentIndex p)) as [q|] eqn:Hq;
      [|discriminate].
    destruct (well_formed_facts q (well_formed_nth _ _ q Hwf Hq)) as (_ & Hplain & Hck).
    rewrite Hplain in Hen. apply bool_decide_eq_true in Hen.
    assert (pending_advances p = 0%nat) as Hp0 by (apply Hsp; discriminate).
    assert (currentQuestions p <> []) as Hnonempty.
    { intros Hnil. rewrite Hnil in Hq. destruct (currentIndex p); discriminate. }
    destruct (Hne Hnonempty) as [Hl Hr].
    destruct (handleAnswer_effect now (JStr a) p) as (H1 & H2 & _).
    destruct (handleAnswer_records now (JStr a) q p Hq Hr eq_refl Hck)
      as (r & Ha & Hua & Hid & Htx & Hca & Hop & Hpa & Hsq & Hcl & Hqr & Hsb).
    rewrite H1, H2, Ha, Hpa, Hsq, Hcl, Hqr, Hsb, Hsub.
    assert (currentIndex p < List.length (currentQuestions p))%nat as Hlt
      by (apply nth_error_Some; rewrite Hq; discriminate).
    split; [intros _; split; [assumption | reflexivity]|].
    split; [intros i [=]|]. split; [intros _ [=]|]. split.
    + rewrite length_app. simpl. rewrite Hrm, Hp0, Nat.add_0_r, Nat.add_1_r.
      rewrite (take_S_r _ _ q) by (rewrite <- nth_error_lookup_eq; exact Hq).
      apply Forall2_app.
      * rewrite Hrm, Hp0, Nat.add_0_r in Hord. exact Hord.
      * constructor; [|constructor]. repeat split; try assumption.
        exists a. split; assumption.
    + replace (currentIndex p =? List.length (currentQuestions p))%nat with false
        by (symmetry; apply Nat.eqb_neq; lia).
      rewrite andb_false_r. reflexivity.
  - simpl in Hen. rewrite Hi in Hen. apply bool_decide_eq_true in Hen. set_solver.
  - simpl in Hen. apply Nat.ltb_lt in Hen.
    assert (pending_advances p = 1%nat) as Hp by lia.
    assert (currentQuestions p <> []) as Hnonempty.
    { intros Hnil. rewrite Hnil in Hle. simpl in Hle. lia. }
    destruct (Hne Hnonempty) as [Hl Hr].
    destruct (currentLesson p) as [l|] eqn:Hcl; [|contradiction].
    js_unfold. simpl.
    lazymatch goal with |- context [advance now ?q] =>
      destruct (advance_untimed now l q) as (H1 & H2 & H3 & H4 & _ & _ & H7 & H8 & H9) end;
      try assumption.
    rewrite Hp in *. simpl in *. rewrite H1, H2, H3, H4, H7, H8.
    split; [intros _; split; [discriminate | reflexivity]|].
    assert (submissions (log p) = []) as Hnone.
    { rewrite Hsub.
      replace (currentIndex p =? List.length (currentQuestions p))%nat with false
        by (symmetry; apply Nat.eqb_neq; lia).
      rewrite andb_false_r. reflexivity. }
    destruct (List.length (currentQuestions p) <=? S (currentIndex p))%nat eqn:Hlast;
      destruct H9 as [Hsq Hsb]; rewrite Hsq, Hsb, Hnone.
    + apply Nat.leb_le in Hlast.
      assert (shown_question p = None) as Hsn.
      { destruct (shown_question p) eqn:Hs; [|reflexivity].
        assert (1 = 0)%nat by (apply Hsp; discriminate). lia. }
      rewrite Hsn. split; [discriminate|]. split; [lia|]. split; [exact Hord|].
      replace (S (currentIndex p) =? List.length (currentQuestions p))%nat with true
        by (symmetry; apply Nat.eqb_eq; lia).
      reflexivity.
    + apply Nat.leb_gt in Hlast.
      split; [intros i [= <-]; reflexivity|]. split; [reflexivity|].
      split; [exact Hord|].
      replace (S (currentIndex p) =? List.length (currentQuestions p))%nat with false
        by (symmetry; apply Nat.eqb_neq; lia).
      reflexivity.
Qed.

Ltac quiz_start :=
  repeat split; simpl; intros;
  try congruence; try lia; try apply Forall2_nil; try reflexivity;
  try (match goal with Hq : _ = [] |- _ => rewrite Hq in * end; simpl in *; lia).

Lemma opened_quiz_inv (container timer_el : bool) (type : string) (now : Z)
    (response : completion LessonPayload) :
  forallb well_formed (questions_of response) = true ->
  is_sprint type && timer_el = false ->
  quiz_inv (opened container timer_el type now response).
Proof.
  intros Hwf Hno.
  pose proof (opened_untimed_inv container timer_el type now response Hno) as Hu.
  unfold quiz_inv. split; [exact Hu|]. clear Hu.
  unfold opened, initLesson. js_unfold. simpl.
  destruct container; simpl; [|quiz_start].
  destruct response as [l|e]; simpl; [|quiz_start].
  simpl in Hwf.
  destruct (default [] (questions l)) as [|q qs] eqn:Hq; simpl; [quiz_start|].
  simpl in Hwf. apply andb_true_iff in Hwf as [Hw _].
  destruct (well_formed_facts q Hw) as ([text Htext] & _).
  destruct (is_sprint type); simpl in Hno.
  - subst timer_el. unfold setupTimer. js_unfold. simpl.
    unfold renderCurrentQuestion. js_unfold. simpl. unfold id. rewrite Hq. simpl.
    rewrite Htext. quiz_start.
  - unfold renderCurrentQuestion. js_unfold. simpl. unfold id. rewrite Hq. simpl.
    rewrite Htext. quiz_start.
Qed.

Lemma run_quiz_inv (evs : list Event) (p p' : Page) :
  forallb well_formed (currentQuestions p) = true ->
  quiz_inv p -> run evs p = Some p' ->
  quiz_inv p' /\ currentQuestions p' = currentQuestions p.
Proof.
  revert p. induction evs as [|ev evs IH]; intros p Hwf Hinv Hrun; simpl in Hrun.
  - injection Hrun as <-. split; [exact Hinv | reflexivity].
  - destruct (step ev p) as [p1|] eqn:Hstep; [|discriminate].
    destruct (step_quiz_inv ev p p1 Hwf Hinv Hstep) as [Hinv1 Hq1].
    destruct (IH p1 ltac:(rewrite Hq1; exact Hwf) Hinv1 Hrun) as [Hinv' Hq'].
    split; [exact Hinv' | congruence].
Qed.

Lemma opened_well_formed (container timer_el : bool) (type : string) (now : Z)
    (response : completion LessonPayload) :
  forallb well_formed (questions_of response) = true ->
  forallb well_formed (currentQuestions (opened container timer_el type now response))
  = true.
Proof.
  intros Hall.
  destruct (opened_currentQuestions container timer_el type now response) as [-> | ->];
    [reflexivity | exact Hall].
Qed.

End Quiz.

Section QuizRuns.
Context `{JSON}.

(** X5.  Take a lesson of well-formed questions (each can be rendered, its
    markup is plain, and its stored answer converts to text) that runs
    without the per-question timer.  Its records follow the questions: the
    k-th record carries the identifier, the text, the stored answer and
    the options of the k-th question, and its submitted value is one of
    that question's options. *)
Theorem records_follow_the_questions
    (container timer_el : bool) (type : string) (now : Z)
    (response : completion LessonPayload) (evs : list Event) (p : Page) :
  forallb well_formed (questions_of response) = true ->
  is_sprint type && timer_el = false ->
  run evs (opened container timer_el type now response) = Some p ->
  Forall2 answered (take (List.length (answers p)) (currentQuestions p)) (answers p).
Proof.
  intros Hwf Hno Hrun.
  destruct (run_quiz_inv evs _ p
              (opened_well_formed container timer_el type now response Hwf)
              (opened_quiz_inv container timer_el type now response Hwf Hno) Hrun)
    as [(_ & _ & _ & _ & Hord & _) _].
  exact Hord.
Qed.

(** X6.  In a lesson of well-formed questions that runs without the
    per-question timer nothing is submitted while a question is still
    open; once the cursor has passed the last question the lesson has been
    submitted exactly once, with one record per question, and from then on
    no option button is enabled, no interval is live and no advance is
    queued.  (The reply to the submission, which shows the result, is
    still to come.) *)
Theorem lesson_submitted_once_at_the_end
    (container timer_el : bool) (type : string) (now : Z)
    (response : completion LessonPayload) (evs : list Event) (p : Page) :
  forallb well_formed (questions_of response) = true ->
  is_sprint type && timer_el = false ->
  run evs (opened container timer_el type now response) = Some p ->
  ((currentIndex p < List.length (currentQuestions p))%nat ->
   submissions (log p) = []) /\
  (currentQuestions p <> [] ->
   currentIndex p = List.length (currentQuestions p) ->
   submissions (log p) = [answers p] /\
   List.length (answers p) = List.length (currentQuestions p) /\
   forall ev, step ev p = None) /\
  (List.length (submissions (log p)) <= 1)%nat.
Proof.
  intros Hwf Hno Hrun.
  destruct (run_quiz_inv evs _ p
              (opened_well_formed container timer_el type now response Hwf)
              (opened_quiz_inv container timer_el type now response Hwf Hno) Hrun)
    as [(Hu & _ & Hshown & _ & _ & Hsub) _].
  destruct Hu as (Ht & Hi & Hrm & Hp1 & Hle & Hsp).
  unfold records_match_advances in Hrm. rewrite Hsub. split; [|split].
  - intros Hlt.
    replace (currentIndex p =? List.length (currentQuestions p))%nat with false
      by (symmetry; apply Nat.eqb_neq; lia).
    rewrite andb_false_r. reflexivity.
  - intros Hne Hend.
    assert (0 < List.length (currentQuestions p))%nat as Hpos
      by (destruct (currentQuestions p); [congruence | simpl; lia]).
    replace (currentIndex p =? List.length (currentQuestions p))%nat with true
      by (symmetry; apply Nat.eqb_eq; lia).
    replace (currentIndex p =? 0)%nat with false by (symmetry; apply Nat.eqb_neq; lia).
    split; [reflexivity|]. split; [lia|].
    intros [t a | t h | t]; unfold step; simpl.
    + destruct (shown_question p) as [i|] eqn:Hs; [|reflexivity].
      rewrite (Hshown i eq_refl), Hend.
      rewrite (proj2 (nth_error_None _ _)) by lia. reflexivity.
    + rewrite Hi, bool_decide_eq_false_2 by set_solver. reflexivity.
    + replace (0 <? pending_advances p)%nat with false
        by (symmetry; apply Nat.ltb_ge; lia).
      reflexivity.
  - destruct (negb _ && _); simpl; lia.
Qed.

Lemma play_from (choices : list (Z * string)) (p : Page) :
  forallb well_formed (currentQuestions p) = true ->
  quiz_inv p ->
  pending_advances p = 0%nat ->
  choices <> [] ->
  Forall2 (fun c q => snd c ∈ q_options q) choices
          (drop (currentIndex p) (currentQuestions p)) ->
  exists p',
    run (play choices) p = Some p' /\
    quiz_inv p' /\
    currentQuestions p' = currentQuestions p /\
    currentIndex p' = List.length (currentQuestions p) /\
    List.map user_answer (answers p')
    = (List.map user_answer (answers p) ++ List.map (fun c => JStr (snd c)) choices)%list.
Proof.
  revert p. induction choices as [|c cs IH]; intros p Hwf Hinv Hp0 Hne Hall; [congruence|].
  clear Hne. inversion Hall as [|c' q cs' rest Hc Hrest [Hc' Hcs'] Hdrop]. subst c' cs'.
  symmetry in Hdrop.
  assert (currentQuestions p !! currentIndex p = Some q) as Hq.
  { rewrite <- (Nat.add_0_r (currentIndex p)), <- lookup_drop, Hdrop. reflexivity. }
  assert (currentIndex p < List.length (currentQuestions p))%nat as Hlt
    by (apply lookup_lt_Some in Hq; exact Hq).
  pose proof Hinv as (Hu & Hren & Hshown & Hnext & _).
  pose proof (Hnext Hlt Hp0) as Hs.
  assert (currentQuestions p <> []) as Hnonempty
    by (intros Hnil; rewrite Hnil in Hlt; simpl in Hlt; lia).
  destruct (Hren Hnonempty) as [Hl Hr].
  assert (well_formed q = true) as Hw
    by (apply (well_formed_nth (currentQuestions p) (currentIndex p));
        [exact Hwf | rewrite nth_error_lookup_eq; exact Hq]).
  destruct (well_formed_facts q Hw) as (_ & Hplain & Hck).
  (* the click *)
  destruct (step (Click (fst c) (snd c)) p) as [p1|] eqn:Hstep1.
  2:{ unfold step in Hstep1. simpl in Hstep1.
      rewrite Hs, nth_error_lookup_eq, Hq, Hplain, bool_decide_eq_true_2 in Hstep1
        by exact Hc. discriminate. }
  destruct (step_quiz_inv _ p p1 Hwf Hinv Hstep1) as [Hinv1 Hqs1].
  assert (p1 = fst (handleAnswer (fst c) (JStr (snd c)) p)) as Hp1.
  { unfold step in Hstep1. destruct (enabled _ p); [|discriminate].
    injection Hstep1 as <-. reflexivity. }
  destruct (handleAnswer_effect (fst c) (JStr (snd c)) p) as (_ & Hi1 & _).
  destruct (handleAnswer_records (fst c) (JStr (snd c)) q p)
    as (r & Ha1 & Hua & _ & _ & _ & _ & Hpa1 & _);
    [rewrite nth_error_lookup_eq; exact Hq | exact Hr | reflexivity | exact Hck |].
  cbv zeta in Hi1, Ha1, Hpa1. rewrite <- Hp1 in Hi1, Ha1, Hpa1.
  (* the advance *)
  destruct (step (Advance (fst c + 1000)) p1) as [p2|] eqn:Hstep2.
  2:{ unfold step in Hstep2. simpl in Hstep2. rewrite Hpa1, Hp0 in Hstep2.
      simpl in Hstep2. discriminate. }
  assert (forallb well_formed (currentQuestions p1) = true) as Hwf1
    by (rewrite Hqs1; exact Hwf).
  destruct (step_quiz_inv _ p1 p2 Hwf1 Hinv1 Hstep2) as [Hinv2 Hqs2].
  assert (forallb well_formed (currentQuestions p2) = true) as Hwf2
    by (rewrite Hqs2; exact Hwf1).
  assert (currentIndex p2 = S (currentIndex p) /\ answers p2 = answers p1 /\
          pending_advances p2 = 0%nat) as (Hi2 & Ha2 & Hp2).
  { unfold step in Hstep2. destruct (enabled _ p1); [|discriminate].
    injection Hstep2 as <-. simpl. js_unfold. simpl.
    lazymatch goal with |- context [advance ?t ?x] =>
      destruct (advance_effect t x) as (_ & E2 & E3 & E4 & _) end.
    simpl in *. rewrite E2, E3, E4, Hi1, Hpa1, Hp0. repeat split. }
  assert (drop (currentIndex p2) (currentQuestions p2) = rest) as Hdrop2.
  { rewrite Hqs2, Hqs1, Hi2. rewrite (drop_S _ q _ Hq) in Hdrop.
    injection Hdrop as Hd. exact Hd. }
  cbn [play flat_map]. cbn [app run]. rewrite Hstep1, Hstep2.
  destruct cs as [|c2 cs].
  - apply Forall2_nil_inv_l in Hrest. exists p2. split; [reflexivity|].
    split; [exact Hinv2|]. split; [congruence|]. split.
    + assert (List.length (drop (currentIndex p2) (currentQuestions p2)) = 0)%nat as Hlen
        by (rewrite Hdrop2, Hrest; reflexivity).
      rewrite length_drop, Hqs2, Hqs1, Hi2 in Hlen. lia.
    + rewrite Ha2, Ha1, List.map_app. simpl. rewrite Hua. reflexivity.
  - destruct (IH p2 Hwf2 Hinv2 Hp2 ltac:(discriminate))
      as (p' & Hrun & Hinv' & Hqs' & Hi' & Hm').
    { rewrite Hdrop2. exact Hrest. }
    exists p'. split; [exact Hrun|]. split; [exact Hinv'|].
    split; [congruence|]. split; [congruence|].
    rewrite Hm', Ha2, Ha1, List.map_app. simpl. rewrite Hua, <- app_assoc. reflexivity.
Qed.

(** X7.  In a lesson of well-formed questions without timer, clicking an
    option of every question in turn, each click followed by the queued
    advance, carries the lesson to its end: the run is possible, and it
    ends with the lesson submitted once, the submitted records holding the
    clicked options in order, one for each question. *)
Theorem answering_every_question_submits
    (timer_el : bool) (type : string) (now : Z) (lesson : LessonPayload)
    (qs : list Question) (choices : list (Z * string)) :
  is_sprint type && timer_el = false ->
  questions lesson = Some qs ->
  qs <> [] ->
  forallb well_formed qs = true ->
  Forall2 (fun c q => snd c ∈ q_options q) choices qs ->
  exists p,
    run (play choices) (opened true timer_el type now (Normal lesson)) = Some p /\
    submissions (log p) = [answers p] /\
    List.map user_answer (answers p) = List.map (fun c => JStr (snd c)) choices /\
    List.map question_id (answers p) = List.map q_id qs.
Proof.
  intros Hno Hqs Hne Hwf Hall.
  assert (forallb well_formed (questions_of (Normal lesson)) = true) as Hwf0
    by (simpl; rewrite Hqs; exact Hwf).
  pose proof (opened_quiz_inv true timer_el type now (Normal lesson) Hwf0 Hno) as Hinv.
  pose proof (opened_well_formed true timer_el type now (Normal lesson) Hwf0) as Hwf1.
  destruct (opened_fresh true timer_el type now (Normal lesson)) as (Ha0 & Hi0 & Hp0 & _).
  assert (currentQuestions (opened true timer_el type now (Normal lesson)) = qs) as Hcq.
  { clear Hinv Ha0 Hi0 Hp0. unfold opened, initLesson. js_unfold. simpl.
    rewrite Hqs. simpl. destruct qs as [|q qs']; [congruence|]. simpl.
    destruct (is_sprint type); simpl in Hno;
      [subst timer_el; unfold setupTimer; js_unfold; simpl|];
      lazymatch goal with |- context [renderCurrentQuestion now ?x] =>
        pose proof (renderCurrentQuestion_effect now x) as HR;
        destruct (renderCurrentQuestion now x) as [s' [[]|e']] end;
      simpl in *; destruct HR as (H1 & _); rewrite H1, Hqs; reflexivity. }
  destruct (play_from choices _ Hwf1 Hinv Hp0) as (p & Hrun & Hinv' & Hqs' & Hi' & Hm).
  { intros ->. inversion Hall. congruence. }
  { rewrite Hi0, Hcq. exact Hall. }
  exists p. split; [exact Hrun|].
  destruct Hinv' as (Hu & _ & _ & _ & Hord & Hsub).
  destruct Hu as (_ & _ & Hrm & _ & Hle & _). unfold records_match_advances in Hrm.
  rewrite Hqs', Hcq in *.
  assert (0 < List.length qs)%nat as Hpos by (destruct qs; [congruence | simpl; lia]).
  assert (List.length (answers p) = List.length qs) as Hlen by lia.
  split.
  - rewrite Hsub, Hi', Nat.eqb_refl.
    replace (List.length qs =? 0)%nat with false by (symmetry; apply Nat.eqb_neq; lia).
    reflexivity.
  - split; [rewrite Hm, Ha0; reflexivity|].
    rewrite Hlen, firstn_all in Hord. clear -Hord.
    induction Hord as [|q r qs' rs (Hid & _) _ IH]; simpl; [reflexivity|].
    rewrite Hid, IH. reflexivity.
Qed.

End QuizRuns.

Lemma records_follow_the_questions_witness :
  exists p,
    run [Click 4000 "Good morning"; Advance 5000; Click 9000 "null"]
        (opened true false "daily" 0 (Normal daily_two)) = Some p /\
    Forall2 answered (take (List.length (answers p)) (currentQuestions p)) (answers p).
Proof.
  destruct (run [Click 4000 "Good morning"; Advance 5000; Click 9000 "null"]
                (opened true false "daily" 0 (Normal daily_two))) as [p|] eqn:Hrun;
    [|vm_compute in Hrun; discriminate Hrun].
  exists p. split; [reflexivity|].
  assert (forallb well_formed (questions_of (Normal daily_two)) = true) as Hwf
    by reflexivity.
  exact (records_follow_the_questions true false "daily" 0 (Normal daily_two)
           [Click 4000 "Good morning"; Advance 5000; Click 9000 "null"] p
           Hwf eq_refl Hrun).
Defined.

Lemma lesson_submitted_once_at_the_end_witness :
  exists p,
    run [Click 4000 "Good morning"; Advance 5000; Click 9000 "null"; Advance 10000]
        (opened true false "daily" 0 (Normal daily_two)) = Some p /\
    submissions (log p) = [answers p] /\
    forall ev, step ev p = None.
Proof.
  destruct (run [Click 4000 "Good morning"; Advance 5000; Click 9000 "null"; Advance 10000]
                (opened true false "daily" 0 (Normal daily_two))) as [p|] eqn:Hrun;
    [|vm_compute in Hrun; discriminate Hrun].
  exists p. split; [reflexivity|].
  assert (forallb well_formed (questions_of (Normal daily_two)) = true) as Hwf
    by reflexivity.
  destruct (lesson_submitted_once_at_the_end true false "daily" 0 (Normal daily_two)
              [Click 4000 "Good morning"; Advance 5000; Click 9000 "null"; Advance 10000]
              p Hwf eq_refl Hrun) as (_ & Hend & _).
  assert (currentQuestions p = [q_greeting; q_null] /\ currentIndex p = 2%nat) as [Hq Hi].
  { vm_compute in Hrun. injection Hrun as <-. split; reflexivity. }
  destruct Hend as (Hs & _ & Hstop); [rewrite Hq; discriminate | rewrite Hq, Hi; reflexivity |].
  split; assumption.
Defined.

Lemma answering_every_question_submits_witness :
  exists p,
    run (play [(4000%Z, "Good night"); (9000%Z, "null")])
        (opened true false "daily" 0 (Normal daily_two)) = Some p /\
    submissions (log p) = [answers p] /\
    List.map user_answer (answers p) = [JStr "Good night"; JStr "null"].
Proof.
  destruct (answering_every_question_submits false "daily" 0 daily_two
              [q_greeting; q_null] [(4000%Z, "Good night"); (9000%Z, "null")])
    as (p & Hrun & Hsub & Hans & _).
  - reflexivity.
  - reflexivity.
  - discriminate.
  - reflexivity.
  - repeat (constructor; [simpl; set_solver|]). constructor.
  - exists p. repeat split; assumption.
Defined.

(** ** Opening a lesson *)

Section Opening.
Context `{JSON}.

Lemma submitLesson_log (now : Z) (p : Page) :
  exists l, log (fst (submitLesson now p)) = (log p ++ l)%list.
Proof.
  unfold submitLesson, stop_lessonTimer. js_unfold. simpl.
  destruct (lessonTimer p) as [t|]; simpl;
    [destruct (Timer_stop t (sched p)) as [t' sch']; simpl|];
    destruct (currentLesson p); simpl; rewrite <- ?app_assoc; eexists; reflexivity.
Qed.

Lemma renderCurrentQuestion_log (now : Z) (p : Page) :
  exists l, log (fst (renderCurrentQuestion now p)) = (log p ++ l)%list.
Proof.
  unfold renderCurrentQuestion. js_unfold. simpl.
  destruct (List.length (currentQuestions p) <=? currentIndex p)%nat.
  - apply submitLesson_log.
  - destruct (questionRenderer p); simpl;
      [|exists []; rewrite app_nil_r; reflexivity].
    destruct (nth_error (currentQuestions p) (currentIndex p)) as [question|]; simpl;
      [|exists []; rewrite app_nil_r; reflexivity].
    destruct (formatQuestion question); simpl; [eexists; reflexivity|].
    exists []. rewrite app_nil_r. reflexivity.
Qed.

(** X8.  [initLesson] never rejects and always takes the loading overlay
    down again: on a document without the lesson container it does nothing
    at all; otherwise, whatever the request settles to and whatever the
    lesson holds, what the function does to the page starts with showing
    the overlay and ends with hiding it.  When the request fails, the
    error toast is shown in between and the lesson variables keep their
    values. *)
Theorem initLesson_always_settles
    (type : string) (now : Z) (response : completion LessonPayload) (p : Page) :
  let p' := fst (initLesson type now response p) in
  snd (initLesson type now response p) = Normal tt /\
  (has_container p = false -> p' = p) /\
  (has_container p = true ->
     exists between, log p' = (log p ++ LoadingShow :: between ++ [LoadingHide])%list) /\
  (forall e, has_container p = true -> response = Throw e ->
     In (ToastError "Failed to load lesson") (log p') /\
     currentLesson p' = currentLesson p /\
     currentQuestions p' = currentQuestions p /\
     currentIndex p' = currentIndex p /\
     answers p' = answers p /\
     lessonTimer p' = lessonTimer p).
Proof.
  unfold initLesson. js_unfold. simpl.
  destruct (has_container p) eqn:Hc; simpl.
  2:{ repeat split; intros; congruence. }
  destruct response as [l|e]; simpl.
  - assert (forall (q : Page) (pre : list Effect),
              log q = (log p ++ LoadingShow :: pre)%list ->
              exists between,
                log (fst (renderCurrentQuestion now q))
                = (log p ++ LoadingShow :: between)%list) as Hrender.
    { intros q pre Hq. destruct (renderCurrentQuestion_log now q) as [l' Hl'].
      rewrite Hl', Hq, <- app_assoc. simpl. eexists. reflexivity. }
    assert (forall q : Page,
              (exists pre, log q = (log p ++ LoadingShow :: pre)%list) ->
              let r := (let (s', c) :=
                          (let (s', c) := renderCurrentQuestion now q in
                           match c with
                           | Normal a => (s', Normal a)
                           | Throw e =>
                               (set_log
                                  ((log s' ++ [ToastError "Failed to load lesson"]) ++
                                   [ConsoleError e])
                                  (set_log (log s' ++ [ToastError "Failed to load lesson"]) s'),
                                Normal ())
                           end) in
                        (set_log (log s' ++ [LoadingHide]) s', c)) in
              snd r = Normal tt /\
              exists between,
                log (fst r) = (log p ++ LoadingShow :: between ++ [LoadingHide])%list)
      as Hrest.
    { intros q [pre Hq]. destruct (Hrender q pre Hq) as [between Hb].
      destruct (renderCurrentQuestion now q) as [s' [[]|e']]; simpl in *;
        (split; [reflexivity|]); rewrite Hb.
      - exists between. rewrite <- app_assoc. reflexivity.
      - exists (between ++ [ToastError "Failed to load lesson"; ConsoleError e'])%list.
        rewrite <- !app_assoc. simpl. rewrite <- ?app_assoc. reflexivity. }
    destruct (default [] (questions l)) as [|q0 qs] eqn:Hq; simpl.
    + repeat split; try congruence.
      intros _. exists [ShowEmptyState]. rewrite <- !app_assoc. reflexivity.
    + destruct (is_sprint type); simpl.
      * unfold setupTimer. js_unfold. simpl.
        destruct (has_timer_element p); simpl;
          lazymatch goal with |- context [renderCurrentQuestion now ?x] =>
            destruct (Hrest x) as [Hn Hl];
              [simpl; rewrite <- ?app_assoc; simpl; eexists; reflexivity|] end;
          repeat split; try congruence; try exact Hn; intros _; exact Hl.
      * lazymatch goal with |- context [renderCurrentQuestion now ?x] =>
          destruct (Hrest x) as [Hn Hl];
            [simpl; rewrite <- ?app_assoc; simpl; eexists; reflexivity|] end;
          repeat split; try congruence; try exact Hn; intros _; exact Hl.
  - split; [reflexivity|]. split; [congruence|]. split.
    + intros _. exists [ToastError "Failed to load lesson"; ConsoleError e].
      rewrite <- !app_assoc. reflexivity.
    + intros e' _ [= <-]. repeat split.
      rewrite !in_app_iff. simpl. tauto.
Qed.

End Opening.

Lemma initLesson_always_settles_witness :
  In (ToastError "Failed to load lesson")
     (log (fst (initLesson "daily" 0 (Throw (ErrorMsg "Failed to fetch"))
                  (page0 true false)))) /\
  currentQuestions (fst (initLesson "daily" 0 (Throw (ErrorMsg "Failed to fetch"))
                           (page0 true false))) = [].
Proof.
  destruct (initLesson_always_settles "daily" 0 (Throw (ErrorMsg "Failed to fetch"))
              (page0 true false)) as (_ & _ & _ & Hfail).
  destruct (Hfail (ErrorMsg "Failed to fetch") eq_refl eq_refl) as (Hlog & _ & Hq & _).
  split; [exact Hlog | exact Hq].
Defined.

(** ** The verdict does not see padding or case *)

Lemma trimStart_padding (pre s : string) :
  all_space pre = true -> trimStart (pre ++ s) = trimStart s.
Proof.
  induction pre as [|c r IH]; simpl; [reflexivity|].
  intros [Hc Hr]%andb_true_iff. rewrite Hc. exact (IH Hr).
Qed.

Lemma trimStart_all_space (s : string) :
  all_space s = true -> trimStart s = EmptyString.
Proof.
  induction s as [|c r IH]; simpl; [reflexivity|].
  intros [Hc Hr]%andb_true_iff. rewrite Hc. exact (IH Hr).
Qed.

Lemma trimEnd_all_space (s : string) :
  all_space s = true -> trimEnd s = EmptyString.
Proof.
  induction s as [|c r IH]; simpl; [reflexivity|].
  intros [Hc Hr]%andb_true_iff. rewrite (IH Hr), Hc. reflexivity.
Qed.

Lemma trimEnd_padding (s post : string) :
  all_space post = true -> trimEnd (s ++ post) = trimEnd s.
Proof.
  intros Hp. induction s as [|c r IH]; simpl.
  - apply trimEnd_all_space, Hp.
  - rewrite IH. reflexivity.
Qed.

Lemma trimStart_append (s post : string) :
  trimStart (s ++ post)
  = match trimStart s with
    | EmptyString => trimStart post
    | kept => kept ++ post
    end.
Proof.
  induction s as [|c r IH].
  - change (trimStart post = trimStart post). reflexivity.
  - change (trimStart (String c (r ++ post))
            = match trimStart (String c r) with
              | EmptyString => trimStart post
              | kept => kept ++ post
              end).
    simpl. destruct (is_space c); [exact IH | reflexivity].
Qed.

Lemma trim_padding (pre s post : string) :
  all_space pre = true -> all_space post = true ->
  trim (pre ++ s ++ post) = trim s.
Proof.
  intros Hpre Hpost. unfold trim.
  rewrite trimStart_padding by exact Hpre. rewrite trimStart_append.
  destruct (trimStart s) as [|c r] eqn:Hs.
  - rewrite trimStart_all_space by exact Hpost. reflexivity.
  - apply trimEnd_padding, Hpost.
Qed.

Lemma lower_char_idempotent (c : ascii) : lower_char (lower_char c) = lower_char c.
Proof. destruct c as [[] [] [] [] [] [] [] []]; reflexivity. Qed.

Lemma toLowerCase_idempotent (s : string) : toLowerCase (toLowerCase s) = toLowerCase s.
Proof.
  induction s as [|c r IH]; simpl; [reflexivity|].
  rewrite lower_char_idempotent, IH. reflexivity.
Qed.

Lemma toLowerCase_append (s t : string) :
  toLowerCase (s ++ t) = toLowerCase s ++ toLowerCase t.
Proof. induction s as [|c r IH]; simpl; [reflexivity|]. rewrite IH. reflexivity. Qed.

Lemma all_space_toLowerCase (s : string) : all_space (toLowerCase s) = all_space s.
Proof.
  induction s as [|c r IH]; simpl; [reflexivity|].
  rewrite lower_char_space, IH. reflexivity.
Qed.

Lemma is_space_whitespace (c : ascii) : is_space c = bool_decide (c ∈ whitespace).
Proof. destruct c as [[] [] [] [] [] [] [] []]; vm_compute; reflexivity. Qed.

Lemma blank_all_space (s : string) : blank s <-> all_space s = true.
Proof.
  unfold blank. induction s as [|c r IH]; simpl.
  - split; [reflexivity | constructor].
  - rewrite Forall_cons, IH, andb_true_iff, is_space_whitespace, bool_decide_eq_true.
    reflexivity.
Qed.

Lemma capitals_upper (n : N) :
  n ∈ capitals -> is_upper (ascii_of_N n) = true /\ (n < 224)%N /\
                  is_upper (ascii_of_N (n + 32)) = false.
Proof.
  intros Hin. apply list_elem_of_In in Hin. unfold capitals in Hin. simpl in Hin.
  repeat (destruct Hin as [<- | Hin]; [vm_compute; repeat split|]).
  contradiction.
Qed.

Lemma upper_capitals (c : ascii) : is_upper c = true -> N_of_ascii c ∈ capitals.
Proof.
  intros Hu. apply list_elem_of_In.
  destruct c as [[] [] [] [] [] [] [] []]; try discriminate Hu; vm_compute; tauto.
Qed.

Lemma same_letter_lower (c d : ascii) : same_letter c d <-> lower_char c = lower_char d.
Proof.
  split.
  - intros [c' | n Hn | n Hn]; [reflexivity| |];
      destruct (capitals_upper n Hn) as (Hu & Hlt & Hl);
      unfold lower_char; rewrite Hu, Hl, N_ascii_embedding by lia; reflexivity.
  - unfold lower_char. intros Heq.
    destruct (is_upper c) eqn:Hc, (is_upper d) eqn:Hd.
    + pose proof (capitals_upper _ (upper_capitals c Hc)) as (_ & Hlc & _).
      pose proof (capitals_upper _ (upper_capitals d Hd)) as (_ & Hld & _).
      apply (f_equal N_of_ascii) in Heq. rewrite !N_ascii_embedding in Heq by lia.
      assert (N_of_ascii c = N_of_ascii d) as Hcd by lia.
      apply (f_equal ascii_of_N) in Hcd. rewrite !ascii_N_embedding in Hcd.
      subst d. constructor.
    + subst d. rewrite <- (ascii_N_embedding c) at 1.
      apply capital_small, upper_capitals, Hc.
    + subst c. rewrite <- (ascii_N_embedding d) at 2.
      apply small_capital, upper_capitals, Hd.
    + subst d. constructor.
Qed.

Lemma equal_ignoring_case_lower (s t : string) :
  equal_ignoring_case s t <-> toLowerCase s = toLowerCase t.
Proof.
  split.
  - induction 1 as [|c d s t Hc _ IH]; simpl; [reflexivity|].
    apply same_letter_lower in Hc. rewrite Hc, IH. reflexivity.
  - revert t. induction s as [|c s IH]; intros [|d t] Heq; simpl in Heq; try discriminate.
    + constructor.
    + injection Heq as Hc Hs. constructor; [apply same_letter_lower, Hc | apply IH, Hs].
Qed.

Lemma append_cons (c : ascii) (a b : string) : String c a ++ b = String c (a ++ b).
Proof. reflexivity. Qed.

Lemma append_empty_r (s : string) : s ++ EmptyString = s.
Proof. induction s as [|c r IH]; [reflexivity|]. rewrite append_cons, IH. reflexivity. Qed.

Lemma append_assoc (a b c : string) : (a ++ b) ++ c = a ++ b ++ c.
Proof.
  induction a as [|x a IH]; [reflexivity|]. rewrite !append_cons, IH. reflexivity.
Qed.






Lemma all_space_append (a b : string) :
  all_space (a ++ b) = all_space a && all_space b.
Proof.
  induction a as [|c r IH]; [reflexivity|]. rewrite append_cons. simpl.
  rewrite IH, andb_assoc. reflexivity.
Qed.



Lemma JSValue_nested_ind (P : JSValue -> Prop) :
  P JUndefined -> P JNull -> (forall b, P (JBool b)) -> (forall n, P (JNum n)) ->
  (forall s, P (JStr s)) ->
  (forall items, Forall P items -> P (JArr items)) ->
  (forall props, Forall (fun kv => P (snd kv)) props -> P (JObj props)) ->
  forall v, P v.
Proof.
  intros Hu Hn Hb Hz Hs Ha Ho. fix IH 1. intros [| |b|n|s|items|props].
  - exact Hu.
  - exact Hn.
  - apply Hb.
  - apply Hz.
  - apply Hs.
  - apply Ha. induction items as [|x xs IHxs]; constructor; [apply IH | exact IHxs].
  - apply Ho. induction props as [|[k x] ps IHps]; constructor; [apply IH | exact IHps].
Qed.

Lemma assoc_last_none (k : string) (props : list (string * JSValue)) :
  assoc_last k props = None <-> Forall (fun kv => fst kv <> k) props.
Proof.
  induction props as [|[k' x] rest IH]; simpl.
  - split; [constructor | reflexivity].
  - rewrite Forall_cons. simpl. rewrite <- IH.
    destruct (assoc_last k rest) as [w|]; [split; [discriminate | intros [_ [=]]]|].
    destruct (String.eqb_spec k' k) as [-> | Hne].
    + split; [discriminate | intros [Hk _]; congruence].
    + split; [intros _; split; [exact Hne | reflexivity] | reflexivity].
Qed.

Lemma ToString_joined (items : list JSValue) :
  ToString (JArr items) = join_with "," (List.map joined_text items).
Proof. reflexivity. Qed.

Lemma text_of_ToString (v : JSValue) :
  ToPrimitive_raises v = false -> text_of v (ToString v).
Proof.
  induction v as [| |b|n|s|items IH|props IH] using JSValue_nested_ind; intros Hr.
  - constructor.
  - constructor.
  - destruct b; constructor.
  - constructor.
  - constructor.
  - rewrite ToString_joined. constructor. simpl in Hr.
    induction IH as [|x xs Hx _ IHxs]; simpl; [constructor|].
    simpl in Hr. apply orb_false_iff in Hr as [Hrx Hrxs].
    constructor; [|exact (IHxs Hrxs)].
    destruct x; try (constructor; [discriminate | discriminate | exact (Hx Hrx)]);
      constructor.
  - simpl in Hr. simpl. constructor. apply assoc_last_none.
    destruct (assoc_last "toString" props); [discriminate | reflexivity].
Qed.

Lemma text_of_unique (v : JSValue) :
  forall s, text_of v s -> ToPrimitive_raises v = false /\ s = ToString v.
Proof.
  induction v as [| |b|n|s0|items IH|props IH] using JSValue_nested_ind; intros s Ht;
    inversion Ht; subst; try (split; reflexivity).
  - match goal with Hall : Forall2 element_text items ?texts |- _ =>
      rename Hall into Hall'; rename texts into ts end.
    rewrite ToString_joined.
    assert (existsb ToPrimitive_raises items = false /\ ts = List.map joined_text items)
      as [Hr ->]; [|split; [exact Hr | reflexivity]].
    clear Ht. revert ts Hall'. induction IH as [|x xs Hx _ IHxs]; intros ts Hall.
    + apply Forall2_nil_inv_l in Hall. subst. split; reflexivity.
    + apply Forall2_cons_inv_l in Hall as (t & ts' & Hxt & Hrest & ->).
      destruct (IHxs ts' Hrest) as [Hr ->]. simpl. rewrite Hr.
      inversion Hxt as [| | v' s' Hnu Hnn Htx]; subst; [split; reflexivity ..|].
      destruct (Hx t Htx) as [Hrx ->]. rewrite Hrx.
      split; [reflexivity|]. destruct x; try reflexivity; congruence.
  - split; [|reflexivity]. simpl.
    match goal with Hall : Forall _ props |- _ => apply assoc_last_none in Hall;
      rewrite Hall end.
    reflexivity.
Qed.

(** [String_] gives the text of a value, and throws exactly on the values
    that have none. *)
Lemma text_of_String (v : JSValue) (s : string) : text_of v s <-> String_ v = Normal s.
Proof.
  unfold String_. split.
  - intros Ht. destruct (text_of_unique v s Ht) as [-> ->]. reflexivity.
  - destruct (ToPrimitive_raises v) eqn:Hr; [discriminate|].
    intros [= <-]. apply text_of_ToString, Hr.
Qed.

Section NormalizerAgainstSpec.
Context `{JSON}.





(** X9.  For text of code units up to U+00FF, the verdict sees neither
    white space around the submitted text nor the case of its letters:
    two submitted texts that differ only in these get the same verdict
    against every stored answer, and a text that differs only in these
    from a decoded answer that is a string is accepted. *)
Theorem verdict_blind_to_padding_and_case
    (before after a b : string) (question : Question) :
  blank before ->
  blank after ->
  equal_ignoring_case a b ->
  check_answer (JStr (before ++ a ++ after)) question = check_answer (JStr b) question /\
  (parsed_correct_answer (q_correct_answer question) = Normal (JStr b) ->
   check_answer (JStr (before ++ a ++ after)) question = Normal (true, JStr b)).
Proof.
  intros Hb Ha Heq. apply blank_all_space in Hb, Ha.
  apply equal_ignoring_case_lower in Heq.
  assert (forall c, same_text (before ++ a ++ after) c = same_text b c) as Hsame.
  { intros c. unfold same_text. rewrite !toLowerCase_append.
    rewrite trim_padding by (rewrite all_space_toLowerCase; assumption).
    rewrite Heq. reflexivity. }
  assert (check_answer (JStr (before ++ a ++ after)) question
          = check_answer (JStr b) question) as Hcheck.
  { destruct (checkable question) eqn:Hc.
    - rewrite !check_answer_normal by (reflexivity || exact Hc). simpl.
      rewrite Hsame. reflexivity.
    - rewrite !check_answer_raises by (right; exact Hc). reflexivity. }
  split; [exact Hcheck|].
  intros Hdec. rewrite Hcheck. rewrite parsed_correct_answer_decoded in Hdec.
  injection Hdec as Hdec.
  rewrite check_answer_normal; [|reflexivity|rewrite checkable_decoded, Hdec; reflexivity].
  rewrite Hdec. simpl. unfold same_text. rewrite String.eqb_refl. reflexivity.
Qed.

(** X17.  A stored answer that is text but not JSON is compared as the raw
    text: the check returns, and [handleAnswer] runs to its end and queues
    the advance to the next question. *)
Theorem malformed_answer_is_compared_raw
    (answer : JSValue) (raw : string) (e : JSError) (question : Question) :
  ToPrimitive_raises answer = false ->
  q_correct_answer question = JStr raw ->
  JSON_parse raw = Throw e ->
  check_answer answer question = Normal (same_text (ToString answer) raw, JStr raw) /\
  (forall now p,
      nth_error (currentQuestions p) (currentIndex p) = Some question ->
      questionRenderer p = true ->
      snd (handleAnswer now answer p) = Normal tt /\
      pending_advances (fst (handleAnswer now answer p)) = S (pending_advances p) /\
      shown_question (fst (handleAnswer now answer p)) = None).
Proof.
  intros Ha Hraw Hthrow.
  assert (check_answer answer question
          = Normal (same_text (ToString answer) raw, JStr raw)) as Hcheck.
  { unfold check_answer, isCorrect, String_. rewrite Hraw. simpl.
    rewrite Hthrow, Ha. reflexivity. }
  split; [exact Hcheck|].
  intros now p Hq Hr. unfold handleAnswer. js_unfold. simpl. rewrite Hq, Hr. simpl.
  rewrite Hcheck. simpl. repeat split.
Qed.

End NormalizerAgainstSpec.

Lemma verdict_blind_to_padding_and_case_witness :
  check_answer (JStr "  GOOD morning ") q_greeting = Normal (true, JStr "Good morning").
Proof.
  destruct (verdict_blind_to_padding_and_case "  " " " "GOOD morning" "Good morning"
              q_greeting) as [_ Hacc].
  - apply blank_all_space. reflexivity.
  - apply blank_all_space. reflexivity.
  - apply equal_ignoring_case_lower. reflexivity.
  - apply Hacc. reflexivity.
Defined.

Lemma malformed_answer_is_compared_raw_witness :
  check_answer (JStr "hello") q_raw = Normal (true, JStr "Hello").
Proof.
  destruct (malformed_answer_is_compared_raw (JStr "hello") "Hello" SyntaxError q_raw)
    as [Hcheck _]; [reflexivity | reflexivity | reflexivity|].
  exact Hcheck.
Defined.

(** ** Signing in and out *)

Section SessionFacts.
Context `{JSON}.

(** [request] either returns the decoded body of an ok response and
    leaves the browser as it was, or throws with the stored entries
    unchanged or, after a 401, removed. *)
Lemma request_outcome (fetched : FetchResult) (b : Browser) :
  (exists r data,
      fetched = Responded r /\ ok r = true /\ JSON_parse (body r) = Normal data /\
      request fetched b = (b, Normal data)) \/
  (exists e,
      snd (request fetched b) = Throw e /\
      (localStorage (fst (request fetched b)) = localStorage b \/
       localStorage (fst (request fetched b))
       = delete "user" (delete "token" (localStorage b)))).
Proof.
  unfold request, clearToken, console_error. js_unfold.
  destruct fetched as [|r]; simpl.
  - right. eexists. split; [reflexivity | left; reflexivity].
  - destruct (status r =? 401)%Z; simpl.
    + right. eexists. split; [reflexivity | right; reflexivity].
    + destruct (JSON_parse (body r)) as [data|e] eqn:Hparse; simpl.
      * destruct (ok r) eqn:Hok; simpl.
        -- left. exists r, data. repeat split; assumption.
        -- right. destruct (get_prop data "detail") as [detail|e]; simpl;
             [destruct (String_ (js_or detail (JStr "Request failed"))); simpl|];
             eexists; (split; [reflexivity | left; reflexivity]).
      * right. eexists. split; [reflexivity | left; reflexivity].
Qed.

Lemma login_effect (fetched : FetchResult) (b : Browser) :
  match snd (login fetched b) with
  | Normal data =>
      exists access_token user,
        request fetched b = (b, Normal data) /\
        get_prop data "access_token" = Normal access_token /\
        get_prop data "user" = Normal user /\
        localStorage (fst (login fetched b))
        = <["user" := default "undefined" (JSON_stringify user)]>
            (<["token" := ToString access_token]> (localStorage b)) /\
        isAuthenticated (fst (login fetched b))
        = negb (ToString access_token =? EmptyString)
  | Throw e =>
      (forall k, localStorage (fst (login fetched b)) !! k = None \/
                 localStorage (fst (login fetched b)) !! k = localStorage b !! k) /\
      (isAuthenticated (fst (login fetched b)) = true -> isAuthenticated b = true)
  end.
Proof.
  assert (forall b' : Browser,
            (localStorage b' = localStorage b \/
             localStorage b' = delete "user" (delete "token" (localStorage b))) ->
            (forall k, localStorage b' !! k = None \/
                       localStorage b' !! k = localStorage b !! k) /\
            (isAuthenticated b' = true -> isAuthenticated b = true)) as Hkeep.
  { intros b' Hb'. unfold isAuthenticated, getToken. destruct Hb' as [-> | ->].
    - split; [intros k; right; reflexivity | tauto].
    - split.
      + intros k. destruct (decide (k = "user")) as [-> | Hu];
          [left; apply lookup_delete_eq|].
        rewrite lookup_delete_ne by congruence.
        destruct (decide (k = "token")) as [-> | Ht];
          [left; apply lookup_delete_eq|].
        rewrite lookup_delete_ne by congruence. right. reflexivity.
      + rewrite lookup_delete_ne by discriminate. rewrite lookup_delete_eq.
        discriminate. }
  unfold login. js_unfold.
  destruct (request_outcome fetched b) as [(r & data & _ & _ & _ & Hreq) | (e & He & Hst)].
  - rewrite Hreq. simpl.
    destruct (get_prop data "access_token") as [access_token|e] eqn:Htoken; simpl.
    + unfold String_. destruct (ToPrimitive_raises access_token); simpl;
        [apply Hkeep; left; reflexivity|].
      assert (exists user, get_prop data "user" = Normal user) as [user Huser].
      { destruct data; simpl in *; try discriminate; eexists; reflexivity. }
      rewrite Huser. simpl. exists access_token, user.
      split; [reflexivity|]. split; [exact Htoken|]. split; [exact Huser|].
      split; [reflexivity|].
      unfold isAuthenticated, getToken. simpl.
      rewrite lookup_insert_ne by discriminate. rewrite lookup_insert_eq. reflexivity.
    + apply Hkeep. left. reflexivity.
  - destruct (request fetched b) as [b' [data|e']]; simpl in *; [discriminate|].
    apply Hkeep. exact Hst.
Qed.

(** X10.  [login] stores what the reply says or nothing.  When it returns,
    the request returned a reply, the stored token is the text of the
    reply's [access_token] and the stored user the serialization of its
    [user], whatever these are: a reply without an [access_token] stores
    the word undefined and the client counts as signed in.  When it throws,
    no entry of the storage has a value it did not have before, so a failed
    login never signs anybody in.  [register] does the same. *)
Theorem login_stores_the_reply_or_nothing (fetched : FetchResult) (b : Browser) :
  register fetched b = login fetched b /\
  match snd (login fetched b) with
  | Normal data =>
      exists access_token user,
        request fetched b = (b, Normal data) /\
        get_prop data "access_token" = Normal access_token /\
        get_prop data "user" = Normal user /\
        localStorage (fst (login fetched b))
        = <["user" := default "undefined" (JSON_stringify user)]>
            (<["token" := ToString access_token]> (localStorage b)) /\
        isAuthenticated (fst (login fetched b))
        = negb (ToString access_token =? EmptyString)
  | Throw e =>
      (forall k, localStorage (fst (login fetched b)) !! k = None \/
                 localStorage (fst (login fetched b)) !! k = localStorage b !! k) /\
      (isAuthenticated (fst (login fetched b)) = true -> isAuthenticated b = true)
  end.
Proof. split; [reflexivity | apply login_effect]. Qed.

(** X11.  [logout] signs out from any state: the token and the cached user
    are removed and nothing else, the page goes to the login page, and
    afterwards [isAuthenticated] is false, [getUser] returns null and
    [checkAuth] fails.  [checkAuth] itself returns what [isAuthenticated]
    says, stores nothing, and leaves a signed-in page where it is. *)
Theorem logout_signs_out (b : Browser) :
  let b' := fst (logout b) in
  snd (logout b) = Normal tt /\
  localStorage b' = delete "user" (delete "token" (localStorage b)) /\
  location_href b' = login_page /\
  isAuthenticated b' = false /\
  getUser b' = Normal JNull /\
  checkAuth b' = (b', Normal false) /\
  snd (checkAuth b) = Normal (isAuthenticated b) /\
  localStorage (fst (checkAuth b)) = localStorage b /\
  (isAuthenticated b = true -> fst (checkAuth b) = b).
Proof.
  unfold logout, checkAuth, clearToken, getUser, isAuthenticated, getToken. js_unfold.
  simpl.
  assert (delete "user" (delete "token" (localStorage b)) !! "token" = None) as Ht.
  { rewrite lookup_delete_ne by discriminate. apply lookup_delete_eq. }
  rewrite Ht, lookup_delete_eq. simpl. repeat split.
  - destruct (localStorage b !! "token") as [t|]; simpl; [|reflexivity].
    destruct (t =? EmptyString); reflexivity.
  - destruct (localStorage b !! "token") as [t|]; simpl; [|reflexivity].
    destruct (t =? EmptyString); reflexivity.
  - destruct (localStorage b !! "token") as [t|]; simpl; [|discriminate].
    destruct (t =? EmptyString); simpl; [discriminate|]. reflexivity.
Qed.

End SessionFacts.


Lemma login_stores_the_reply_or_nothing_witness :
  isAuthenticated
    (fst (login (Responded {| status := 403; body := dq "{'detail': 'Wrong password'}" |})
                signed_out)) = false.
Proof.
  destruct (login_stores_the_reply_or_nothing
              (Responded {| status := 403; body := dq "{'detail': 'Wrong password'}" |})
              signed_out) as [_ Hl].
  destruct (isAuthenticated
              (fst (login (Responded {| status := 403;
                                        body := dq "{'detail': 'Wrong password'}" |})
                          signed_out))) eqn:Hauth; [|reflexivity].
  change (snd (login (Responded {| status := 403;
                                   body := dq "{'detail': 'Wrong password'}" |})
                     signed_out))
    with (@Throw JSValue (ErrorMsg "Wrong password")) in Hl.
  destruct Hl as [_ Hl]. discriminate (Hl eq_refl).
Defined.

Lemma logout_signs_out_witness :
  isAuthenticated signed_in = true /\ isAuthenticated (fst (logout signed_in)) = false.
Proof.
  destruct (logout_signs_out signed_in) as (_ & _ & _ & Hauth & _).
  split; [reflexivity | exact Hauth].
Defined.

(** ** Writing a value and reading it back *)

(** One code unit, escaped, reads back as itself. *)
Lemma parse_chars_code_unit (c : ascii) (tail : string) :
  parse_chars (quote_code_unit c ++ tail) = pmap (String c) (parse_chars tail).
Proof. destruct c as [[] [] [] [] [] [] [] []]; reflexivity. Qed.

Lemma parse_chars_quoted (s rest : string) :
  parse_chars (quote_code_units s ++ String (ascii_of_N 34) rest) = POk s rest.
Proof.
  induction s as [|c r IH].
  - reflexivity.
  - change (quote_code_units (String c r)) with (quote_code_unit c ++ quote_code_units r).
    rewrite append_assoc, parse_chars_code_unit, IH. reflexivity.
Qed.

Lemma read_digits_run (d : Decimal.uint) (rest : string) (acc : Z) (len : nat) :
  number_stop rest = true ->
  read_digits (NilEmpty.string_of_uint d ++ rest) acc len
  = (digits_value d acc, (len + Decimal.nb_digits d)%nat, rest).
Proof.
  intros Hstop. revert acc len.
  induction d as [|d IH|d IH|d IH|d IH|d IH|d IH|d IH|d IH|d IH|d IH]; intros acc len;
    try (change (read_digits (NilEmpty.string_of_uint d ++ rest) (10 * acc + 0) (S len)
                 = (digits_value d (10 * acc + 0), (len + S (Decimal.nb_digits d))%nat, rest))
         || change (read_digits (NilEmpty.string_of_uint d ++ rest) (10 * acc + 1) (S len)
                 = (digits_value d (10 * acc + 1), (len + S (Decimal.nb_digits d))%nat, rest))
         || change (read_digits (NilEmpty.string_of_uint d ++ rest) (10 * acc + 2) (S len)
                 = (digits_value d (10 * acc + 2), (len + S (Decimal.nb_digits d))%nat, rest))
         || change (read_digits (NilEmpty.string_of_uint d ++ rest) (10 * acc + 3) (S len)
                 = (digits_value d (10 * acc + 3), (len + S (Decimal.nb_digits d))%nat, rest))
         || change (read_digits (NilEmpty.string_of_uint d ++ rest) (10 * acc + 4) (S len)
                 = (digits_value d (10 * acc + 4), (len + S (Decimal.nb_digits d))%nat, rest))
         || change (read_digits (NilEmpty.string_of_uint d ++ rest) (10 * acc + 5) (S len)
                 = (digits_value d (10 * acc + 5), (len + S (Decimal.nb_digits d))%nat, rest))
         || change (read_digits (NilEmpty.string_of_uint d ++ rest) (10 * acc + 6) (S len)
                 = (digits_value d (10 * acc + 6), (len + S (Decimal.nb_digits d))%nat, rest))
         || change (read_digits (NilEmpty.string_of_uint d ++ rest) (10 * acc + 7) (S len)
                 = (digits_value d (10 * acc + 7), (len + S (Decimal.nb_digits d))%nat, rest))
         || change (read_digits (NilEmpty.string_of_uint d ++ rest) (10 * acc + 8) (S len)
                 = (digits_value d (10 * acc + 8), (len + S (Decimal.nb_digits d))%nat, rest))
         || change (read_digits (NilEmpty.string_of_uint d ++ rest) (10 * acc + 9) (S len)
                 = (digits_value d (10 * acc + 9), (len + S (Decimal.nb_digits d))%nat, rest)));
    try (rewrite IH, Nat.add_succ_r; reflexivity).
  change (read_digits rest acc len = (acc, (len + 0)%nat, rest)).
  rewrite Nat.add_0_r. destruct rest as [|c r]; [reflexivity|].
  simpl in Hstop. apply andb_true_iff in Hstop as [Hd _].
  simpl. apply negb_true_iff in Hd. rewrite Hd. reflexivity.
Qed.

Lemma digits_value_acc (d : Decimal.uint) (acc : positive) :
  digits_value d (Z.pos acc) = Z.pos (Pos.of_uint_acc d acc).
Proof.
  revert acc.
  induction d as [|d IH|d IH|d IH|d IH|d IH|d IH|d IH|d IH|d IH|d IH]; intros acc;
    simpl; [reflexivity|..]; rewrite <- IH; f_equal; lia.
Qed.

Lemma digits_value_of_uint (d : Decimal.uint) :
  digits_value d 0 = Z.of_N (Pos.of_uint d).
Proof.
  induction d as [|d IH|d IH|d IH|d IH|d IH|d IH|d IH|d IH|d IH|d IH];
    simpl; [reflexivity | exact IH | ..]; rewrite <- digits_value_acc; reflexivity.
Qed.

Lemma digits_value_to_uint (p : positive) : digits_value (Pos.to_uint p) 0 = Z.pos p.
Proof. rewrite digits_value_of_uint, DecimalPos.Unsigned.of_to. reflexivity. Qed.

Lemma digits_value_lower (d : Decimal.uint) (acc : Z) :
  (0 <= acc)%Z -> (acc * 10 ^ Z.of_nat (Decimal.nb_digits d) <= digits_value d acc)%Z.
Proof.
  revert acc.
  induction d as [|d IH|d IH|d IH|d IH|d IH|d IH|d IH|d IH|d IH|d IH]; intros acc Hacc;
    [simpl; lia|..];
    cbn [digits_value Decimal.nb_digits];
    rewrite Nat2Z.inj_succ, Z.pow_succ_r by lia;
    (etransitivity; [|apply IH; lia]);
    pose proof (Z.pow_nonneg 10 (Z.of_nat (Decimal.nb_digits d)) ltac:(lia)); nia.
Qed.

(** The decimal digits of a positive number start with a digit other
    than zero. *)
Lemma to_uint_head (p : positive) :
  match Pos.to_uint p with
  | Decimal.Nil | Decimal.D0 _ => False
  | _ => True
  end.
Proof.
  assert (Decimal.unorm (Pos.to_uint p) = Pos.to_uint p) as Hnorm.
  { rewrite <- DecimalPos.Unsigned.to_of, DecimalPos.Unsigned.of_to. reflexivity. }
  pose proof (DecimalPos.Unsigned.to_uint_nonnil p) as Hnil.
  pose proof (DecimalPos.Unsigned.to_uint_nonzero p) as Hzero.
  destruct (Pos.to_uint p) as [|l|l|l|l|l|l|l|l|l|l]; try exact I; [congruence|].
  unfold Decimal.unorm in Hnorm. simpl in Hnorm.
  pose proof (DecimalFacts.nb_digits_nzhead l) as Hlen.
  destruct (Decimal.nzhead l) eqn:Hhead.
  - injection Hnorm as <-. congruence.
  - rewrite Hnorm in Hlen. simpl in Hlen. lia.
  - discriminate.
  - discriminate.
  - discriminate.
  - discriminate.
  - discriminate.
  - discriminate.
  - discriminate.
  - discriminate.
  - discriminate.
Qed.

Lemma parse_unsigned_positive (p : positive) (rest : string) :
  (Z.pos p < 10 ^ 15)%Z ->
  number_stop rest = true ->
  parse_unsigned (NilEmpty.string_of_uint (Pos.to_uint p) ++ rest) = POk (Z.pos p) rest.
Proof.
  intros Hp Hstop.
  pose proof (to_uint_head p) as Hhead.
  pose proof (digits_value_to_uint p) as Hval.
  assert (starts_fraction_or_exponent rest = false) as Hfrac.
  { destruct rest as [|c r]; [reflexivity|].
    unfold number_stop in Hstop. apply andb_true_iff in Hstop as [_ Hf].
    apply negb_true_iff in Hf. exact Hf. }
  assert (forall l k, (1 <= k)%Z -> digits_value l k = Z.pos p ->
            (15 <? 1 + Decimal.nb_digits l)%nat = false) as Hlen.
  { intros l k Hk Hl. apply Nat.ltb_ge.
    pose proof (digits_value_lower l k ltac:(lia)) as Hlow. rewrite Hl in Hlow.
    destruct (Nat.le_gt_cases (Decimal.nb_digits l) 14) as [|Hbig]; [lia|].
    assert (10 ^ 15 <= 10 ^ Z.of_nat (Decimal.nb_digits l))%Z
      by (apply Z.pow_le_mono_r; lia).
    nia. }
  destruct (Pos.to_uint p) as [|l|l|l|l|l|l|l|l|l|l]; try contradiction;
    cbn [NilEmpty.string_of_uint digits_value] in *;
    rewrite append_cons;
    unfold parse_unsigned;
    lazymatch goal with
    | |- context [read_digits (String ?c (?t ++ rest)) 0 0] =>
        change (read_digits (String c (t ++ rest)) 0 0)
          with (read_digits (t ++ rest) (10 * 0 + Z.of_N (N_of_ascii c - 48)) 1);
        change (N_of_ascii c =? 48)%N with false;
        change (is_digit c) with true
    end;
    cbv iota; rewrite read_digits_run by exact Hstop;
    rewrite Hfrac; (erewrite Hlen; [|..]; [ | | exact Hval]; [|lia]);
    f_equal; exact Hval.
Qed.

Lemma string_of_Z_digits (p : positive) :
  string_of_Z (Z.pos p) = NilEmpty.string_of_uint (Pos.to_uint p) /\
  string_of_Z (Z.neg p) = String "-" (NilEmpty.string_of_uint (Pos.to_uint p)).
Proof.
  unfold string_of_Z. simpl. pose proof (to_uint_head p) as Hhead.
  destruct (Pos.to_uint p); try contradiction; split; reflexivity.
Qed.

Lemma parse_number_text (n : Z) (rest : string) :
  (Z.abs n < 10 ^ 15)%Z ->
  number_stop rest = true ->
  parse_number (string_of_Z n ++ rest) = POk (JNum n) rest.
Proof.
  intros Hn Hstop.
  assert (starts_fraction_or_exponent rest = false) as Hfrac.
  { destruct rest as [|c r]; [reflexivity|].
    unfold number_stop in Hstop. apply andb_true_iff in Hstop as [_ Hf].
    apply negb_true_iff in Hf. exact Hf. }
  destruct n as [|p|p].
  - change (string_of_Z 0 ++ rest) with (String "0" rest).
    unfold parse_number, parse_unsigned.
    change (N_of_ascii "0" =? 45)%N with false. change (N_of_ascii "0" =? 48)%N with true.
    cbv iota. rewrite Hfrac. reflexivity.
  - destruct (string_of_Z_digits p) as [-> _].
    pose proof (parse_unsigned_positive p rest ltac:(lia) Hstop) as Hpu.
    pose proof (to_uint_head p) as Hhead.
    destruct (Pos.to_uint p); try contradiction;
      cbn [NilEmpty.string_of_uint] in *; rewrite append_cons in *;
      unfold parse_number;
      lazymatch goal with
      | |- context [(N_of_ascii ?c =? 45)%N] => change (N_of_ascii c =? 45)%N with false
      end;
      cbv iota; rewrite Hpu; reflexivity.
  - destruct (string_of_Z_digits p) as [_ ->].
    rewrite append_cons. unfold parse_number.
    change (N_of_ascii "-" =? 45)%N with true. cbv iota.
    rewrite parse_unsigned_positive by (exact Hstop || lia). reflexivity.
Qed.

Lemma value_start_facts (c : ascii) :
  value_start c = true ->
  json_ws c = false /\ (N_of_ascii c =? 93)%N = false /\ (N_of_ascii c =? 125)%N = false.
Proof.
  destruct c as [[] [] [] [] [] [] [] []]; intros Hs;
    try (repeat split; reflexivity); vm_compute in Hs; discriminate Hs.
Qed.

Lemma parse_value_number_start (f : nat) (c : ascii) (r : string) :
  (is_digit c || (N_of_ascii c =? 45)%N) = true ->
  parse_value (S f) (String c r) = parse_number (String c r).
Proof.
  destruct c as [[] [] [] [] [] [] [] []]; intros Hs;
    try reflexivity; vm_compute in Hs; discriminate Hs.
Qed.

Lemma string_of_Z_start (n : Z) :
  exists c r, string_of_Z n = String c r /\ (is_digit c || (N_of_ascii c =? 45)%N) = true.
Proof.
  destruct n as [|p|p].
  - exists "0"%char, EmptyString. split; reflexivity.
  - destruct (string_of_Z_digits p) as [-> _]. pose proof (to_uint_head p) as Hhead.
    destruct (Pos.to_uint p); try contradiction; simpl; eexists _, _; split; reflexivity.
  - destruct (string_of_Z_digits p) as [_ ->]. eexists _, _. split; reflexivity.
Qed.

Lemma serialized_start (v : JSValue) (t : string) :
  SerializeJSONProperty v = Some t ->
  exists c r, t = String c r /\ value_start c = true.
Proof.
  destruct v as [| |[]|n|s|items|props]; simpl; intros Ht; try discriminate;
    injection Ht as <-; try (eexists _, _; split; reflexivity).
  destruct (string_of_Z_start n) as (c & r & -> & Hc).
  exists c, r. split; [reflexivity|]. unfold value_start.
  apply orb_true_iff in Hc as [Hc | Hc]; rewrite Hc; rewrite ?orb_true_r; reflexivity.
Qed.

Lemma skip_ws_value_start (c : ascii) (r : string) :
  value_start c = true -> skip_ws (String c r) = String c r.
Proof. intros Hs. simpl. destruct (value_start_facts c Hs) as [-> _]. reflexivity. Qed.


Lemma parse_value_string (f : nat) (text : string) :
  parse_value (S f) (String (ascii_of_N 34) text) = pmap JStr (parse_chars text).
Proof. reflexivity. Qed.

Lemma parse_value_array (f : nat) (text : string) :
  parse_value (S f) (String "[" text)
  = match skip_ws text with
    | String c1 r1 =>
        if (N_of_ascii c1 =? 93)%N then POk (JArr []) r1
        else pmap JArr (parse_elems f text)
    | EmptyString => PErr
    end.
Proof. reflexivity. Qed.

Lemma parse_value_object (f : nat) (text : string) :
  parse_value (S f) (String "{" text)
  = match skip_ws text with
    | String c1 r1 =>
        if (N_of_ascii c1 =? 125)%N then POk (JObj []) r1
        else pmap JObj (parse_members f text)
    | EmptyString => PErr
    end.
Proof. reflexivity. Qed.

Lemma parse_elems_step (f : nat) (text : string) :
  parse_elems (S f) text
  = match parse_value f text with
    | POk v r =>
        match skip_ws r with
        | String c r1 =>
            if (N_of_ascii c =? 44)%N then pmap (cons v) (parse_elems f r1)
            else if (N_of_ascii c =? 93)%N then POk [v] r1
            else PErr
        | EmptyString => PErr
        end
    | PErr => PErr
    | POut => POut
    end.
Proof. reflexivity. Qed.

Lemma parse_members_step (f : nat) (k tail : string) :
  parse_members (S f)
    (String (ascii_of_N 34)
       (quote_code_units k ++ String (ascii_of_N 34) (String ":" tail)))
  = match parse_value f tail with
    | POk v r3 =>
        match skip_ws r3 with
        | String d r4 =>
            if (N_of_ascii d =? 44)%N then pmap (cons (k, v)) (parse_members f r4)
            else if (N_of_ascii d =? 125)%N then POk [(k, v)] r4
            else PErr
        | EmptyString => PErr
        end
    | PErr => PErr
    | POut => POut
    end.
Proof.
  change (parse_members (S f)
            (String (ascii_of_N 34)
               (quote_code_units k ++ String (ascii_of_N 34) (String ":" tail))))
    with (match parse_chars (quote_code_units k
                             ++ String (ascii_of_N 34) (String ":" tail)) with
          | POk k r1 =>
              match skip_ws r1 with
              | String c r2 =>
                  if (N_of_ascii c =? 58)%N then
                    match parse_value f r2 with
                    | POk v r3 =>
                        match skip_ws r3 with
                        | String d r4 =>
                            if (N_of_ascii d =? 44)%N
                            then pmap (cons (k, v)) (parse_members f r4)
                            else if (N_of_ascii d =? 125)%N then POk [(k, v)] r4
                            else PErr
                        | EmptyString => PErr
                        end
                    | PErr => PErr
                    | POut => POut
                    end
                  else PErr
              | EmptyString => PErr
              end
          | PErr => PErr
          | POut => POut
          end).
  rewrite parse_chars_quoted. reflexivity.
Qed.

Lemma member_text (k t tail : string) :
  (QuoteJSONString k ++ ":" ++ t) ++ tail
  = String (ascii_of_N 34)
      (quote_code_units k ++ String (ascii_of_N 34) (String ":" (t ++ tail))).
Proof.
  unfold QuoteJSONString. rewrite !append_cons, !append_assoc. reflexivity.
Qed.

Lemma parse_elems_serialized (items : list JSValue) :
  Forall reads_back items ->
  let texts := List.map (fun x => default "null" (SerializeJSONProperty x)) items in
  (list_sum (List.map (fun x => S (JSValue_size x)) items)
   <= 2 * String.length (join_with "," texts) + 1)%nat /\
  (items <> [] ->
   (exists c r, join_with "," texts = String c r /\ value_start c = true) /\
   forall fuel rest,
     (list_sum (List.map (fun x => S (JSValue_size x)) items) <= fuel)%nat ->
     parse_elems fuel (join_with "," texts ++ String "]" rest) = POk items rest).
Proof.
  induction 1 as [|x xs (t & Ht & Hsz & Hparse) Hxs IH]; [simpl; split; [lia | congruence]|].
  cbv zeta in *. destruct IH as [IHsz IHparse].
  destruct (serialized_start x t Ht) as (c & r & Hc & Hstart).
  cbn [List.map]. rewrite Ht. cbn [default from_option]. change (id t) with t. unfold list_sum in *.
  cbn [fold_right List.map] in *.
  destruct xs as [|y ys].
  - cbn [List.map join_with fold_right] in *. split; [lia|]. intros _. split.
    + exists c, r. split; assumption.
    + intros [|f] rest Hfuel; [lia|].
      rewrite parse_elems_step, Hparse by (reflexivity || lia). reflexivity.
  - destruct (IHparse ltac:(discriminate)) as [_ IHp].
    set (rest_texts := List.map (fun x => default "null" (SerializeJSONProperty x)) (y :: ys)) in *.
    change (join_with "," (t :: rest_texts)) with (t ++ "," ++ join_with "," rest_texts).
    split; [|intros _; split].
    + rewrite !length_append. cbn [String.length].
      change (String.length ",") with 1%nat. lia.
    + exists c, (r ++ "," ++ join_with "," rest_texts). rewrite Hc. split; [reflexivity|assumption].
    + intros [|f] rest Hfuel; [lia|].
      rewrite !append_assoc.
      change ("," ++ join_with "," rest_texts ++ String "]" rest)
        with (String "," (join_with "," rest_texts ++ String "]" rest)).
      rewrite parse_elems_step, Hparse by (reflexivity || lia).
      change (skip_ws (String "," (join_with "," rest_texts ++ String "]" rest)))
        with (String "," (join_with "," rest_texts ++ String "]" rest)).
      change (N_of_ascii "," =? 44)%N with true. cbv iota.
      rewrite IHp by lia. reflexivity.
Qed.

Lemma parse_members_serialized (props : list (string * JSValue)) :
  Forall (fun kv => reads_back (snd kv)) props ->
  let texts := serialize_members SerializeJSONProperty props in
  (list_sum (List.map (fun kv => S (JSValue_size (snd kv))) props)
   <= 2 * String.length (join_with "," texts) + 1)%nat /\
  (props <> [] ->
   (exists r, join_with "," texts = String (ascii_of_N 34) r) /\
   forall fuel rest,
     (list_sum (List.map (fun kv => S (JSValue_size (snd kv))) props) <= fuel)%nat ->
     parse_members fuel (join_with "," texts ++ String "}" rest) = POk props rest).
Proof.
  induction 1 as [|[k x] ps (t & Ht & Hsz & Hparse) Hps IH];
    [simpl; split; [lia | congruence]|].
  cbv zeta in *. destruct IH as [IHsz IHparse]. cbn [snd] in *.
  cbn [List.map serialize_members]. rewrite Ht. unfold list_sum in *.
  cbn [fold_right snd] in *.
  set (m := QuoteJSONString k ++ ":" ++ t).
  assert (String.length t + 3 <= String.length m)%nat as Hm.
  { unfold m, QuoteJSONString. rewrite !length_append. cbn [String.length].
    rewrite length_append. cbn [String.length]. lia. }
  destruct ps as [|[k' y] ys].
  - cbn [List.map serialize_members join_with fold_right] in *.
    split; [lia|]. intros _. split.
    + eexists. reflexivity.
    + intros [|f] rest Hfuel; [lia|].
      unfold m. rewrite member_text, parse_members_step, Hparse by (reflexivity || lia).
      reflexivity.
  - destruct (IHparse ltac:(discriminate)) as [[r' Hr'] IHp].
    set (rest_texts := serialize_members SerializeJSONProperty ((k', y) :: ys)) in *.
    assert (join_with "," (m :: rest_texts) = m ++ "," ++ join_with "," rest_texts) as ->.
    { destruct rest_texts; [discriminate Hr' | reflexivity]. }
    split; [|intros _; split].
    + rewrite !length_append. change (String.length ",") with 1%nat. lia.
    + eexists. unfold m, QuoteJSONString. rewrite append_cons. reflexivity.
    + intros [|f] rest Hfuel; [lia|].
      rewrite append_assoc, (append_assoc ",").
      change ("," ++ join_with "," rest_texts ++ String "}" rest)
        with (String "," (join_with "," rest_texts ++ String "}" rest)).
      unfold m. rewrite member_text, parse_members_step, Hparse by (reflexivity || lia).
      change (skip_ws (String "," (join_with "," rest_texts ++ String "}" rest)))
        with (String "," (join_with "," rest_texts ++ String "}" rest)).
      change (N_of_ascii "," =? 44)%N with true. cbv iota.
      rewrite IHp by lia. reflexivity.
Qed.

(** Every plain value is read back from its serialization. *)
Lemma plain_data_reads_back (v : JSValue) : plain_data v = true -> reads_back v.
Proof.
  induction v as [| |b|n|s|items IH|props IH] using JSValue_nested_ind; intros Hplain.
  - discriminate.
  - exists "null". split; [reflexivity|]. split; [simpl; lia|].
    intros [|f] rest Hfuel _; [simpl in Hfuel; lia | reflexivity].
  - exists (if b then "true" else "false").
    split; [destruct b; reflexivity|]. split; [destruct b; simpl; lia|].
    intros [|f] rest Hfuel _; [simpl in Hfuel; lia | destruct b; reflexivity].
  - exists (string_of_Z n). split; [reflexivity|].
    destruct (string_of_Z_start n) as (c & r & Hc & Hstart). split.
    + rewrite Hc. simpl. lia.
    + intros [|f] rest Hfuel Hstop; [simpl in Hfuel; lia|].
      simpl in Hplain. apply Z.ltb_lt in Hplain.
      rewrite <- (parse_number_text n rest Hplain Hstop), Hc, append_cons.
      apply parse_value_number_start, Hstart.
  - exists (QuoteJSONString s). split; [reflexivity|]. split.
    + unfold QuoteJSONString. simpl. lia.
    + intros [|f] rest Hfuel _; [simpl in Hfuel; lia|].
      unfold QuoteJSONString. rewrite append_cons, append_assoc, append_cons.
      rewrite parse_value_string, parse_chars_quoted. reflexivity.
  - simpl in Hplain.
    assert (Forall reads_back items) as Hall.
    { rewrite forallb_forall in Hplain. rewrite Forall_forall in IH |- *.
      intros x Hx. apply (IH x Hx), Hplain, list_elem_of_In, Hx. }
    destruct (parse_elems_serialized items Hall) as [Hsz Hparse]. cbv zeta in *.
    set (J := join_with "," (List.map (fun x => default "null" (SerializeJSONProperty x)) items)) in *.
    exists ("[" ++ J ++ "]"). split; [reflexivity|].
    split.
    + cbn [JSValue_size]. change ("[" ++ J ++ "]") with (String "[" (J ++ "]")).
      cbn [String.length]. rewrite length_append. cbn [String.length]. lia.
    + intros [|f] rest Hfuel _; [simpl in Hfuel; lia|]. cbn [JSValue_size] in Hfuel.
      change ("[" ++ J ++ "]") with (String "[" (J ++ "]")).
      rewrite append_cons, append_assoc, parse_value_array.
      change ("]" ++ rest) with (String "]" rest).
      destruct items as [|x xs].
      * reflexivity.
      * destruct (Hparse ltac:(discriminate)) as [(c & r & HJ & Hstart) Hp].
        rewrite Hp by lia. rewrite HJ, append_cons, skip_ws_value_start by exact Hstart.
        destruct (value_start_facts c Hstart) as (_ & -> & _). reflexivity.
  - simpl in Hplain. apply andb_true_iff in Hplain as [_ Hplain].
    assert (Forall (fun kv => reads_back (snd kv)) props) as Hall.
    { rewrite forallb_forall in Hplain. rewrite Forall_forall in IH |- *.
      intros kv Hkv. apply (IH kv Hkv), Hplain, list_elem_of_In, Hkv. }
    destruct (parse_members_serialized props Hall) as [Hsz Hparse]. cbv zeta in *.
    set (J := join_with "," (serialize_members SerializeJSONProperty props)) in *.
    exists ("{" ++ J ++ "}"). split; [reflexivity|].
    split.
    + cbn [JSValue_size]. change ("{" ++ J ++ "}") with (String "{" (J ++ "}")).
      cbn [String.length]. rewrite length_append. cbn [String.length]. lia.
    + intros [|f] rest Hfuel _; [simpl in Hfuel; lia|]. cbn [JSValue_size] in Hfuel.
      change ("{" ++ J ++ "}") with (String "{" (J ++ "}")).
      rewrite append_cons, append_assoc, parse_value_object.
      change ("}" ++ rest) with (String "}" rest).
      destruct props as [|kv ps].
      * reflexivity.
      * destruct (Hparse ltac:(discriminate)) as [[r HJ] Hp].
        rewrite Hp by lia. rewrite HJ, append_cons. reflexivity.
Qed.

(** [JSON.parse(JSON.stringify(v))] is [v], for plain data. *)
Lemma JSON_parse_stringify (v : JSValue) :
  plain_data v = true ->
  exists text,
    JSON_stringify v = Some text /\ text <> EmptyString /\
    JSON_parse_text text = Some (Normal v).
Proof.
  intros Hplain. destruct (plain_data_reads_back v Hplain) as (t & Ht & Hsz & Hparse).
  exists t. split; [exact Ht|]. split.
  - destruct (serialized_start v t Ht) as (c & r & -> & _). discriminate.
  - unfold JSON_parse_text. rewrite <- (append_empty_r t) at 2.
    rewrite Hparse by (reflexivity || lia). reflexivity.
Qed.

(** X12.  The cached user survives the storage: what [setUser] writes,
    [getUser] reads back unchanged, for every user made of plain data;
    [setUser] touches no other entry. *)
Theorem stored_user_reads_back (user : JSValue) (b : Browser) :
  plain_data user = true ->
  getUser (fst (setUser user b)) = Normal user /\
  (forall k, k <> "user" ->
     localStorage (fst (setUser user b)) !! k = localStorage b !! k).
Proof.
  intros Hplain. unfold getUser, setUser. js_unfold. simpl. split.
  - rewrite lookup_insert_eq.
    destruct (JSON_parse_stringify user Hplain) as (text & -> & Hne & Hparse). simpl.
    destruct (String.eqb_spec text EmptyString) as [Heq|_]; [contradiction|].
    rewrite Hparse. reflexivity.
  - intros k Hk. apply lookup_insert_ne. congruence.
Qed.

Lemma stored_user_reads_back_witness :
  getUser (fst (setUser learner_object signed_out)) = Normal learner_object.
Proof.
  apply (stored_user_reads_back learner_object signed_out). vm_compute. reflexivity.
Defined.

Section StoredUser.
Context `{JSON}.

(** X13.  After a login that returned, [getUser] gives the user of the
    reply, when that user is plain data and [JSON.parse] reads its
    serialization back; when the reply has no [user], [getUser] gives
    what [JSON.parse] makes of the word undefined.  This holds whatever
    [JSON.parse] does on other text. *)
Theorem login_then_getUser (fetched : FetchResult) (b : Browser) (data user : JSValue) :
  snd (login fetched b) = Normal data ->
  get_prop data "user" = Normal user ->
  (plain_data user = true ->
   (forall text, JSON_stringify user = Some text -> JSON_parse text = Normal user) ->
   getUser (fst (login fetched b)) = Normal user) /\
  (user = JUndefined -> getUser (fst (login fetched b)) = JSON_parse "undefined").
Proof.
  intros Hdata Huser.
  pose proof (login_effect fetched b) as Hlogin.
  rewrite Hdata in Hlogin.
  destruct Hlogin as (access_token & user' & _ & _ & Huser' & Hstore & _).
  rewrite Huser in Huser'. injection Huser' as <-.
  unfold getUser. rewrite Hstore, lookup_insert_eq. split.
  - intros Hplain Hback.
    destruct (JSON_parse_stringify user Hplain) as (text & Htext & Hne & _).
    rewrite Htext. simpl.
    destruct (String.eqb_spec text EmptyString) as [Heq|_]; [contradiction|].
    apply Hback, Htext.
  - intros ->. reflexivity.
Qed.

End StoredUser.

Lemma login_then_getUser_witness :
  getUser (fst (login login_reply signed_out))
  = Normal (JObj [("id", JNum 7); ("name", JStr "Ada"); ("cefr_level", JNull)]) /\
  getUser (fst (login login_reply_without_user signed_out)) = Throw SyntaxError.
Proof.
  split.
  - destruct (login_then_getUser login_reply signed_out
                (JObj [("access_token", JStr "eyJhbGciOi");
                       ("user", JObj [("id", JNum 7); ("name", JStr "Ada");
                                      ("cefr_level", JNull)])])
                (JObj [("id", JNum 7); ("name", JStr "Ada"); ("cefr_level", JNull)]))
      as [Hget _]; [vm_compute; reflexivity | reflexivity|].
    apply Hget; [reflexivity|]. intros text [= <-]. reflexivity.
  - destruct (login_then_getUser login_reply_without_user signed_out
                (JObj [("access_token", JStr "eyJhbGciOi")]) JUndefined)
      as [_ Hget]; [vm_compute; reflexivity | reflexivity|].
    rewrite Hget; reflexivity.
Defined.
(** ** Sending a message *)

Lemma only_shows_refl (t : Talk) : only_shows t t.
Proof. repeat split. exists []. rewrite app_nil_r. reflexivity. Qed.

Lemma only_shows_trans (t1 t2 t3 : Talk) :
  only_shows t1 t2 -> only_shows t2 t3 -> only_shows t1 t3.
Proof.
  intros (Hc & Hq & Hs & Hf & shown & Hsc) (Hc' & Hq' & Hs' & Hf' & shown' & Hsc').
  repeat split; try congruence.
  exists (shown ++ shown')%list. rewrite Hsc', Hsc, <- app_assoc. reflexivity.
Qed.



Lemma queues_then_shows (t1 t2 t3 : Talk) :
  queues_one t1 t2 -> only_shows t2 t3 -> queues_one t1 t3.
Proof.
  intros (Hc & (more & Hq & Hlen) & Hs & Hf & shown & Hsc)
         (Hc' & Hq' & Hs' & Hf' & shown' & Hsc').
  repeat split; try congruence.
  - exists more. rewrite Hq', Hq. split; [reflexivity | exact Hlen].
  - exists (shown ++ shown')%list. rewrite Hsc', Hsc, <- app_assoc. reflexivity.
Qed.

Lemma adds_turn_grows (m : Message) (t1 t2 : Talk) :
  isAi m = false -> adds_turn m t1 t2 -> grows_by_learner_turn t1 t2.
Proof.
  intros Hm (Hc & Hq & Hs & Hf & shown & Hsc).
  exists [m], [], shown. rewrite app_nil_r.
  repeat split; try assumption; simpl; try lia. constructor; [exact Hm | constructor].
Qed.

Lemma adds_then_queues (m : Message) (t1 t2 t3 : Talk) :
  isAi m = false -> adds_turn m t1 t2 -> queues_one t2 t3 -> grows_by_learner_turn t1 t3.
Proof.
  intros Hm (Hc & Hq & Hs & Hf & shown & Hsc)
         (Hc' & (more & Hq' & Hlen) & Hs' & Hf' & shown' & Hsc').
  exists [m], more, (shown ++ shown')%list.
  rewrite Hc', Hc, Hq', Hq, Hsc', Hsc, Hs', Hs, Hf', Hf, <- app_assoc.
  repeat split; simpl; try lia. constructor; [exact Hm | constructor].
Qed.



(** *** Steps that only show *)

Lemma always_bind {A B} (R : Talk -> Talk -> Prop) (m : JS Talk A) (k : A -> JS Talk B) :
  (forall t1 t2 t3, R t1 t2 -> R t2 t3 -> R t1 t3) ->
  always R m -> (forall a, always R (k a)) -> always R (bind m k).
Proof.
  intros Htrans Hm Hk t. unfold bind. specialize (Hm t).
  destruct (m t) as [t1 [a|e]]; simpl in *; [|exact Hm].
  apply (Htrans t t1); [exact Hm | apply Hk].
Qed.

Lemma shows_bind {A B} (m : JS Talk A) (k : A -> JS Talk B) :
  always only_shows m -> (forall a, always only_shows (k a)) ->
  always only_shows (bind m k).
Proof. apply always_bind, only_shows_trans. Qed.

Lemma shows_ret {A} (a : A) : always only_shows (ret a).
Proof. intros t. apply only_shows_refl. Qed.

Lemma shows_throw {A} (e : JSError) : always only_shows (@throw Talk A e).
Proof. intros t. apply only_shows_refl. Qed.

Lemma shows_lift {A} (c : completion A) : always only_shows (lift c).
Proof. intros t. apply only_shows_refl. Qed.

Lemma shows_gets {A} (f : Talk -> A) : always only_shows (gets f).
Proof. intros t. apply only_shows_refl. Qed.

Lemma shows_show (e : TalkEffect) : always only_shows (show e).
Proof. intros t. repeat split. exists [e]. reflexivity. Qed.

Lemma shows_ToPrimitive (v : JSValue) : always only_shows (ToPrimitive v).
Proof. intros t. unfold ToPrimitive. destruct (ToPrimitive_raises v); apply only_shows_refl. Qed.

Lemma shows_on_element (present : bool) : always only_shows (on_element present).
Proof. intros t. unfold on_element. destruct present; apply only_shows_refl. Qed.

Lemma shows_set_current_turn (v : option JSValue) :
  always only_shows (modify (set_current_turn v)).
Proof. intros t. repeat split. exists []. simpl. rewrite app_nil_r. reflexivity. Qed.

Lemma shows_replace_interface : always only_shows (modify replace_interface).
Proof. intros t. repeat split. exists []. simpl. rewrite app_nil_r. reflexivity. Qed.

Lemma shows_set_input_value (v : string) : always only_shows (modify (set_input_value v)).
Proof. intros t. repeat split. exists []. simpl. rewrite app_nil_r. reflexivity. Qed.

Lemma shows_catch {A} (m : JS Talk A) (h : JSError -> JS Talk A) :
  always only_shows m -> (forall e, always only_shows (h e)) ->
  always only_shows (catch m h).
Proof.
  intros Hm Hh t. unfold catch. specialize (Hm t).
  destruct (m t) as [t1 [a|e]]; simpl in *; [exact Hm|].
  apply (only_shows_trans t t1); [exact Hm | apply Hh].
Qed.

Ltac shows :=
  repeat first
    [ apply shows_ret | apply shows_throw | apply shows_lift | apply shows_gets
    | apply shows_show | apply shows_ToPrimitive | apply shows_on_element
    | apply shows_set_current_turn | apply shows_replace_interface
    | apply shows_set_input_value
    | apply shows_catch; [|intros ?]
    | apply shows_bind; [|intros ?]
    | match goal with
      | |- always only_shows (if ?b then _ else _) => destruct b
      | |- always only_shows (match ?x with _ => _ end) => destruct x
      end ].

Lemma showFeedback_shows (analysis : JSValue) : always only_shows (showFeedback analysis).
Proof. unfold showFeedback. shows. Qed.


(** *** Steps that queue a reply or add a turn *)


Lemma queues_before_shows {A B} (m : JS Talk A) (k : A -> JS Talk B) :
  always queues_one m -> (forall a, always only_shows (k a)) ->
  always queues_one (bind m k).
Proof.
  intros Hm Hk t. unfold bind. specialize (Hm t).
  destruct (m t) as [t1 [a|e]]; simpl in *; [|exact Hm].
  apply (queues_then_shows t t1); [exact Hm | apply Hk].
Qed.

Lemma queues_a_reply (q : Queued) :
  always queues_one (modify (fun t => set_queued (queued t ++ [q])%list t)).
Proof.
  intros t. repeat split; simpl.
  - exists [q]. split; [reflexivity | simpl; lia].
  - exists []. rewrite app_nil_r. reflexivity.
Qed.

Lemma addMessage_adds_turn (txt : JSValue) (ai : bool) :
  always (adds_turn {| text := txt; isAi := ai |}) (addMessage txt ai).
Proof.
  intros t. unfold addMessage, ToPrimitive, show. js_unfold. simpl.
  destruct (has_chat_container t); simpl;
    [destruct (ToPrimitive_raises txt); simpl|];
    repeat split; simpl; try (exists []; rewrite app_nil_r; reflexivity).
  eexists. reflexivity.
Qed.

Lemma grows_after_turn {A} (txt : JSValue) (k : unit -> JS Talk A) :
  (forall a, always queues_one (k a)) ->
  always grows_by_learner_turn (bind (addMessage txt false) k).
Proof.
  intros Hk t. unfold bind. pose proof (addMessage_adds_turn txt false t) as Hm.
  destruct (addMessage txt false t) as [t1 [a|e]]; simpl in *.
  - apply (adds_then_queues {| text := txt; isAi := false |} t t1);
      [reflexivity | exact Hm | apply Hk].
  - apply (adds_turn_grows {| text := txt; isAi := false |} t t1);
      [reflexivity | exact Hm].
Qed.

Lemma grows_refl (t : Talk) : grows_by_learner_turn t t.
Proof.
  exists [], [], []. rewrite !app_nil_r. repeat split; simpl; try lia. constructor.
Qed.


Lemma handleFreeTalkResponse_grows (result : JSValue) :
  always grows_by_learner_turn (handleFreeTalkResponse result).
Proof.
  intros t. unfold handleFreeTalkResponse. unfold bind at 1, lift at 1.
  destruct (get_prop result "user_message") as [um|e]; [|apply grows_refl].
  apply grows_after_turn. intros _.
  apply queues_before_shows; [apply queues_a_reply | intros _].
  apply shows_bind; [shows | intros t0].
  apply shows_bind; [shows | intros message_count].
  apply shows_bind; [shows | intros _].
  apply shows_bind; [shows | intros _].
  apply shows_bind; [shows | intros _].
  apply shows_bind; [shows | intros averages].
  apply shows_bind; [shows | intros f].
  apply shows_bind; [shows | intros g].
  apply shows_bind; [shows | intros v].
  apply shows_bind; [shows | intros _].
  apply shows_bind; [shows | intros _].
  apply shows_bind; [shows | intros _].
  apply shows_bind; [shows | intros _].
  apply shows_bind; [shows | intros _].
  apply shows_bind; [shows | intros current_analysis].
  apply showFeedback_shows.
Qed.

Section Sending.
Context `{JSON}.






End Sending.

(** ** The free-talk page and its feedback panel *)

Lemma get_prop_error (v : JSValue) (k : string) (e : JSError) :
  get_prop v k = Throw e -> e = TypeError.
Proof. destruct v; simpl; congruence. Qed.

Lemma stays_bind {A B} (P : Talk -> Prop) (m : JS Talk A) (k : A -> JS Talk B) :
  stays_in P m -> (forall a, stays_in P (k a)) -> stays_in P (bind m k).
Proof.
  intros Hm Hk t Ht. unfold bind. destruct (Hm t Ht) as [He | [[a Ha] HP]].
  - left. destruct (m t) as [t1 [a|e]]; simpl in *; congruence.
  - destruct (m t) as [t1 [a'|e]]; simpl in *; [|discriminate]. apply Hk, HP.
Qed.

Lemma fails_bind {A B} (P : Talk -> Prop) (m : JS Talk A) (k : A -> JS Talk B) :
  stays_in P m -> (forall a, fails_in P (k a)) -> fails_in P (bind m k).
Proof.
  intros Hm Hk t Ht. unfold bind. destruct (Hm t Ht) as [He | [[a Ha] HP]].
  - destruct (m t) as [t1 [a|e]]; simpl in *; congruence.
  - destruct (m t) as [t1 [a'|e]]; simpl in *; [|discriminate]. apply Hk, HP.
Qed.

Section PanelWithoutText.

Let P := panel_without_text.

Lemma stays_get_prop (v : JSValue) (k : string) : stays_in P (lift (get_prop v k)).
Proof.
  intros t Ht. unfold lift. simpl. destruct (get_prop v k) as [a|e] eqn:Hg.
  - right. split; [exists a; reflexivity | exact Ht].
  - left. rewrite (get_prop_error v k e Hg). reflexivity.
Qed.

Lemma stays_gets {A} (f : Talk -> A) : stays_in P (gets f).
Proof. intros t Ht. right. split; [eexists; reflexivity | exact Ht]. Qed.

Lemma stays_ret {A} (a : A) : stays_in P (ret a).
Proof. intros t Ht. right. split; [eexists; reflexivity | exact Ht]. Qed.

Lemma stays_show (e : TalkEffect) : stays_in P (show e).
Proof. intros t Ht. right. split; [eexists; reflexivity | exact Ht]. Qed.

Lemma stays_ToPrimitive (v : JSValue) : stays_in P (ToPrimitive v).
Proof.
  intros t Ht. unfold ToPrimitive. destruct (ToPrimitive_raises v);
    [left; reflexivity | right; split; [eexists; reflexivity | exact Ht]].
Qed.

Lemma stays_on_element (present : bool) : stays_in P (on_element present).
Proof.
  intros t Ht. unfold on_element. destruct present;
    [right; split; [eexists; reflexivity | exact Ht] | left; reflexivity].
Qed.

Lemma stays_queue (q : Queued) :
  stays_in P (modify (fun t => set_queued (queued t ++ [q])%list t)).
Proof. intros t Ht. right. split; [eexists; reflexivity | exact Ht]. Qed.

Lemma stays_addMessage (txt : JSValue) (ai : bool) : stays_in P (addMessage txt ai).
Proof.
  unfold addMessage. apply stays_bind.
  - intros t Ht. right. split; [eexists; reflexivity | exact Ht].
  - intros _. apply stays_bind; [apply stays_gets | intros t0].
    destruct (has_chat_container t0); [|apply stays_ret].
    apply stays_bind; [apply stays_ToPrimitive | intros _; apply stays_show].
Qed.

Ltac stays :=
  first [ apply stays_get_prop | apply stays_gets | apply stays_ret | apply stays_show
        | apply stays_ToPrimitive | apply stays_on_element | apply stays_queue
        | apply stays_addMessage ].

(** On such a page [showFeedback] never returns: after the scores it
    reaches the assignment to the missing element. *)
Lemma showFeedback_fails (analysis : JSValue) : fails_in P (showFeedback analysis).
Proof.
  intros t [Hpanel Htext]. unfold showFeedback. unfold bind at 1, gets at 1, id.
  cbv beta iota. rewrite Hpanel, Htext.
  refine (fails_bind P _ _ _ _ t (conj Hpanel Htext)); [stays | intros f].
  apply fails_bind; [stays | intros g].
  apply fails_bind; [stays | intros v].
  apply fails_bind; [stays | intros _].
  apply fails_bind; [stays | intros _].
  apply fails_bind; [stays | intros _].
  apply fails_bind; [stays | intros _].
  apply fails_bind; [stays | intros _].
  apply fails_bind; [stays | intros feedback].
  apply fails_bind; [stays | intros _].
  intros s Hs. reflexivity.
Qed.

Lemma handleFreeTalkResponse_fails (result : JSValue) :
  fails_in P (handleFreeTalkResponse result).
Proof.
  unfold handleFreeTalkResponse.
  apply fails_bind; [stays | intros user_message].
  apply fails_bind; [stays | intros _].
  apply fails_bind; [stays | intros _].
  apply fails_bind; [stays | intros t0].
  apply fails_bind; [stays | intros message_count].
  apply fails_bind; [stays | intros _].
  apply fails_bind; [stays | intros _].
  apply fails_bind; [stays | intros _].
  apply fails_bind; [stays | intros averages].
  apply fails_bind; [stays | intros f].
  apply fails_bind; [stays | intros g].
  apply fails_bind; [stays | intros v].
  apply fails_bind; [stays | intros _].
  apply fails_bind; [stays | intros _].
  apply fails_bind; [stays | intros _].
  apply fails_bind; [stays | intros _].
  apply fails_bind; [stays | intros _].
  apply fails_bind; [stays | intros current_analysis].
  apply showFeedback_fails.
Qed.

End PanelWithoutText.

Section FreeTalk.
Context `{JSON}.

(** X18.  On a page whose feedback panel has no element for the feedback
    text, as on the page [showFreeTalkUI] writes, every message sent ends
    in the error toast, whatever the request settles to: the handler of
    the reply always runs into the missing element.  The learner's turn
    and the queued reply, where the reply got that far, stay. *)
Theorem free_talk_message_ends_in_the_toast (fetched : FetchResult) (t : Talk) :
  has_feedback_panel t = true ->
  has_feedback_text t = false ->
  (trim (input_value t) <> EmptyString ->
   exists shown,
     screen (fst (sendFreeTalkText fetched t))
     = (screen t ++ TLoadingShow :: shown
        ++ [TToastError "Failed to send message"; TLoadingHide])%list) /\
  (exists shown,
     screen (fst (sendFreeTalkAudio fetched t))
     = (screen t ++ TLoadingShow :: shown
        ++ [TToastError "Failed to process audio"; TLoadingHide])%list).
Proof.
  intros Hpanel Htext.
  assert (forall (msg : string) (t0 : Talk),
            panel_without_text t0 ->
            exists shown,
              screen (fst (finally
                             (catch (let* result := lift (fetch_json fetched) in
                                     handleFreeTalkResponse result)
                                    (fun _ => show (TToastError msg)))
                             (show TLoadingHide) t0))
              = (screen t0 ++ shown ++ [TToastError msg; TLoadingHide])%list) as Hsend.
  { intros msg t0 Ht0. unfold finally, catch, bind, lift, show, modify.
    destruct (fetch_json fetched) as [result|e]; simpl.
    - pose proof (handleFreeTalkResponse_fails result t0 Ht0) as Hfail.
      pose proof (handleFreeTalkResponse_grows result t0)
        as (_ & _ & shown & _ & _ & Hs & _).
      destruct (handleFreeTalkResponse result t0) as [s [[]|e]]; simpl in *;
        [discriminate|].
      exists shown. rewrite Hs, <- !app_assoc. reflexivity.
    - exists []. rewrite <- !app_assoc. reflexivity. }
  split.
  - intros Hin. apply String.eqb_neq in Hin.
    unfold sendFreeTalkText. unfold bind at 1, gets at 1, id. cbv beta iota.
    rewrite Hin. unfold bind at 1, modify at 1. cbv beta iota.
    unfold bind at 1, show at 1, modify at 1. cbv beta iota.
    destruct (Hsend "Failed to send message"
                (set_screen (screen (set_input_value EmptyString t) ++ [TLoadingShow])
                   (set_input_value EmptyString t))) as [shown Hs];
      [split; assumption|].
    exists shown. rewrite Hs. simpl. rewrite <- !app_assoc. reflexivity.
  - unfold sendFreeTalkAudio. unfold bind at 1, show at 1, modify at 1. cbv beta iota.
    destruct (Hsend "Failed to process audio"
                (set_screen (screen t ++ [TLoadingShow]) t)) as [shown Hs];
      [split; assumption|].
    exists shown. rewrite Hs. simpl. rewrite <- !app_assoc. reflexivity.
Qed.

End FreeTalk.

Lemma free_talk_message_ends_in_the_toast_witness :
  exists shown,
    screen (fst (sendFreeTalkText talk_reply freetalk_open))
    = (screen freetalk_open ++ TLoadingShow :: shown
       ++ [TToastError "Failed to send message"; TLoadingHide])%list.
Proof.
  destruct (free_talk_message_ends_in_the_toast talk_reply freetalk_open eq_refl eq_refl)
    as [Htext _].
  apply Htext. vm_compute. discriminate.
Defined.

(** The reply of the sample is a good one: the learner's turn is shown
    and recorded, the statistics and the scores are updated and the AI
    turn is queued, and then the toast reports a failure. *)
Example free_talk_reply_on_the_sample_page :
  screen (fst (sendFreeTalkText talk_reply freetalk_open))
  = [TLoadingShow; Bubble {| text := JStr "Hello there"; isAi := false |};
     MessageCount (JNum 1); SessionAvg (JNum 80) (JNum 71) (JNum 90);
     FeedbackScores (JNum 80) (JNum 71) (JNum 90);
     TToastError "Failed to send message"; TLoadingHide] /\
  List.length (queued (fst (sendFreeTalkText talk_reply freetalk_open))) = 1%nat /\
  List.map text (conversationHistory (fst (sendFreeTalkText talk_reply freetalk_open)))
  = [JStr "Hello there"].
Proof. vm_compute. repeat split. Qed.

(** ** A roleplay turn *)

Lemma addMessage_shown (txt : JSValue) (ai : bool) (t : Talk) :
  has_chat_container t = true ->
  ToPrimitive_raises txt = false ->
  addMessage txt ai t
  = (set_screen (screen t ++ [Bubble {| text := txt; isAi := ai |}])%list
       (set_conversationHistory
          (conversationHistory t ++ [{| text := txt; isAi := ai |}])%list t),
     Normal tt).
Proof.
  intros Hchat Hr. unfold addMessage, ToPrimitive, show. js_unfold. simpl.
  rewrite Hchat, Hr. reflexivity.
Qed.

Lemma showFeedback_shown (analysis f g v feedback corrections : JSValue)
    (listed : list JSValue) (t : Talk) :
  has_feedback_panel t = true ->
  has_score_display t = true ->
  has_feedback_text t = true ->
  analysis_reads analysis f g v feedback corrections ->
  convertible [f; g; v; js_or feedback (JStr EmptyString)] ->
  listed_corrections corrections = Normal listed ->
  showFeedback analysis t
  = (set_screen (screen t ++ [FeedbackScores f g v;
                              FeedbackText (js_or feedback (JStr EmptyString)) listed])%list
       t,
     Normal tt).
Proof.
  intros Hpanel Hscore Htext (Hfs & Hgs & Hvs & Hfb & Hco) Hconv Hlist.
  unfold convertible in Hconv.
  apply Forall_cons in Hconv as [Hrf Hconv]. apply Forall_cons in Hconv as [Hrg Hconv].
  apply Forall_cons in Hconv as [Hrv Hconv]. apply Forall_cons in Hconv as [Hrb _].
  unfold showFeedback, ToPrimitive, on_element, show. js_unfold. simpl.
  rewrite Hpanel, Hfs, Hgs, Hvs. simpl. rewrite Hrf, Hrg, Hrv, Hscore. simpl.
  rewrite Hfb. simpl. rewrite Hrb, Htext. simpl. rewrite Hco. simpl. rewrite Hlist.
  simpl. unfold set_screen. simpl. rewrite <- !app_assoc. reflexivity.
Qed.

Lemma showSessionComplete_shown (result analysis f g v xp : JSValue) (t : Talk) :
  has_result_container t = true ->
  get_prop result "analysis" = Normal analysis ->
  get_prop analysis "fluency_score" = Normal f ->
  get_prop analysis "grammar_score" = Normal g ->
  get_prop analysis "vocabulary_score" = Normal v ->
  get_prop result "xp_earned" = Normal xp ->
  convertible [f; g; v; js_or xp (JNum 40)] ->
  showSessionComplete result t
  = (replace_interface
       (set_screen (screen t ++ [SessionComplete f g v (js_or xp (JNum 40))])%list t),
     Normal tt).
Proof.
  intros Hcont Han Hfs Hgs Hvs Hxp Hconv.
  unfold convertible in Hconv.
  apply Forall_cons in Hconv as [Hrf Hconv]. apply Forall_cons in Hconv as [Hrg Hconv].
  apply Forall_cons in Hconv as [Hrv Hconv]. apply Forall_cons in Hconv as [Hrx _].
  unfold showSessionComplete, ToPrimitive, on_element, show. js_unfold. simpl.
  rewrite Han. simpl. rewrite Hfs, Hgs, Hvs. simpl. rewrite Hrf, Hrg, Hrv. simpl.
  rewrite Hxp. simpl. rewrite Hrx, Hcont. reflexivity.
Qed.

(** [handleRoleplayResponse] on a reply whose fields convert, on the
    page of [showConversationUI]. *)
Lemma handleRoleplayResponse_shown
    (result um turn analysis ic ai hint xp f g v feedback corrections : JSValue)
    (listed : list JSValue) (t : Talk) :
  roleplay_page t ->
  reply_reads result um turn analysis ic ai hint xp ->
  analysis_reads analysis f g v feedback corrections ->
  convertible [um; turn; f; g; v; js_or feedback (JStr EmptyString); ai; hint;
               js_or xp (JNum 40)] ->
  listed_corrections corrections = Normal listed ->
  truthy ai = true ->
  let m := {| text := um; isAi := false |} in
  let shown := [Bubble m; FeedbackScores f g v;
                FeedbackText (js_or feedback (JStr EmptyString)) listed] in
  let t1 := set_current_turn (Some turn)
              (set_screen (screen t ++ shown)%list
                 (set_conversationHistory (conversationHistory t ++ [m])%list t)) in
  handleRoleplayResponse result t
  = if truthy ic
    then (replace_interface
            (set_screen (screen t1 ++ [SessionComplete f g v (js_or xp (JNum 40))])%list
               t1),
          Normal tt)
    else (set_queued (queued t ++ [RoleplayReply result])%list t1, Normal tt).
Proof.
  intros (Hchat & Hturn & Hhint & Hpanel & Hscore & Htext & Hcont)
         (Hum & Htu & Han & Hic & Hai & Hhi & Hxp) Hana Hconv Hlist Hta.
  pose proof Hana as (Hfs & Hgs & Hvs & _).
  unfold convertible in Hconv.
  apply Forall_cons in Hconv as [Hru Hconv]. apply Forall_cons in Hconv as [Hrt Hconv].
  apply Forall_cons in Hconv as [Hrf Hconv]. apply Forall_cons in Hconv as [Hrg Hconv].
  apply Forall_cons in Hconv as [Hrv Hconv]. apply Forall_cons in Hconv as [Hrb Hconv].
  apply Forall_cons in Hconv as [Hra Hconv]. apply Forall_cons in Hconv as [Hrh Hconv].
  apply Forall_cons in Hconv as [Hrx _].
  destruct (current_turn t) as [shown_turn|] eqn:Hct; [clear Hturn | congruence].
  cbv zeta. unfold handleRoleplayResponse.
  unfold bind at 1, lift at 1. rewrite Hum.
  unfold bind at 1. rewrite (addMessage_shown um false t Hchat Hru).
  unfold bind at 1, gets at 1, id. cbv beta iota.
  unfold bind at 1. cbn [current_turn set_screen set_conversationHistory]. rewrite Hct.
  unfold bind at 1, lift at 1. rewrite Htu.
  unfold bind at 1, ToPrimitive at 1. rewrite Hrt.
  unfold ret at 1, modify at 1. cbv beta iota.
  unfold bind at 1, lift at 1. rewrite Han.
  unfold bind at 1.
  rewrite (showFeedback_shown analysis f g v feedback corrections listed);
    [|exact Hpanel|exact Hscore|exact Htext|exact Hana| |exact Hlist].
  2:{ repeat constructor; assumption. }
  unfold bind at 1, lift at 1. rewrite Hic.
  unfold bind at 1, lift at 1. rewrite Hai. rewrite Hta.
  destruct (truthy ic); cbn [negb andb].
  - unfold bind at 1, ret at 1.
    rewrite (showSessionComplete_shown result analysis f g v xp);
      [|exact Hcont|exact Han|exact Hfs|exact Hgs|exact Hvs|exact Hxp|].
    2:{ repeat constructor; assumption. }
    unfold set_current_turn, set_screen, set_conversationHistory, replace_interface.
    simpl. rewrite <- !app_assoc. reflexivity.
  - unfold bind at 1, modify at 1, ret at 1.
    unfold set_current_turn, set_screen, set_conversationHistory, set_queued.
    simpl. rewrite <- !app_assoc. reflexivity.
Qed.

(** The queued timeout of a roleplay reply, on a page with the chat
    container and the element for the hint. *)
Lemma ai_bubble_shown (result ai hint : JSValue) (rest : list Queued) (t : Talk) :
  queued t = RoleplayReply result :: rest ->
  get_prop result "ai_message" = Normal ai ->
  get_prop result "hint" = Normal hint ->
  has_chat_container t = true ->
  has_hint_text t = true ->
  ToPrimitive_raises ai = false ->
  ToPrimitive_raises hint = false ->
  let m := {| text := ai; isAi := true |} in
  ai_bubble t
  = (set_screen (screen t ++ Bubble m :: (if truthy hint then [HintText hint] else []))%list
       (set_conversationHistory (conversationHistory t ++ [m])%list (set_queued rest t)),
     Normal tt).
Proof.
  intros Hq Hai Hhi Hchat Hhint Hra Hrh. cbv zeta.
  unfold ai_bubble. unfold bind at 1, gets at 1, id. cbv beta iota. rewrite Hq.
  unfold bind at 1, modify at 1. cbv beta iota.
  unfold bind at 1, lift at 1. rewrite Hai.
  unfold bind at 1. rewrite (addMessage_shown ai true); [|exact Hchat|exact Hra].
  unfold bind at 1, lift at 1. rewrite Hhi.
  destruct (truthy hint).
  - unfold bind at 1, ToPrimitive at 1. rewrite Hrh. unfold ret at 1.
    unfold bind at 1, on_element at 1. rewrite Hhint. unfold ret at 1.
    unfold show, modify, set_screen, set_conversationHistory, set_queued. simpl.
    rewrite <- !app_assoc. reflexivity.
  - unfold ret, set_screen, set_conversationHistory, set_queued. simpl. reflexivity.
Qed.

Section RoleplayTurn.
Context `{JSON}.

(** X15.  On the page [showConversationUI] writes, a reply whose fields
    all convert to text makes one roleplay turn.  [sendTextResponse]
    clears the input, records and shows the learner's turn, updates the
    turn display and the feedback, and returns.  While the scenario goes
    on and the reply carries an AI message, the reply is queued, and the
    queued timeout then adds the AI turn and shows the hint, if there is
    one: the transcript grows by exactly these two turns, in this order.
    On the reply that completes the scenario nothing is queued, even if
    the reply carries an AI message, and the result screen replaces the
    conversation. *)
Theorem roleplay_turn_adds_learner_then_ai
    (fetched : FetchResult)
    (result um turn analysis ic ai hint xp f g v feedback corrections : JSValue)
    (listed : list JSValue) (t : Talk) :
  roleplay_page t ->
  trim (input_value t) <> EmptyString ->
  queued t = [] ->
  fetch_json fetched = Normal result ->
  reply_reads result um turn analysis ic ai hint xp ->
  analysis_reads analysis f g v feedback corrections ->
  convertible [um; turn; f; g; v; js_or feedback (JStr EmptyString); ai; hint;
               js_or xp (JNum 40)] ->
  listed_corrections corrections = Normal listed ->
  truthy ai = true ->
  let t1 := fst (sendTextResponse fetched t) in
  let t2 := fst (ai_bubble t1) in
  let shown := [TLoadingShow; Bubble {| text := um; isAi := false |};
                FeedbackScores f g v;
                FeedbackText (js_or feedback (JStr EmptyString)) listed] in
  snd (sendTextResponse fetched t) = Normal tt /\
  input_value t1 = EmptyString /\
  conversationHistory t1
  = (conversationHistory t ++ [{| text := um; isAi := false |}])%list /\
  (truthy ic = false ->
     current_turn t1 = Some turn /\
     screen t1 = (screen t ++ shown ++ [TLoadingHide])%list /\
     queued t1 = [RoleplayReply result] /\
     snd (ai_bubble t1) = Normal tt /\
     conversationHistory t2
     = (conversationHistory t ++ [{| text := um; isAi := false |};
                                  {| text := ai; isAi := true |}])%list /\
     queued t2 = [] /\
     screen t2 = (screen t1 ++ Bubble {| text := ai; isAi := true |}
                             :: (if truthy hint then [HintText hint] else []))%list) /\
  (truthy ic = true ->
     screen t1 = (screen t ++ shown ++ [SessionComplete f g v (js_or xp (JNum 40));
                                        TLoadingHide])%list /\
     queued t1 = [] /\
     has_chat_container t1 = false /\
     t2 = t1).
Proof.
  intros Hpage Hin Hq Hf Hreply Hana Hconv Hlist Hta.
  pose proof (handleRoleplayResponse_shown result um turn analysis ic ai hint xp
                f g v feedback corrections listed) as Hhandle.
  pose proof Hpage as (Hchat & _ & Hhint & _).
  pose proof Hreply as (_ & _ & _ & _ & Hai & Hhi & _).
  assert (ToPrimitive_raises ai = false /\ ToPrimitive_raises hint = false) as [Hra Hrh].
  { unfold convertible in Hconv. rewrite !Forall_cons in Hconv. tauto. }
  apply String.eqb_neq in Hin.
  set (t0 := set_screen (screen (set_input_value EmptyString t) ++ [TLoadingShow])%list
               (set_input_value EmptyString t)).
  assert (sendTextResponse fetched t
          = finally
              (catch (let* result := lift (fetch_json fetched) in
                      handleRoleplayResponse result)
                     (fun _ => show (TToastError "Failed to send message")))
              (show TLoadingHide) t0) as Hsend.
  { unfold sendTextResponse. unfold bind at 1, gets at 1, id. cbv beta iota.
    rewrite Hin. reflexivity. }
  assert (roleplay_page t0) as Hpage0 by exact Hpage.
  specialize (Hhandle t0 Hpage0 Hreply Hana Hconv Hlist Hta). cbv zeta in Hhandle.
  assert (sendTextResponse fetched t
          = (set_screen (screen (fst (handleRoleplayResponse result t0))
                         ++ [TLoadingHide])%list
               (fst (handleRoleplayResponse result t0)),
             Normal tt)) as Hsent.
  { rewrite Hsend. unfold finally, catch, bind, lift, show, modify. rewrite Hf, Hhandle.
    destruct (truthy ic); reflexivity. }
  cbv zeta. rewrite Hsent, Hhandle. clear Hsend Hsent Hhandle.
  destruct (truthy ic) eqn:Htic; cbn [fst snd].
  - split; [reflexivity|]. split; [reflexivity|]. split; [reflexivity|].
    split; [discriminate|]. intros _.
    split; [simpl; rewrite <- !app_assoc; reflexivity|]. split; [exact Hq|].
    split; [reflexivity|].
    unfold ai_bubble. unfold bind at 1, gets at 1, id. cbv beta iota.
    cbn [queued set_screen replace_interface set_current_turn set_conversationHistory
         set_input_value t0 fst]. rewrite Hq. reflexivity.
  - split; [reflexivity|]. split; [reflexivity|]. split; [reflexivity|].
    split; [|discriminate]. intros _.
    split; [reflexivity|].
    split; [simpl; rewrite <- !app_assoc; reflexivity|].
    split; [simpl; rewrite Hq; reflexivity|].
    match goal with |- context [ai_bubble ?x] =>
      rewrite (ai_bubble_shown result ai hint [] x);
        [|simpl; rewrite Hq; reflexivity|exact Hai|exact Hhi|exact Hchat|exact Hhint
         |exact Hra|exact Hrh]
    end.
    cbn [fst snd]. split; [reflexivity|].
    split; [simpl; rewrite <- !app_assoc; reflexivity|].
    split; reflexivity.
Qed.

End RoleplayTurn.

Lemma roleplay_turn_adds_learner_then_ai_witness :
  List.map text (conversationHistory
                   (fst (ai_bubble (fst (sendTextResponse next_turn roleplay_open)))))
  = [JStr "Welcome! What would you like to order?"; JStr "A coffee, please";
     JStr "Sure. Anything else?"].
Proof.
  destruct (roleplay_turn_adds_learner_then_ai next_turn
              (JObj [("user_message", JStr "A coffee, please"); ("turn", JNum 2);
                     ("is_complete", JBool false);
                     ("ai_message", JStr "Sure. Anything else?");
                     ("hint", JStr "Say what you want to eat");
                     ("analysis",
                      JObj [("fluency_score", JNum 80); ("grammar_score", JNum 71);
                            ("vocabulary_score", JNum 90); ("feedback", JStr "Good");
                            ("corrections", JArr [])])])
              (JStr "A coffee, please") (JNum 2)
              (JObj [("fluency_score", JNum 80); ("grammar_score", JNum 71);
                     ("vocabulary_score", JNum 90); ("feedback", JStr "Good");
                     ("corrections", JArr [])])
              (JBool false) (JStr "Sure. Anything else?")
              (JStr "Say what you want to eat") JUndefined
              (JNum 80) (JNum 71) (JNum 90) (JStr "Good") (JArr []) []
              roleplay_open)
    as (_ & _ & _ & Hgo & _).
  - repeat split. discriminate.
  - vm_compute. discriminate.
  - reflexivity.
  - vm_compute. reflexivity.
  - repeat split.
  - repeat split.
  - repeat constructor.
  - reflexivity.
  - reflexivity.
  - destruct (Hgo eq_refl) as (_ & _ & _ & _ & Hconv & _). rewrite Hconv. reflexivity.
Defined.

(** ** A sprint nobody answers *)



Section SprintRun.
Context `{JSON}.


Variables (lesson : LessonPayload) (qs : list Question) (d : Z).
Hypothesis qs_well_formed : forallb well_formed qs = true.








End SprintRun.

Section Sprint.
Context `{JSON}.



End Sprint.

